(** * IRAS GST batch checker: rate window, lookup client, dispatcher, projector

    A shallow embedding of the core of the three programs of the repository

      - [batch_script_async.py]  (command line, asyncio dispatcher),
      - [main.py]                (Streamlit front end, asyncio dispatcher),
      - [main_requests.py]       (Streamlit front end, sequential dispatcher),

    that is, of their sliding-window rate limiter, of the lookup client, of
    the batch dispatchers and of the result projector, with the properties
    that the specification states of them.

    Conventions.  Time stamps are exact integers (a tick of the clock; the
    Python code uses floats, on which the same comparisons are made).  A
    reading of [time.time()] is an explicit argument of every operation that
    reads the clock.  Python exceptions are values of [exn]; a computation
    that may raise returns a [py_result]. *)

From Stdlib Require Import ZArith List String Ascii Bool Lia Permutation DecimalString.
From stdpp Require Import base option list gmap strings.
Import ListNotations.

Local Open Scope string_scope.
Local Open Scope list_scope.
Local Open Scope Z_scope.

(** ** Python results *)

Module Py.

(** The three layers of the class hierarchy that the [except] clauses of
    the sources tell apart: a library transport error ([aiohttp.ClientError],
    [requests.exceptions.RequestException]), any other [Exception], and a
    [BaseException] that is no [Exception] ([KeyboardInterrupt],
    [asyncio.CancelledError]). *)
Inductive exn_kind := TransportError | OtherException | BaseOnly.

Record exn := Exn { exn_class : string; exn_message : string; exn_layer : exn_kind }.

Inductive py_result (A : Type) :=
| Return (a : A)
| Raise (e : exn).
Arguments Return {A} a.
Arguments Raise {A} e.

Definition bind {A B} (m : py_result A) (k : A -> py_result B) : py_result B :=
  match m with
  | Return a => k a
  | Raise e => Raise e
  end.

#[global] Instance py_ret : MRet py_result := @Return.
#[global] Instance py_bind : MBind py_result := fun A B k m => bind m k.

(** A list comprehension whose body may raise: the first exception ends it. *)
Fixpoint map_result {A B} (f : A -> py_result B) (l : list A) : py_result (list B) :=
  match l with
  | [] => Return []
  | a :: l' => b ← f a; bs ← map_result f l'; Return (b :: bs)
  end.

(** [except Exception]: every exception but a bare [BaseException] is
    handled. *)
Definition is_Exception (e : exn) : bool :=
  match exn_layer e with
  | BaseOnly => false
  | _ => true
  end.

Definition except_Exception {A} (m : py_result A) (handler : exn -> py_result A)
  : py_result A :=
  match m with
  | Return a => Return a
  | Raise e => if is_Exception e then handler e else Raise e
  end.

(** *** Values

    The objects that reach the projector: what [json] parses (and what a
    spreadsheet cell holds).  A float is carried by its [repr]; [VObj] is any
    other object, carried by its [str]: it has no [get] method and [json]
    cannot serialise it.  A dict is the list of its items in insertion
    order; its keys are distinct and a lookup takes the first binding. *)
#[warnings="-register-all"]
Inductive value :=
| VNone
| VBool (b : bool)
| VInt (n : Z)
| VFloat (repr : string)
| VStr (s : string)
| VList (items : list value)
| VDict (entries : list (string * value))
| VObj (repr : string).

Definition empty_str : value := VStr EmptyString.

(** Induction on values that goes through the items of lists and dicts. *)
Section ValueInduction.
Variable P : value -> Prop.
Hypothesis HNone : P VNone.
Hypothesis HBool : forall b, P (VBool b).
Hypothesis HInt : forall n, P (VInt n).
Hypothesis HFloat : forall r, P (VFloat r).
Hypothesis HStr : forall s, P (VStr s).
Hypothesis HList : forall items, Forall P items -> P (VList items).
Hypothesis HDict :
  forall entries, Forall (fun kv => P (snd kv)) entries -> P (VDict entries).
Hypothesis HObj : forall r, P (VObj r).

Fixpoint value_induction (v : value) : P v :=
  match v with
  | VNone => HNone
  | VBool b => HBool b
  | VInt n => HInt n
  | VFloat r => HFloat r
  | VStr s => HStr s
  | VList items =>
      HList items
        ((fix all (l : list value) : Forall P l :=
            match l with
            | [] => List.Forall_nil P
            | x :: l' => @List.Forall_cons _ P x l' (value_induction x) (all l')
            end) items)
  | VDict entries =>
      HDict entries
        ((fix all (l : list (string * value)) : Forall (fun kv => P (snd kv)) l :=
            match l with
            | [] => List.Forall_nil _
            | kv :: l' =>
                @List.Forall_cons _ (fun kv => P (snd kv)) kv l'
                  (value_induction (snd kv)) (all l')
            end) entries)
  | VObj r => HObj r
  end.
End ValueInduction.

Fixpoint dict_lookup (key : string) (entries : list (string * value)) : option value :=
  match entries with
  | [] => None
  | (k, v) :: rest => if String.eqb k key then Some v else dict_lookup key rest
  end.

(** [d.get(key, default)] on a dict *)
Definition dict_get (key : string) (entries : list (string * value)) (default : value)
  : value :=
  match dict_lookup key entries with
  | Some v => v
  | None => default
  end.

Definition type_name (v : value) : string :=
  match v with
  | VNone => "NoneType"
  | VBool _ => "bool"
  | VInt _ => "int"
  | VFloat _ => "float"
  | VStr _ => "str"
  | VList _ => "list"
  | VDict _ => "dict"
  | VObj _ => "object"
  end.

Definition AttributeError (v : value) (attr : string) : exn :=
  Exn "AttributeError"
      ("'" +:+ type_name v +:+ "' object has no attribute '" +:+ attr +:+ "'")
      OtherException.

(** [v.get(key, default)] on any object: only a dict has the method. *)
Definition py_get (v : value) (key : string) (default : value) : py_result value :=
  match v with
  | VDict entries => Return (dict_get key entries default)
  | _ => Raise (AttributeError v "get")
  end.

(** *** Text *)

(** [str(n)] of an integer: its decimal digits, with a sign when negative. *)
Definition int_str (n : Z) : string := NilZero.string_of_int (Z.to_int n).

Definition quote_char : ascii := ascii_of_N 34.
Definition apostrophe : ascii := ascii_of_N 39.
Definition backslash : ascii := ascii_of_N 92.

Definition hex_digit (n : N) : ascii :=
  match String.get (N.to_nat n) "0123456789abcdef" with
  | Some c => c
  | None => "0"%char
  end.

Definition hex2 (n : N) : string :=
  String (hex_digit (n / 16)) (String (hex_digit (n mod 16)) EmptyString).

Fixpoint concat_map (f : ascii -> string) (s : string) : string :=
  match s with
  | EmptyString => EmptyString
  | String c s' => f c +:+ concat_map f s'
  end.

Fixpoint contains_char (c : ascii) (s : string) : bool :=
  match s with
  | EmptyString => false
  | String c' s' => Ascii.eqb c c' || contains_char c s'
  end.

Definition escaped (c : ascii) : string := String backslash (String c EmptyString).

(** [json.dumps(s, ensure_ascii=False)] of a string *)
Definition json_escape_char (c : ascii) : string :=
  let n := N_of_ascii c in
  if (n =? 34)%N then escaped quote_char
  else if (n =? 92)%N then escaped backslash
  else if (n =? 10)%N then escaped "n"
  else if (n =? 13)%N then escaped "r"
  else if (n =? 9)%N then escaped "t"
  else if (n =? 8)%N then escaped "b"
  else if (n =? 12)%N then escaped "f"
  else if (n <? 32)%N then String backslash ("u00" +:+ hex2 n)
  else String c EmptyString.

Definition json_string (s : string) : string :=
  String quote_char (concat_map json_escape_char s +:+ String quote_char EmptyString).

Definition json_float (repr : string) : string :=
  if String.eqb repr "nan" then "NaN"
  else if String.eqb repr "inf" then "Infinity"
  else if String.eqb repr "-inf" then "-Infinity"
  else repr.

Definition TypeError_not_serializable (v : value) : exn :=
  Exn "TypeError"
      ("Object of type " +:+ type_name v +:+ " is not JSON serializable")
      OtherException.

(** [json.dumps(v, ensure_ascii=False)] *)
Fixpoint json_dumps (v : value) : py_result string :=
  match v with
  | VNone => Return "null"
  | VBool b => Return (if b then "true" else "false")
  | VInt n => Return (int_str n)
  | VFloat r => Return (json_float r)
  | VStr s => Return (json_string s)
  | VList items =>
      match
        (fix dump_items (l : list value) : py_result (list string) :=
           match l with
           | [] => Return []
           | x :: l' =>
               match json_dumps x with
               | Raise e => Raise e
               | Return sx =>
                   match dump_items l' with
                   | Raise e => Raise e
                   | Return ss => Return (sx :: ss)
                   end
               end
           end) items
      with
      | Raise e => Raise e
      | Return parts => Return ("[" +:+ String.concat ", " parts +:+ "]")
      end
  | VDict entries =>
      match
        (fix dump_entries (l : list (string * value)) : py_result (list string) :=
           match l with
           | [] => Return []
           | (k, x) :: l' =>
               match json_dumps x with
               | Raise e => Raise e
               | Return sx =>
                   match dump_entries l' with
                   | Raise e => Raise e
                   | Return ss => Return ((json_string k +:+ ": " +:+ sx) :: ss)
                   end
               end
           end) entries
      with
      | Raise e => Raise e
      | Return parts => Return ("{" +:+ String.concat ", " parts +:+ "}")
      end
  | VObj _ => Raise (TypeError_not_serializable v)
  end.

(** [repr(s)] of a string (code points below 256) *)
Definition repr_quote (s : string) : ascii :=
  if contains_char apostrophe s && negb (contains_char quote_char s)
  then quote_char else apostrophe.

Definition repr_escape_char (q c : ascii) : string :=
  let n := N_of_ascii c in
  if (n =? 92)%N then escaped backslash
  else if Ascii.eqb c q then escaped q
  else if (n =? 9)%N then escaped "t"
  else if (n =? 10)%N then escaped "n"
  else if (n =? 13)%N then escaped "r"
  else if (n <? 32)%N || (n =? 127)%N || ((128 <=? n)%N && (n <=? 160)%N) || (n =? 173)%N
       then String backslash ("x" +:+ hex2 n)
  else String c EmptyString.

Definition repr_string (s : string) : string :=
  let q := repr_quote s in
  String q (concat_map (repr_escape_char q) s +:+ String q EmptyString).

(** [repr(v)] *)
Fixpoint py_repr (v : value) : string :=
  match v with
  | VNone => "None"
  | VBool b => if b then "True" else "False"
  | VInt n => int_str n
  | VFloat r => r
  | VStr s => repr_string s
  | VList items => "[" +:+ String.concat ", " (List.map py_repr items) +:+ "]"
  | VDict entries =>
      "{" +:+ String.concat ", "
                (List.map (fun kv => repr_string (fst kv) +:+ ": " +:+ py_repr (snd kv))
                          entries)
          +:+ "}"
  | VObj r => r
  end.

(** [str(v)] *)
Definition py_str (v : value) : string :=
  match v with
  | VStr s => s
  | _ => py_repr v
  end.

(** [c.isspace()] for a code point below 256 *)
Definition isspace (c : ascii) : bool :=
  let n := N_of_ascii c in
  ((9 <=? n)%N && (n <=? 13)%N) || ((28 <=? n)%N && (n <=? 32)%N)
  || (n =? 133)%N || (n =? 160)%N.

Fixpoint lstrip (s : string) : string :=
  match s with
  | EmptyString => EmptyString
  | String c s' => if isspace c then lstrip s' else s
  end.

Fixpoint rstrip (s : string) : string :=
  match s with
  | EmptyString => EmptyString
  | String c s' =>
      match rstrip s' with
      | EmptyString => if isspace c then EmptyString else String c EmptyString
      | r => String c r
      end
  end.

(** [s.strip()] *)
Definition strip (s : string) : string := lstrip (rstrip s).

(** Truth value of a string: [if u] *)
Definition nonempty (s : string) : bool :=
  match s with
  | EmptyString => false
  | _ => true
  end.

End Py.

(** ** The rate window ([batch_script_async.py], lines 22-49) *)

Module RateLimiter.

Definition RATE_LIMIT_MAX : Z := 100.
Definition RATE_LIMIT_WINDOW_SEC : Z := 3600.

(** [collections.deque(maxlen=n).append(x)]: the element goes to the right
    end and, when the deque has grown past [maxlen], one element is popped
    from the left end. *)
Definition deque_append {A} (maxlen : Z) (x : A) (dq : list A) : list A :=
  let dq' := dq ++ [x] in
  if maxlen <? Z.of_nat (length dq') then tl dq' else dq'.

(** [rate_ts = deque(maxlen=RATE_LIMIT_MAX)] *)
Definition rate_ts_init : list Z := [].

(** The loop of [allowed_calls_remaining]:
    [while rate_ts and (now - rate_ts[0]) > RATE_LIMIT_WINDOW_SEC: rate_ts.popleft()] *)
Fixpoint evict (now : Z) (rate_ts : list Z) : list Z :=
  match rate_ts with
  | [] => []
  | t0 :: rest =>
      if now - t0 >? RATE_LIMIT_WINDOW_SEC then evict now rest else rate_ts
  end.

(** [if now is None: now = time.time()] *)
Definition query_time (now : option Z) (clock : Z) : Z :=
  match now with
  | None => clock
  | Some t => t
  end.

(** [allowed_calls_remaining(now)]: the returned count and the window after
    the call. *)
Definition allowed_calls_remaining (now : option Z) (clock : Z) (rate_ts : list Z)
  : Z * list Z :=
  let rate_ts' := evict (query_time now clock) rate_ts in
  (RATE_LIMIT_MAX - Z.of_nat (length rate_ts'), rate_ts').

(** [now or time.time()]: a number is falsy when it is zero, and so is [None]. *)
Definition now_or_clock (now : option Z) (clock : Z) : Z :=
  match now with
  | None => clock
  | Some t => if t =? 0 then clock else t
  end.

(** [record_call(now)]: [rate_ts.append(now or time.time())] *)
Definition record_call (now : option Z) (clock : Z) (rate_ts : list Z) : list Z :=
  deque_append RATE_LIMIT_MAX (now_or_clock now clock) rate_ts.

(** A use of the limiter: one of its two operations with its argument, paired
    (in a trace) with what the clock reads when the operation runs. *)
Inductive call :=
| RecordCall (now : option Z)
| AllowedCallsRemaining (now : option Z).

Definition exec_call (c : call * Z) (rate_ts : list Z) : list Z :=
  match c with
  | (RecordCall now, clock) => record_call now clock rate_ts
  | (AllowedCallsRemaining now, clock) => snd (allowed_calls_remaining now clock rate_ts)
  end.

Definition run_calls (tr : list (call * Z)) (rate_ts : list Z) : list Z :=
  fold_left (fun dq c => exec_call c dq) tr rate_ts.

(** The time stamps that a trace appends, in the order of the appends. *)
Definition recorded (tr : list (call * Z)) : list Z :=
  flat_map (fun c => match c with
                     | (RecordCall now, clock) => [now_or_clock now clock]
                     | _ => []
                     end) tr.

(** Retained time stamps inside the closed interval [[now - 3600, now]]. *)
Definition in_window (now t : Z) : bool :=
  (now - RATE_LIMIT_WINDOW_SEC <=? t) && (t <=? now).

Definition count_in_window (now : Z) (rate_ts : list Z) : Z :=
  Z.of_nat (length (List.filter (in_window now) rate_ts)).

(** A time stamp is older than the window relative to [now]. *)
Definition expired (now t : Z) : bool := now - t >? RATE_LIMIT_WINDOW_SEC.

(** What the specification says of a query that follows a trace of calls
    made on the initial window. *)
Definition rate_window_specified (tr : list (call * Z)) (now : option Z) (clock : Z) : Prop :=
  let q := query_time now clock in
  let before := run_calls tr rate_ts_init in
  let remaining := fst (allowed_calls_remaining now clock before) in
  let retained := snd (allowed_calls_remaining now clock before) in
  retained = List.filter (fun t => negb (expired q t)) before
  /\ remaining = RATE_LIMIT_MAX - Z.of_nat (length retained)
  /\ remaining + count_in_window q retained = RATE_LIMIT_MAX
  /\ Z.of_nat (length retained) <= RATE_LIMIT_MAX
  /\ (forall t0, In t0 (recorded tr) -> q = t0 + 3601 -> ~ In t0 retained).

(** Chronological use: the appended time stamps never decrease and the
    query is not earlier than any of them. *)
Fixpoint nondecreasing (l : list Z) : bool :=
  match l with
  | [] => true
  | t :: l' =>
      match l' with
      | [] => true
      | t' :: _ => (t <=? t') && nondecreasing l'
      end
  end.

Definition chronological (tr : list (call * Z)) (q : Z) : bool :=
  nondecreasing (recorded tr) && forallb (fun t => t <=? q) (recorded tr).

End RateLimiter.

(** The limiter of [main.py] and [main_requests.py] keeps its window in the
    Streamlit session; [record_call] there first runs a query (which evicts
    against a first reading of the clock) and then appends. *)
Module SessionLimiter.
Import RateLimiter.

Definition record_call (now : option Z) (clock clock' : Z) (rate_ts : list Z) : list Z :=
  let rate_ts' := snd (allowed_calls_remaining None clock rate_ts) in
  deque_append RATE_LIMIT_MAX (now_or_clock now clock') rate_ts'.

End SessionLimiter.

(** ** The lookup client ([IRASClient], the same in the three programs) *)

Module Client.
Import Py.

Record IRASClient := {
  base_url : string;
  client_id : string;
  client_secret : string
}.

Definition _headers (self : IRASClient) : list (string * string) :=
  [ ("X-IBM-Client-Id", client_id self);
    ("X-IBM-Client-Secret", client_secret self);
    ("Content-Type", "application/json");
    ("Accept", "application/json") ].

(** What is handed to [session.post]. *)
Record request := {
  req_url : string;
  req_json : value;
  req_headers : list (string * string);
  req_timeout : Z
}.

Definition post_request (self : IRASClient) (reg_id : string) : request :=
  {| req_url := base_url self;
     req_json := VDict [("clientID", VStr (client_id self)); ("regID", VStr reg_id)];
     req_headers := _headers self;
     req_timeout := 30 |}.

(** What the exchange gives back.  [content_type] is the result of the
    (case-insensitive) lookup of the header; [json] and [text] are what the
    two body readers do when called. *)
Record response := {
  status : Z;
  content_type : option string;
  json : py_result value;
  text : py_result string
}.

Inductive exchange :=
| Responds (resp : response)
| Fails (e : exn).

(** [{"error": f"{e.__class__.__name__}: {e}"}] *)
Definition error_description (e : exn) : string :=
  exn_class e +:+ ": " +:+ exn_message e.

Definition error_body (e : exn) : value :=
  VDict [("error", VStr (error_description e))].

(** The body of the [try] block, from the response on. *)
Definition read_response (x : exchange) : py_result (Z * value) :=
  match x with
  | Fails e => Raise e
  | Responds resp =>
      body ← (if String.prefix "application/json"
                   (default EmptyString (content_type resp))
              then json resp
              else raw ← text resp; Return (VDict [("raw", VStr raw)]));
      Return (status resp, body)
  end.

(** The [try] block with its two handlers. *)
Definition complete_lookup (x : exchange) : py_result (Z * value) :=
  match read_response x with
  | Return r => Return r
  | Raise e =>
      match exn_layer e with
      | TransportError => Return (0, error_body e)
      | OtherException => Return (0, error_body e)
      | BaseOnly => Raise e
      end
  end.

(** [search_gst_registered(reg_id)], with the session's [post] as the
    function that performs the exchange of a request. *)
Definition search_gst_registered (post : request -> exchange)
    (self : IRASClient) (reg_id : string) : py_result (Z * value) :=
  complete_lookup (post (post_request self reg_id)).

(** The transport failures of one exchange.  With [aiohttp] a connection,
    DNS or TLS failure is an [aiohttp.ClientError] and a timeout is
    [asyncio.TimeoutError]; with [requests] all four are
    [requests.exceptions.RequestException]. *)
Inductive transport_failure :=
| ConnectionFailure | TimeoutFailure | DNSFailure | TLSFailure.

Inductive http_library := Aiohttp | Requests.

Definition failure_layer (lib : http_library) (f : transport_failure) : exn_kind :=
  match lib, f with
  | Aiohttp, TimeoutFailure => OtherException
  | _, _ => TransportError
  end.

Definition transport_exn (lib : http_library) (f : transport_failure)
    (cls msg : string) : exn :=
  Exn cls msg (failure_layer lib f).

End Client.

(** ** The result projector ([process_batch_results]) *)

Module Projector.
Import Py.

(** A table: its columns from left to right, each with its label and its
    cells from the first row to the last.  The labels of a table are distinct
    and its columns have the same length. *)
Abbreviation DataFrame := (list (string * list value)).

Abbreviation LookupResult := (string * Z * value)%type.

Definition labels (df : DataFrame) : list string := List.map fst df.

Fixpoint well_formed_rows (n : nat) (df : DataFrame) : bool :=
  match df with
  | [] => true
  | (_, cells) :: rest => Nat.eqb (length cells) n && well_formed_rows n rest
  end.

Definition row_count (df : DataFrame) : nat :=
  match df with
  | [] => 0%nat
  | (_, cells) :: _ => length cells
  end.

Definition well_formed (df : DataFrame) : bool :=
  bool_decide (NoDup (labels df)) && well_formed_rows (row_count df) df.

(** The loop that builds [out_map]: the first result of an identifier stays. *)
Definition build_out_map (results : list LookupResult) : gmap string (Z * value) :=
  fold_left
    (fun (out_map : gmap string (Z * value)) (r : LookupResult) =>
       match r with
       | (uen, status, body) =>
           match out_map !! uen with
           | None => <[uen := (status, body)]> out_map
           | Some _ => out_map
           end
       end)
    results ∅.

(** The fields of one body: [returnCode], [data.registrationId] and the
    serialised body. *)
Definition derive (body : value) : py_result (value * value * value) :=
  let return_code :=
    match body with
    | VDict entries => dict_get "returnCode" entries empty_str
    | _ => empty_str
    end in
  reg_id ← match body with
           | VDict entries =>
               py_get (dict_get "data" entries (VDict [])) "registrationId" empty_str
           | _ => Return empty_str
           end;
  json_str ← except_Exception (json_dumps body) (fun _ => Return (py_str body));
  Return (return_code, reg_id, VStr json_str).

Definition extract_row (out_map : gmap string (Z * value)) (uen : string)
  : py_result (value * value * value) :=
  match out_map !! uen with
  | None => Return (empty_str, empty_str, empty_str)
  | Some (status, body) => derive body
  end.

Definition KeyError (key : string) : exn :=
  Exn "KeyError" (repr_string key) OtherException.

(** [df[label]] *)
Fixpoint select_column (label : string) (df : DataFrame) : py_result (list value) :=
  match df with
  | [] => Raise (KeyError label)
  | (l, cells) :: rest =>
      if String.eqb l label then Return cells else select_column label rest
  end.

(** [df[label] = cells]: a column with that label is replaced where it
    stands, otherwise the column is added on the right. *)
Fixpoint set_column (label : string) (cells : list value) (df : DataFrame) : DataFrame :=
  match df with
  | [] => [(label, cells)]
  | (l, old) :: rest =>
      if String.eqb l label then (label, cells) :: rest
      else (l, old) :: set_column label cells rest
  end.

Definition RESPONSE_STATUS : string := "response-status".
Definition RESPONSE_REGISTRATION_ID : string := "response-registrationId".
Definition JSON_RESPONSE : string := "json-response".

Definition derived_labels : list string :=
  [RESPONSE_STATUS; RESPONSE_REGISTRATION_ID; JSON_RESPONSE].

(** [df[[a, b, c]] = rows] with a list of triples: the three columns are
    assigned one after the other, each cell stored as it is; with no row at
    all pandas refuses the assignment
    ([ValueError: Columns must be same length as key]). *)
Definition assign_derived (rows : list (value * value * value)) (df : DataFrame)
  : py_result DataFrame :=
  match rows with
  | [] => Raise (Exn "ValueError" "Columns must be same length as key" OtherException)
  | _ :: _ =>
      Return
        (set_column JSON_RESPONSE (List.map snd rows)
           (set_column RESPONSE_REGISTRATION_ID (List.map (fun r => snd (fst r)) rows)
              (set_column RESPONSE_STATUS (List.map (fun r => fst (fst r)) rows) df)))
  end.

(** The key of a row: [.astype(str).str.strip()] on its first-column cell. *)
Definition row_key (cell : value) : string := strip (py_str cell).

Definition process_batch_results (df_in : DataFrame) (col_a_name : string)
    (results : list LookupResult) : py_result DataFrame :=
  let out_map := build_out_map results in
  series ← select_column col_a_name df_in;
  results_data ← map_result (fun cell => extract_row out_map (row_key cell)) series;
  assign_derived results_data df_in.

(** *** The drivers' view of the table

    [col_a_name = df_in.columns[0]] (the drivers stop before this point when
    the table has no column). *)
Definition col_a_name (df : DataFrame) : string :=
  match df with
  | [] => EmptyString
  | (label, _) :: _ => label
  end.

Definition first_column (df : DataFrame) : list value :=
  match df with
  | [] => []
  | (_, cells) :: _ => cells
  end.

(** [uens_raw] without its empty strings: [uens]. *)
Definition identifiers (df : DataFrame) : list string :=
  List.filter nonempty (List.map row_key (first_column df)).

(** The identifiers handed to [batch_lookup]: [uens], cut to the calls that
    remain ([can_call] is positive at this point). *)
Definition dispatched (df : DataFrame) (can_call : Z) : list string :=
  let uens := identifiers df in
  if Z.of_nat (length uens) >? can_call then firstn (Z.to_nat can_call) uens else uens.

End Projector.

(** ** The batch dispatcher ([batch_lookup] of [batch_script_async.py] and
    of [main.py])

    [batch_lookup] creates one coroutine per identifier and awaits them all
    with [asyncio.gather].  A coroutine runs without interruption between
    two suspension points, so its life has two atomic steps: it passes
    [async with sem], records a call and hands the request to the session;
    later the exchange ends, it takes the result (or the exception), does its
    bookkeeping and leaves the [async with] block.  The scheduler and the
    network choose the order of these steps: a run is a list of events. *)

Module Dispatcher.
Import Py Client Projector.

Inductive program :=
| BatchScriptAsync (progress_callback : bool)
| MainStreamlit.

(** A coroutine has not passed the semaphore yet, or awaits its exchange, or
    has returned a status and a body, or was left by an exception. *)
Inductive coroutine :=
| Waiting
| InFlight
| Finished (r : Z * value)
| Crashed (e : exn).

(** The value of the semaphore, the coroutines with their identifiers, the
    rate window, the requests posted so far, the counter and the calls of the
    progress sink (script), the shared result list ([main.py]), and the first
    exception that reached [gather]. *)
Record state := {
  sem : Z;
  tasks : list (string * coroutine);
  rate_ts : list Z;
  sent : list request;
  processed : Z;
  progress : list (Z * Z);
  results : list LookupResult;
  raised : option exn
}.

(** [Enter i clock clock']: coroutine [i] finds a free place at the
    semaphore, records its call (the clock reads [clock], then [clock']) and
    posts its request.  [Reply i x]: the exchange of that request ends as
    [x]; the coroutine resumes inside [search_gst_registered], stores what it
    returns and frees its place. *)
Inductive event :=
| Enter (i : nat) (clock clock' : Z)
| Reply (i : nat) (x : exchange).

(** [record_call()] of the program at hand; [clock] and [clock'] are the
    readings of [time.time()] during the step (the script reads it once). *)
Definition record (prog : program) (clock clock' : Z) (rate_ts : list Z) : list Z :=
  match prog with
  | BatchScriptAsync _ => RateLimiter.record_call None clock rate_ts
  | MainStreamlit => SessionLimiter.record_call None clock clock' rate_ts
  end.

(** [sem = asyncio.Semaphore(concurrency)] and the creation of the
    coroutines; a negative value is refused by [asyncio.Semaphore]. *)
Definition batch_lookup_start (uens : list string) (concurrency : Z)
    (rate_ts0 : list Z) : py_result state :=
  if concurrency <? 0
  then Raise (Exn "ValueError" "Semaphore initial value must be >= 0" OtherException)
  else Return {| sem := concurrency;
                 tasks := List.map (fun uen => (uen, Waiting)) uens;
                 rate_ts := rate_ts0;
                 sent := [];
                 processed := 0;
                 progress := [];
                 results := [];
                 raised := None |}.

Definition total (st : state) : Z := Z.of_nat (length (tasks st)).

Definition step (prog : program) (self : IRASClient) (ev : event) (st : state)
  : option state :=
  match ev with
  | Enter i clock clock' =>
      match tasks st !! i with
      | Some (uen, Waiting) =>
          if 0 <? sem st then
            Some {| sem := sem st - 1;
                    tasks := <[i := (uen, InFlight)]> (tasks st);
                    rate_ts := record prog clock clock' (rate_ts st);
                    sent := sent st ++ [post_request self uen];
                    processed := processed st;
                    progress := progress st;
                    results := results st;
                    raised := raised st |}
          else None
      | _ => None
      end
  | Reply i x =>
      match tasks st !! i with
      | Some (uen, InFlight) =>
          match complete_lookup x with
          | Return (status, body) =>
              Some {| sem := sem st + 1;
                      tasks := <[i := (uen, Finished (status, body))]> (tasks st);
                      rate_ts := rate_ts st;
                      sent := sent st;
                      processed := match prog with
                                   | BatchScriptAsync _ => processed st + 1
                                   | MainStreamlit => processed st
                                   end;
                      progress := match prog with
                                  | BatchScriptAsync true =>
                                      progress st ++ [(processed st + 1, total st)]
                                  | _ => progress st
                                  end;
                      results := match prog with
                                 | MainStreamlit => results st ++ [(uen, status, body)]
                                 | BatchScriptAsync _ => results st
                                 end;
                      raised := raised st |}
          | Raise e =>
              Some {| sem := sem st + 1;
                      tasks := <[i := (uen, Crashed e)]> (tasks st);
                      rate_ts := rate_ts st;
                      sent := sent st;
                      processed := processed st;
                      progress := progress st;
                      results := results st;
                      raised := match raised st with
                                | Some e0 => Some e0
                                | None => Some e
                                end |}
          end
      | _ => None
      end
  end.

Fixpoint run (prog : program) (self : IRASClient) (evs : list event) (st : state)
  : option state :=
  match evs with
  | [] => Some st
  | ev :: evs' =>
      match step prog self ev st with
      | Some st' => run prog self evs' st'
      | None => None
      end
  end.

Definition is_in_flight (t : string * coroutine) : bool :=
  match snd t with
  | InFlight => true
  | _ => false
  end.

Definition is_done (t : string * coroutine) : bool :=
  match snd t with
  | Finished _ | Crashed _ => true
  | _ => false
  end.

Definition in_flight (st : state) : Z :=
  Z.of_nat (length (List.filter is_in_flight (tasks st))).

Definition all_done (st : state) : bool := forallb is_done (tasks st).

(** The values that [asyncio.gather] collects, in the order of the
    coroutines. *)
Definition gathered (ts : list (string * coroutine)) : list LookupResult :=
  flat_map (fun t => match t with
                     | (uen, Finished (status, body)) => [(uen, status, body)]
                     | _ => []
                     end) ts.

(** What [batch_lookup] gives to its caller, once it does: [gather]
    propagates the first exception of a coroutine; otherwise the script
    returns what [gather] collected and [main.py] returns its [results]
    list. *)
Definition batch_lookup_outcome (prog : program) (st : state)
  : option (py_result (list LookupResult)) :=
  match raised st with
  | Some e => Some (Raise e)
  | None =>
      if all_done st
      then Some (Return match prog with
                        | BatchScriptAsync _ => gathered (tasks st)
                        | MainStreamlit => results st
                        end)
      else None
  end.

(** An exchange whose exception is no [Exception] (an interrupt, a
    cancellation) is not handled by the client. *)
Definition interrupts (ev : event) : bool :=
  match ev with
  | Reply _ x =>
      match complete_lookup x with
      | Raise _ => true
      | Return _ => false
      end
  | Enter _ _ _ => false
  end.

Definition uen_of (r : LookupResult) : string := fst (fst r).

Definition no_interrupt (evs : list event) : bool :=
  forallb (fun ev => negb (interrupts ev)) evs.

Definition is_waiting (t : string * coroutine) : bool :=
  match snd t with
  | Waiting => true
  | _ => false
  end.

(** Coroutines that have passed the semaphore (in flight or done). *)
Definition entered (st : state) : nat :=
  length (List.filter (fun t => negb (is_waiting t)) (tasks st)).

(** Steps that a coroutine still has to take. *)
Definition steps_left (t : string * coroutine) : nat :=
  match snd t with
  | Waiting => 2
  | InFlight => 1
  | _ => 0
  end.

Definition remaining_steps (ts : list (string * coroutine)) : nat :=
  list_sum (List.map steps_left ts).

(** What every state of a run satisfies (for the program [prog], the
    identifiers [uens] and the bound [concurrency]). *)
Record invariant (prog : program) (uens : list string) (concurrency : Z)
    (st : state) : Prop := {
  inv_tags : List.map fst (tasks st) = uens;
  inv_sem : sem st + in_flight st = concurrency;
  inv_sem_nonneg : 0 <= sem st;
  inv_sent : length (sent st) = entered st;
  inv_results :
    match prog with
    | MainStreamlit => Permutation (results st) (gathered (tasks st))
    | BatchScriptAsync _ => results st = []
    end;
  inv_raised :
    raised st = None -> forall i uen e, tasks st !! i <> Some (uen, Crashed e)
}.

End Dispatcher.

(** ** The sequential dispatcher ([batch_lookup] of [main_requests.py])

    One identifier after the other: [record_call()], the lookup, the append
    to [results].  The environment gives, for the iteration of index [idx],
    the two readings of the clock and what the session's [post] does. *)

Module Sequential.
Import Py Client Projector.

Record turn := {
  clock : Z;
  clock' : Z;
  post : request -> exchange
}.

Fixpoint batch_lookup_from (self : IRASClient) (env : nat -> turn) (idx : nat)
    (uens : list string) (rate_ts : list Z) (results : list LookupResult)
  : py_result (list LookupResult * list Z) :=
  match uens with
  | [] => Return (results, rate_ts)
  | uen :: rest =>
      let rate_ts' :=
        SessionLimiter.record_call None (clock (env idx)) (clock' (env idx)) rate_ts in
      r ← search_gst_registered (post (env idx)) self uen;
      batch_lookup_from self env (S idx) rest rate_ts' (results ++ [(uen, fst r, snd r)])
  end.

(** The returned list and the window after the batch. *)
Definition batch_lookup (self : IRASClient) (env : nat -> turn) (uens : list string)
    (rate_ts : list Z) : py_result (list LookupResult * list Z) :=
  batch_lookup_from self env 0 uens rate_ts [].

End Sequential.

(** ** The command-line driver ([main_async] of [batch_script_async.py])

    The part of [main_async] that decides whether and what to dispatch, and
    its summary of the results.  The environment variables, the existence of
    the input file, what [pd.read_excel] does and the reading of the clock
    are arguments. *)

Module Driver.
Import Py Client Projector RateLimiter.

Definition ENV_VAR_CLIENT_ID : string := "IRAS_CLIENT_ID".
Definition ENV_VAR_CLIENT_SECRET : string := "IRAS_CLIENT_SECRET".

Definition URLS : list (string * string) :=
  [ ("production",
     "https://apiservices.iras.gov.sg/iras/prod/GSTListing/SearchGSTRegistered");
    ("sandbox",
     "https://apisandbox.iras.gov.sg/iras/sb/GSTListing/SearchGSTRegistered") ].

(** [URLS.get(key)] *)
Fixpoint urls_get (key : string) (urls : list (string * string)) : option string :=
  match urls with
  | [] => None
  | (k, url) :: rest => if String.eqb k key then Some url else urls_get key rest
  end.

(** [c.lower()] for a code point below 256 *)
Definition lower_char (c : ascii) : ascii :=
  let n := N_of_ascii c in
  if ((65 <=? n)%N && (n <=? 90)%N)
     || ((192 <=? n)%N && (n <=? 214)%N)
     || ((216 <=? n)%N && (n <=? 222)%N)
  then ascii_of_N (n + 32)
  else c.

Fixpoint lower (s : string) : string :=
  match s with
  | EmptyString => EmptyString
  | String c s' => String (lower_char c) (lower s')
  end.

(** The command line, as [argparse] hands it over. *)
Record arguments := {
  input : string;
  output : option string;
  env : string;
  concurrency : Z
}.

(** Truth value of what [os.getenv] returns: [None] and the empty string are
    falsy. *)
Definition is_set (v : option string) : bool :=
  match v with
  | Some s => nonempty s
  | None => false
  end.

(** The ways in which [main_async] stops before dispatching: the five
    [sys.exit(1)] of the validation, and an exception that [read_excel] lets
    through. *)
Inductive halt :=
| MissingCredentials
| InputNotFound
| UnreadableExcel (e : exn)
| NoColumns
| RateLimitReached
| InvalidEnvironment
| Interrupted (e : exn).

(** What is handed to [batch_lookup] and, later, to [process_batch_results];
    [plan_rate_ts] is the window after the query of the budget. *)
Record plan := {
  plan_client : IRASClient;
  plan_df_in : DataFrame;
  plan_col_a_name : string;
  plan_uens : list string;
  plan_concurrency : Z;
  plan_rate_ts : list Z
}.

Definition main_async_plan (getenv : string -> option string) (args : arguments)
    (input_exists : bool) (read_excel : py_result DataFrame)
    (clock : Z) (rate_ts : list Z) : halt + plan :=
  let client_id := getenv ENV_VAR_CLIENT_ID in
  let client_secret := getenv ENV_VAR_CLIENT_SECRET in
  if negb (is_set client_id) || negb (is_set client_secret) then inl MissingCredentials
  else if negb input_exists then inl InputNotFound
  else
    match read_excel with
    | Raise e => if is_Exception e then inl (UnreadableExcel e) else inl (Interrupted e)
    | Return df_in =>
        match df_in with
        | [] => inl NoColumns
        | _ :: _ =>
            let can_call := fst (allowed_calls_remaining None clock rate_ts) in
            let rate_ts' := snd (allowed_calls_remaining None clock rate_ts) in
            if can_call <=? 0 then inl RateLimitReached
            else
              match urls_get (lower (env args)) URLS with
              | None => inl InvalidEnvironment
              | Some base_url =>
                  inr {| plan_client :=
                           {| base_url := base_url;
                              client_id := default EmptyString client_id;
                              client_secret := default EmptyString client_secret |};
                         plan_df_in := df_in;
                         plan_col_a_name := col_a_name df_in;
                         plan_uens := dispatched df_in can_call;
                         plan_concurrency := concurrency args;
                         plan_rate_ts := rate_ts' |}
              end
        end
    end.

(** *** The summary of the results *)

(** [v == 10] *)
Definition equals_10 (v : value) : bool :=
  match v with
  | VInt n => n =? 10
  | VFloat r => String.eqb r "10.0"
  | _ => false
  end.

(** [isinstance(body, dict) and body.get("returnCode") == 10] *)
Definition is_success (r : LookupResult) : bool :=
  match snd r with
  | VDict entries =>
      match dict_lookup "returnCode" entries with
      | Some v => equals_10 v
      | None => false
      end
  | _ => false
  end.

(** [status == 0 or (isinstance(body, dict) and "error" in body)] *)
Definition is_error (r : LookupResult) : bool :=
  (snd (fst r) =? 0)
  || match snd r with
     | VDict entries =>
         match dict_lookup "error" entries with
         | Some _ => true
         | None => false
         end
     | _ => false
     end.

Definition success_count (results : list LookupResult) : Z :=
  Z.of_nat (length (List.filter is_success results)).

Definition error_count (results : list LookupResult) : Z :=
  Z.of_nat (length (List.filter is_error results)).

(** [len(results) - success_count - error_count] *)
Definition others_count (results : list LookupResult) : Z :=
  Z.of_nat (length results) - success_count results - error_count results.

End Driver.

(** ** Vocabulary of the statements *)

Module Statements.
Import Py Projector.

(** The first result recorded for an identifier, read off the result list. *)
Definition spec_first_result (uen : string) (results : list LookupResult)
  : option (Z * value) :=
  match List.find (fun r => String.eqb (fst (fst r)) uen) results with
  | Some (_, status, body) => Some (status, body)
  | None => None
  end.

(** Bodies on which the derivation of a row cannot fail: anything that is
    not a dict, and a dict whose [data] entry is absent or is itself a dict. *)
Definition derivable (body : value) : bool :=
  match body with
  | VDict entries =>
      match dict_lookup "data" entries with
      | None => true
      | Some (VDict _) => true
      | Some _ => false
      end
  | _ => true
  end.

(** The derived fields of a derivable body, as the specification words them. *)
Definition spec_derive (body : value) : value * value * value :=
  ( match body with
    | VDict entries => dict_get "returnCode" entries empty_str
    | _ => empty_str
    end,
    match body with
    | VDict entries =>
        match dict_lookup "data" entries with
        | Some (VDict data) => dict_get "registrationId" data empty_str
        | _ => empty_str
        end
    | _ => empty_str
    end,
    VStr match json_dumps body with
         | Return s => s
         | Raise _ => py_str body
         end ).

Definition all_empty : value * value * value := (empty_str, empty_str, empty_str).

(** The fields of a row, read off the result list. *)
Definition spec_row (results : list LookupResult) (cell : value) : value * value * value :=
  match spec_first_result (row_key cell) results with
  | None => all_empty
  | Some (_, body) => spec_derive body
  end.

(** Reading a table: the cell of a column at a row, and the three derived
    cells of a row. *)
Definition cell_at (label : string) (i : nat) (df : DataFrame) : option value :=
  match select_column label df with
  | Return cells => cells !! i
  | Raise _ => None
  end.

Definition derived_at (i : nat) (df : DataFrame) : option (value * value * value) :=
  match cell_at RESPONSE_STATUS i df,
        cell_at RESPONSE_REGISTRATION_ID i df,
        cell_at JSON_RESPONSE i df with
  | Some a, Some b, Some c => Some (a, b, c)
  | _, _, _ => None
  end.

Fixpoint all_space (s : string) : bool :=
  match s with
  | EmptyString => true
  | String c s' => isspace c && all_space s'
  end.

(** The frame property as the specification states it: the output is the
    input followed by three new columns in the fixed order. *)
Definition appends_three_columns (df : DataFrame) (col : string)
    (results : list LookupResult) : Prop :=
  exists a b c,
    process_batch_results df col results =
      Return (df ++ [ (RESPONSE_STATUS, a); (RESPONSE_REGISTRATION_ID, b);
                      (JSON_RESPONSE, c) ]).

(** Idempotence as the specification states it: projecting the output again
    gives the output. *)
Definition projection_idempotent (df : DataFrame) (col : string)
    (results : list LookupResult) : Prop :=
  forall out,
    process_batch_results df col results = Return out ->
    process_batch_results out col results = Return out.

(** An input column already bears the label of a derived column. *)
Definition collides (df : DataFrame) : bool :=
  existsb (fun l => existsb (String.eqb l) (labels df)) derived_labels.

Definition is_derived_label (label : string) : bool :=
  existsb (String.eqb label) derived_labels.

(** The text begins, or ends, with a white-space character. *)
Definition starts_with_space (s : string) : bool :=
  match s with
  | EmptyString => false
  | String c _ => isspace c
  end.

Fixpoint ends_with_space (s : string) : bool :=
  match s with
  | EmptyString => false
  | String c s' =>
      match s' with
      | EmptyString => isspace c
      | String _ _ => ends_with_space s'
      end
  end.

(** A text without white space at its boundaries. *)
Definition trimmed (u : string) : bool :=
  negb (starts_with_space u) && negb (ends_with_space u).

End Statements.

(** ** Vocabulary of the further statements *)

Module Observations.
Import Py RateLimiter.

(** The last [n] elements of a list (the whole list when it is shorter). *)
Definition keep_last {A} (n : nat) (l : list A) : list A := drop (length l - n) l.

(** A trace made of [record_call] only. *)
Definition records (calls : list (option Z * Z)) : list (call * Z) :=
  List.map (fun c => (RecordCall (fst c), snd c)) calls.

End Observations.

(** What the events of a run tell. *)
Module History.
Import Py Client Projector Dispatcher.

(** The readings of the clock with which coroutines recorded their call, the
    positions of the coroutines that entered, and those of the coroutines
    whose exchange ended, in the order of the events. *)
Definition entry_clocks (evs : list event) : list Z :=
  flat_map (fun ev => match ev with
                      | Enter _ clock _ => [clock]
                      | Reply _ _ => []
                      end) evs.

(** The second readings of the clock in the entries: what [main.py] appends
    to its window. *)
Definition entry_stamps (evs : list event) : list Z :=
  flat_map (fun ev => match ev with
                      | Enter _ _ clock' => [clock']
                      | Reply _ _ => []
                      end) evs.

Definition entered_positions (evs : list event) : list nat :=
  flat_map (fun ev => match ev with
                      | Enter i _ _ => [i]
                      | Reply _ _ => []
                      end) evs.

Definition replied_positions (evs : list event) : list nat :=
  flat_map (fun ev => match ev with
                      | Enter _ _ _ => []
                      | Reply i _ => [i]
                      end) evs.

(** The request of the coroutine at a position. *)
Definition request_at (self : IRASClient) (uens : list string) (i : nat) : list request :=
  match uens !! i with
  | Some uen => [post_request self uen]
  | None => []
  end.

(** The results of the lookups that ended with a result, in the order in
    which they ended. *)
Definition completions (uens : list string) (evs : list event) : list LookupResult :=
  flat_map (fun ev => match ev with
                      | Reply i x =>
                          match uens !! i, complete_lookup x with
                          | Some uen, Return r => [(uen, fst r, snd r)]
                          | _, _ => []
                          end
                      | Enter _ _ _ => []
                      end) evs.

(** How a coroutine ends when its exchange is [x]. *)
Definition ending (x : exchange) : coroutine :=
  match complete_lookup x with
  | Return r => Finished r
  | Raise e => Crashed e
  end.

(** The schedule that takes the identifiers one after the other, with the
    clock and the session of the sequential program. *)
Fixpoint sequential_schedule (self : IRASClient) (env : nat -> Sequential.turn)
    (idx : nat) (uens : list string) : list event :=
  match uens with
  | [] => []
  | uen :: rest =>
      Enter idx (Sequential.clock (env idx)) (Sequential.clock' (env idx))
      :: Reply idx (Sequential.post (env idx) (post_request self uen))
      :: sequential_schedule self env (S idx) rest
  end.

(** Who entered and who was answered, read off the events so far. *)
Record positions (h : list event) (st : state) : Prop := {
  pos_entered : forall i,
    In i (entered_positions h) <->
    exists uen t, tasks st !! i = Some (uen, t) /\ t <> Waiting;
  pos_entered_once : NoDup (entered_positions h);
  pos_replied : forall i,
    In i (replied_positions h) <->
    exists uen t, tasks st !! i = Some (uen, t) /\ is_done (uen, t) = true;
  pos_replied_once : NoDup (replied_positions h);
  pos_ending : forall i x,
    In (Reply i x) h -> exists uen, tasks st !! i = Some (uen, ending x)
}.

(** The bookkeeping of a run, read off the events so far. *)
Record bookkeeping (self : IRASClient) (prog : program) (uens : list string) (h : list event)
    (st : state) : Prop := {
  bk_sent : sent st = flat_map (request_at self uens) (entered_positions h);
  bk_results :
    results st = match prog with
                 | MainStreamlit => completions uens h
                 | BatchScriptAsync _ => []
                 end;
  bk_processed :
    processed st = match prog with
                   | BatchScriptAsync _ => Z.of_nat (length (completions uens h))
                   | MainStreamlit => 0
                   end;
  bk_progress :
    progress st = match prog with
                  | BatchScriptAsync true =>
                      List.map (fun k => (Z.of_nat k, Z.of_nat (length uens)))
                        (seq 1 (length (completions uens h)))
                  | _ => []
                  end;
  bk_gathered : Permutation (completions uens h) (gathered (tasks st))
}.

End History.

(** How lookups and projections end. *)
Module Outcomes.
Import Py Client Projector Statements.

(** The first result of a row's key has a body that can be derived (or the
    key has no result). *)
Definition row_derivable (results : list LookupResult) (cell : value) : bool :=
  match spec_first_result (row_key cell) results with
  | Some (_, body) => derivable body
  | None => true
  end.

(** The results with their HTTP status replaced. *)
Definition with_status (f : LookupResult -> Z) (results : list LookupResult)
  : list LookupResult :=
  List.map (fun r => (fst (fst r), f r, snd r)) results.

(** The body was parsed from a response that announced JSON. *)
Definition parsed_from_json (x : exchange) (r : Z * value) : Prop :=
  exists resp,
    x = Responds resp
    /\ String.prefix "application/json" (default EmptyString (content_type resp)) = true
    /\ json resp = Return (snd r)
    /\ fst r = status resp.

End Outcomes.

(** ** Sample data *)

Module Samples.
Import Py Client Projector Dispatcher.

Definition client : IRASClient :=
  {| base_url := "https://apiservices.iras.gov.sg/iras/prod/GSTListing/SearchGSTRegistered";
     client_id := "client-id";
     client_secret := "client-secret" |}.

Definition found_body : value :=
  VDict [("returnCode", VInt 10); ("data", VDict [("registrationId", VStr "X1")])].

Definition not_found_body : value := VDict [("returnCode", VInt 30)].

Definition null_data_body : value := VDict [("returnCode", VInt 30); ("data", VNone)].

Definition refused : exn :=
  transport_exn Aiohttp ConnectionFailure "ClientConnectorError" "Cannot connect to host".

Definition found : exchange :=
  Responds {| status := 200;
              content_type := Some "application/json; charset=utf-8";
              json := Return found_body;
              text := Return "unused" |}.

Definition table : DataFrame :=
  [ ("UEN", [VStr "200312345A"; VStr "  200312345A "; VStr "201912345B"; VStr "t08gb0001a"]);
    ("Name", [VStr "Alpha"; VStr "Alpha again"; VStr "Beta"; VStr "Gamma"]) ].

Definition lookups : list LookupResult :=
  [ ("200312345A", 200, found_body);
    ("200312345A", 200, not_found_body);
    ("201912345B", 0, error_body refused);
    ("T08GB0001A", 200, found_body) ].

Definition projected : DataFrame :=
  Eval vm_compute in
    match process_batch_results table "UEN" lookups with
    | Return out => out
    | Raise _ => []
    end.

(** A table that already has a column with a derived label, and a table
    whose identifier column bears a derived label. *)
Definition table_with_json_column : DataFrame :=
  [ ("UEN", [VStr "200312345A"]); ("json-response", [VStr "kept"]) ].

Definition table_keyed_by_json_column : DataFrame :=
  [ ("json-response", [VStr "200312345A"]) ].

Definition one_lookup : list LookupResult := [("200312345A", 200, not_found_body)].

Definition uens : list string := ["200312345A"; "201912345B"; "200312345A"].

(** Two places at the semaphore: the first two coroutines enter, the second
    lookup is refused, the third coroutine enters, the others are answered. *)
Definition schedule : list event :=
  [ Enter 0 1000 1000; Enter 1 1000 1001; Reply 1 (Fails refused);
    Enter 2 1002 1002; Reply 0 found; Reply 2 found ].

Definition start_state : state :=
  {| sem := 2;
     tasks := [("200312345A", Waiting); ("201912345B", Waiting); ("200312345A", Waiting)];
     rate_ts := [];
     sent := [];
     processed := 0;
     progress := [];
     results := [];
     raised := None |}.

(** The state of the script after the whole schedule, and the state of
    [main.py] after its first four events. *)
Definition script_final_state : state :=
  Eval vm_compute in
    match run (BatchScriptAsync true) client schedule start_state with
    | Some st => st
    | None => start_state
    end.

Definition streamlit_mid_state : state :=
  Eval vm_compute in
    match run MainStreamlit client (firstn 4 schedule) start_state with
    | Some st => st
    | None => start_state
    end.

End Samples.

(** ** More sample data *)

Module Scenarios.
Import Py Client Projector Dispatcher Driver Samples.

(** The state of [main.py] after the whole schedule. *)
Definition streamlit_final_state : state :=
  Eval vm_compute in
    match run MainStreamlit client schedule start_state with
    | Some st => st
    | None => start_state
    end.

(** A run in which the first lookup is cancelled. *)
Definition cancelled : exn := Exn "CancelledError" EmptyString BaseOnly.

Definition interrupted_schedule : list event :=
  [ Enter 0 1000 1000; Enter 1 1000 1000; Reply 0 (Fails cancelled); Reply 1 found ].

Definition interrupted_state : state :=
  Eval vm_compute in
    match run (BatchScriptAsync true) client interrupted_schedule start_state with
    | Some st => st
    | None => start_state
    end.

(** The sequential program on a session that answers every request. *)
Definition steady (idx : nat) : Sequential.turn :=
  {| Sequential.clock := 1000; Sequential.clock' := 1001; Sequential.post := fun _ => found |}.

Definition sequential_outcome : list LookupResult * list Z :=
  Eval vm_compute in
    match Sequential.batch_lookup client steady uens [] with
    | Return r => r
    | Raise _ => ([], [])
    end.

(** A command line, an environment and a window with one expired and one
    fresh time stamp. *)
Definition getenv (name : string) : option string :=
  if String.eqb name ENV_VAR_CLIENT_ID then Some "client-id"
  else if String.eqb name ENV_VAR_CLIENT_SECRET then Some "client-secret"
  else None.

Definition command_line : arguments :=
  {| input := "uens.xlsx"; output := None; env := "Production"; concurrency := 2 |}.

Definition no_plan : plan :=
  {| plan_client := client; plan_df_in := []; plan_col_a_name := EmptyString;
     plan_uens := []; plan_concurrency := 0; plan_rate_ts := [] |}.

Definition sample_plan : plan :=
  Eval vm_compute in
    match main_async_plan getenv command_line true (Return table) 5000 [100; 4000] with
    | inr p => p
    | inl _ => no_plan
    end.

Definition not_found : exchange :=
  Responds {| status := 200;
              content_type := Some "application/json";
              json := Return not_found_body;
              text := Return "unused" |}.

Definition plan_schedule : list event :=
  [ Enter 0 5001 5001; Enter 1 5001 5001; Reply 0 found; Enter 2 5002 5002;
    Reply 1 not_found; Reply 2 (Fails refused); Enter 3 5003 5003; Reply 3 not_found ].

Definition plan_start_state : state :=
  Eval vm_compute in
    match batch_lookup_start (plan_uens sample_plan) (plan_concurrency sample_plan)
            (plan_rate_ts sample_plan) with
    | Return st => st
    | Raise _ => start_state
    end.

Definition plan_final_state : state :=
  Eval vm_compute in
    match run (BatchScriptAsync true) (plan_client sample_plan) plan_schedule
            plan_start_state with
    | Some st => st
    | None => plan_start_state
    end.

Definition two_lookups : list LookupResult :=
  [ ("200312345A", 200, found_body); ("201912345B", 0, error_body refused) ].

End Scenarios.

(** * Properties *)

(** ** The rate window *)

Section RateWindow.
Import RateLimiter.

Lemma nondecreasing_tail t l : nondecreasing (t :: l) = true -> nondecreasing l = true.
Proof.
  destruct l as [|t' l]; [reflexivity|].
  cbn [nondecreasing]. intros H. apply andb_true_iff in H. tauto.
Qed.

Lemma nondecreasing_head t l x :
  nondecreasing (t :: l) = true -> In x l -> t <= x.
Proof.
  revert t. induction l as [|t' l IH]; intros t Hs Hin; [destruct Hin|].
  cbn [nondecreasing] in Hs. apply andb_true_iff in Hs. destruct Hs as [Hle Hs].
  apply Z.leb_le in Hle. destruct Hin as [<-|Hin]; [exact Hle|].
  specialize (IH t' Hs Hin). lia.
Qed.

Lemma nondecreasing_suffix pre l :
  nondecreasing (pre ++ l) = true -> nondecreasing l = true.
Proof.
  induction pre as [|p pre IH]; [trivial|].
  intros H. apply IH. exact (nondecreasing_tail _ _ H).
Qed.

Lemma filter_keeps_all {A} (f : A -> bool) l :
  (forall x, In x l -> f x = true) -> List.filter f l = l.
Proof.
  induction l as [|a l IH]; intros H; [reflexivity|].
  cbn [List.filter]. rewrite (H a (or_introl eq_refl)).
  f_equal. apply IH. intros x Hx. apply H. now right.
Qed.

(** On a window in chronological order the loop removes exactly the expired
    time stamps. *)
Lemma evict_nondecreasing q l :
  nondecreasing l = true ->
  evict q l = List.filter (fun t => negb (expired q t)) l.
Proof.
  induction l as [|t0 rest IH]; intros Hs; [reflexivity|].
  cbn [evict List.filter]. unfold expired at 1.
  destruct (q - t0 >? RATE_LIMIT_WINDOW_SEC) eqn:Hold; cbn [negb].
  - apply IH. exact (nondecreasing_tail _ _ Hs).
  - f_equal. symmetry. apply filter_keeps_all. intros x Hx.
    pose proof (nondecreasing_head _ _ _ Hs Hx) as Hle.
    unfold expired. apply negb_true_iff.
    rewrite Z.gtb_ltb in Hold |- *. apply Z.ltb_ge in Hold. apply Z.ltb_ge. lia.
Qed.

Lemma evict_is_suffix q l : exists pre, l = pre ++ evict q l.
Proof.
  induction l as [|t0 rest [pre IH]]; [now exists []|].
  cbn [evict]. destruct (q - t0 >? RATE_LIMIT_WINDOW_SEC).
  - exists (t0 :: pre). cbn. now f_equal.
  - now exists [].
Qed.

Lemma evict_length q l : (length (evict q l) <= length l)%nat.
Proof.
  destruct (evict_is_suffix q l) as [pre H].
  rewrite H at 2. rewrite length_app. lia.
Qed.

Lemma deque_append_is_suffix {A} m (x : A) dq :
  exists pre, dq ++ [x] = pre ++ deque_append m x dq.
Proof.
  unfold deque_append. destruct (m <? _).
  - destruct (dq ++ [x]) as [|h rest]; [now exists []|].
    exists [h]. reflexivity.
  - now exists [].
Qed.

Lemma deque_append_length {A} m (x : A) dq :
  0 <= m -> Z.of_nat (length dq) <= m ->
  Z.of_nat (length (deque_append m x dq)) <= m.
Proof.
  intros Hm Hlen. unfold deque_append.
  destruct (m <? _) eqn:Hfull.
  - destruct dq as [|h rest]; cbn [app tl length] in *; [lia|].
    rewrite length_app. cbn [length]. lia.
  - apply Z.ltb_ge in Hfull. exact Hfull.
Qed.

(** Below capacity the new element is added at the right end; at capacity the
    oldest element leaves at the left end (a bounded first-in first-out
    queue, which keeps duplicates). *)
Lemma deque_append_fifo {A} m (x : A) dq :
  0 < m -> Z.of_nat (length dq) <= m ->
  deque_append m x dq =
    if Z.of_nat (length dq) <? m then dq ++ [x] else tl dq ++ [x].
Proof.
  intros Hm Hlen. unfold deque_append. rewrite length_app. cbn [length].
  destruct (Z.of_nat (length dq) <? m) eqn:Hlt.
  - apply Z.ltb_lt in Hlt.
    destruct (m <? _) eqn:Hfull; [apply Z.ltb_lt in Hfull; lia|reflexivity].
  - apply Z.ltb_ge in Hlt.
    destruct (m <? _) eqn:Hfull; [|apply Z.ltb_ge in Hfull; lia].
    destruct dq as [|h rest]; [cbn in Hlt; lia|reflexivity].
Qed.

(** The window is at every moment a suffix of the sequence of appended time
    stamps: both operations only remove at the left end. *)
Lemma run_calls_suffix tr : forall dq rec0,
  (exists pre, rec0 = pre ++ dq) ->
  exists pre, rec0 ++ recorded tr = pre ++ run_calls tr dq.
Proof.
  induction tr as [|[c clock] tr IH]; intros dq rec0 [pre Hpre].
  - exists pre. cbn. now rewrite app_nil_r.
  - cbn [run_calls fold_left recorded flat_map]. fold (recorded tr).
    fold (run_calls tr (exec_call (c, clock) dq)).
    rewrite app_assoc. apply IH. destruct c as [now|now]; cbn [exec_call].
    + unfold record_call.
      destruct (deque_append_is_suffix RATE_LIMIT_MAX (now_or_clock now clock) dq)
        as [pre' H'].
      exists (pre ++ pre'). rewrite Hpre, <- !app_assoc. now rewrite H'.
    + cbn [allowed_calls_remaining snd]. rewrite app_nil_r.
      destruct (evict_is_suffix (query_time now clock) dq) as [pre' H'].
      exists (pre ++ pre'). rewrite <- app_assoc, <- H'. exact Hpre.
Qed.

Lemma run_calls_length tr : forall dq,
  Z.of_nat (length dq) <= RATE_LIMIT_MAX ->
  Z.of_nat (length (run_calls tr dq)) <= RATE_LIMIT_MAX.
Proof.
  induction tr as [|[c clock] tr IH]; intros dq Hlen; [exact Hlen|].
  cbn [run_calls fold_left]. fold (run_calls tr (exec_call (c, clock) dq)).
  apply IH. destruct c as [now|now]; cbn [exec_call].
  - apply deque_append_length; [unfold RATE_LIMIT_MAX; lia|exact Hlen].
  - cbn [allowed_calls_remaining snd].
    pose proof (evict_length (query_time now clock) dq). lia.
Qed.

(** C1 (as amended): when the time stamps are appended in chronological order
    and the query is not earlier than any of them, [allowed_calls_remaining]
    evicts exactly the time stamps older than 3600 relative to the query,
    returns 100 minus the retained count, the returned value plus the number
    of retained time stamps within [now - 3600, now] is 100, the retained
    count is at most 100, and a call recorded at [t0] is not retained by a
    query at [t0 + 3601]. *)
Theorem rate_window_chronological tr now clock :
  chronological tr (query_time now clock) = true ->
  rate_window_specified tr now clock.
Proof.
  intros Hchr. apply andb_true_iff in Hchr. destruct Hchr as [Hsorted Hbound].
  unfold rate_window_specified. cbn [allowed_calls_remaining fst snd].
  set (q := query_time now clock). set (before := run_calls tr rate_ts_init).
  destruct (run_calls_suffix tr rate_ts_init [] (ex_intro _ [] eq_refl)) as [pre Hsuf].
  cbn [app] in Hsuf. fold before in Hsuf.
  assert (Hs : nondecreasing before = true).
  { apply (nondecreasing_suffix pre). now rewrite <- Hsuf. }
  assert (Hb : forall t, In t before -> t <= q).
  { intros t Ht. rewrite forallb_forall in Hbound. apply Z.leb_le, Hbound.
    rewrite Hsuf. apply in_or_app. now right. }
  assert (Hev : evict q before = List.filter (fun t => negb (expired q t)) before)
    by (apply evict_nondecreasing; exact Hs).
  assert (Hfresh : forall t, In t (evict q before) -> In t before /\ q - t <= 3600).
  { intros t Ht. rewrite Hev in Ht. apply filter_In in Ht. destruct Ht as [Hin Hne].
    split; [exact Hin|]. apply negb_true_iff in Hne. unfold expired in Hne.
    rewrite Z.gtb_ltb in Hne. apply Z.ltb_ge in Hne.
    unfold RATE_LIMIT_WINDOW_SEC in Hne. lia. }
  repeat split.
  - exact Hev.
  - unfold count_in_window. rewrite filter_keeps_all; [lia|].
    intros t Ht. destruct (Hfresh t Ht) as [Hin Hage]. specialize (Hb t Hin).
    unfold in_window, RATE_LIMIT_WINDOW_SEC. apply andb_true_iff.
    split; apply Z.leb_le; lia.
  - pose proof (evict_length q before).
    pose proof (run_calls_length tr rate_ts_init) as Hlen.
    fold before in Hlen. cbn in Hlen. unfold RATE_LIMIT_MAX in *. lia.
  - intros t0 _ Hq Hin. destruct (Hfresh t0 Hin) as [_ Hage]. lia.
Qed.

Lemma rate_window_chronological_witness :
  rate_window_specified
    [(RecordCall None, 1000); (RecordCall (Some 1500), 1501);
     (AllowedCallsRemaining None, 1600); (RecordCall None, 2000)]
    (Some 4601) 4700.
Proof. apply rate_window_chronological. vm_compute. reflexivity. Defined.

(** C1 (as stated) fails when a time stamp is appended out of order: the
    loop stops at a fresh head and the stale time stamp behind it stays.  It
    also fails when a time stamp lies after the query: it is retained and
    is outside [now - 3600, now]. *)
Lemma rate_window_out_of_order :
  snd (allowed_calls_remaining (Some 5000) 5000
         (run_calls [(RecordCall (Some 5000), 5000); (RecordCall (Some 1), 5000)]
            rate_ts_init)) = [5000; 1]
  /\ fst (allowed_calls_remaining (Some 5000) 5000
         (run_calls [(RecordCall (Some 5000), 5000); (RecordCall (Some 1), 5000)]
            rate_ts_init)) + count_in_window 5000 [5000; 1] = 99
  /\ ~ rate_window_specified
         [(RecordCall (Some 5000), 5000); (RecordCall (Some 1), 5000)]
         (Some 5000) 5000
  /\ ~ rate_window_specified [(RecordCall (Some 10000), 5000)] (Some 5000) 5000.
Proof.
  split; [reflexivity|]. split; [reflexivity|]. split.
  - intros (Hevict & _). vm_compute in Hevict. discriminate Hevict.
  - intros (_ & _ & Hcount & _). vm_compute in Hcount. discriminate Hcount.
Qed.

(** For a non-zero time stamp [record_call] appends the time stamp itself,
    first in first out at capacity. *)
Lemma record_call_appends t clock dq :
  t <> 0 -> Z.of_nat (length dq) <= RATE_LIMIT_MAX ->
  record_call (Some t) clock dq =
    if Z.of_nat (length dq) <? RATE_LIMIT_MAX then dq ++ [t] else tl dq ++ [t].
Proof.
  intros Ht Hlen. unfold record_call, now_or_clock.
  destruct (t =? 0) eqn:E; [apply Z.eqb_eq in E; contradiction|].
  apply deque_append_fifo; [reflexivity|exact Hlen].
Qed.

Lemma record_call_default clock dq :
  record_call None clock dq = deque_append RATE_LIMIT_MAX clock dq.
Proof. reflexivity. Qed.

(** C2: at the time stamp 0 [record_call] appends the reading of the clock,
    not the time stamp it was given: it behaves as if no time stamp had been
    given at all. *)
Theorem record_call_zero_appends_clock :
  record_call (Some 0) 1700000000 rate_ts_init = [1700000000]
  /\ record_call (Some 0) 1700000000 rate_ts_init <> rate_ts_init ++ [0]
  /\ (forall clock rate_ts,
        record_call (Some 0) clock rate_ts = record_call None clock rate_ts).
Proof. split; [reflexivity|]. split; [discriminate|reflexivity]. Qed.

End RateWindow.

(** ** The lookup client *)

Section LookupClient.
Import Py Client.

Lemma append_cons c s t : String c s +:+ t = String c (s +:+ t).
Proof. reflexivity. Qed.

Lemma append_nil_l t : EmptyString +:+ t = t.
Proof. reflexivity. Qed.

Lemma error_description_nonempty e : error_description e <> EmptyString.
Proof.
  unfold error_description. destruct (exn_class e) as [|c cls].
  - rewrite append_nil_l, append_cons. discriminate.
  - rewrite append_cons. discriminate.
Qed.

(** An [Exception] raised anywhere in the [try] block is turned into the
    result with status 0. *)
Lemma complete_lookup_handled x e :
  read_response x = Raise e -> is_Exception e = true ->
  complete_lookup x = Return (0, error_body e).
Proof.
  intros Hx He. unfold complete_lookup. rewrite Hx.
  unfold is_Exception in He. destruct (exn_layer e); [reflexivity|reflexivity|discriminate].
Qed.

Lemma complete_lookup_returns x r :
  read_response x = Return r -> complete_lookup x = Return r.
Proof. intros Hx. unfold complete_lookup. now rewrite Hx. Qed.

(** The client raises nothing unless a bare [BaseException] comes up. *)
Lemma complete_lookup_total x :
  (forall e, read_response x = Raise e -> is_Exception e = true) ->
  exists r, complete_lookup x = Return r.
Proof.
  intros Hall. unfold complete_lookup.
  destruct (read_response x) as [r|e] eqn:E; [now exists r|].
  specialize (Hall e eq_refl). unfold is_Exception in Hall.
  destruct (exn_layer e); [eauto|eauto|discriminate].
Qed.

Lemma transport_exn_is_Exception lib f cls msg :
  is_Exception (transport_exn lib f cls msg) = true.
Proof. destruct lib, f; reflexivity. Qed.

End LookupClient.

(** ** The result projector *)

Section ResultProjector.
Import Py Projector Statements.

Lemma spec_first_result_cons uen status body results u :
  spec_first_result u ((uen, status, body) :: results) =
    if String.eqb uen u then Some (status, body) else spec_first_result u results.
Proof.
  unfold spec_first_result. cbn [List.find fst].
  destruct (String.eqb uen u); reflexivity.
Qed.

Lemma out_map_fold results : forall (m : gmap string (Z * value)) u,
  fold_left
    (fun (out_map : gmap string (Z * value)) (r : LookupResult) =>
       match r with
       | (uen, status, body) =>
           match out_map !! uen with
           | None => <[uen := (status, body)]> out_map
           | Some _ => out_map
           end
       end) results m !! u =
  match m !! u with
  | Some v => Some v
  | None => spec_first_result u results
  end.
Proof.
  induction results as [|[[uen status] body] results IH]; intros m u.
  - cbn. now destruct (m !! u).
  - cbn [fold_left]. rewrite IH, spec_first_result_cons.
    destruct (m !! uen) as [v|] eqn:Huen.
    + destruct (m !! u) as [w|] eqn:Hu; [reflexivity|].
      destruct (String.eqb_spec uen u) as [->|Hne]; [congruence|reflexivity].
    + destruct (String.eqb_spec uen u) as [->|Hne].
      * now rewrite lookup_insert_eq, Huen.
      * rewrite lookup_insert_ne by exact Hne. reflexivity.
Qed.

(** The dict built by the loop answers with the first result of the list. *)
Lemma build_out_map_lookup results u :
  build_out_map results !! u = spec_first_result u results.
Proof. unfold build_out_map. rewrite out_map_fold. now rewrite lookup_empty. Qed.

Lemma spec_first_result_None u results :
  ~ In u (List.map Dispatcher.uen_of results) -> spec_first_result u results = None.
Proof.
  induction results as [|[[uen status] body] results IH]; intros Hnin; [reflexivity|].
  rewrite spec_first_result_cons. cbn in Hnin.
  destruct (String.eqb_spec uen u) as [->|Hne]; [tauto|]. apply IH. tauto.
Qed.

(** Case analysis on the result that a hypothesis scrutinises. *)
Ltac case_result H :=
  match type of H with
  | match ?m with _ => _ end = _ => destruct m eqn:?
  end.

Lemma json_dumps_raises v : forall e,
  json_dumps v = Raise e -> exn_layer e = OtherException.
Proof.
  induction v as [| | | | |items IH|entries IH|r] using value_induction;
    intros e He; cbn [json_dumps] in He; try discriminate He.
  - match type of He with
    | match ?go items with _ => _ end = _ =>
        assert (Hgo : forall e', go items = Raise e' -> exn_layer e' = OtherException)
    end.
    { clear He. induction IH as [|x l Hx Hl IHl]; intros e' He'; [discriminate|].
      destruct (json_dumps x) eqn:Ex; [|injection He' as <-; now apply Hx].
      case_result He'; [discriminate|]. injection He' as <-. now apply IHl. }
    case_result He; [discriminate|]. injection He as <-. now apply Hgo.
  - match type of He with
    | match ?go entries with _ => _ end = _ =>
        assert (Hgo : forall e', go entries = Raise e' -> exn_layer e' = OtherException)
    end.
    { clear He. induction IH as [|[k x] l Hx Hl IHl]; intros e' He'; [discriminate|].
      cbn [snd] in Hx.
      destruct (json_dumps x) eqn:Ex; [|injection He' as <-; now apply Hx].
      case_result He'; [discriminate|]. injection He' as <-. now apply IHl. }
    case_result He; [discriminate|]. injection He as <-. now apply Hgo.
  - injection He as <-. reflexivity.
Qed.

(** The serialised body: JSON when [json.dumps] succeeds, [str] otherwise. *)
Lemma json_str_fallback body :
  except_Exception (json_dumps body) (fun _ => Return (py_str body)) =
  Return match json_dumps body with
         | Return s => s
         | Raise _ => py_str body
         end.
Proof.
  unfold except_Exception. destruct (json_dumps body) as [s|e] eqn:E; [reflexivity|].
  unfold is_Exception. now rewrite (json_dumps_raises _ _ E).
Qed.

(** On a derivable body the derivation returns the fields of the
    specification. *)
Lemma derive_derivable body :
  derivable body = true -> derive body = Return (spec_derive body).
Proof.
  intros Hd. unfold derive, spec_derive.
  destruct body; cbn [mbind py_bind bind];
    try (rewrite json_str_fallback; reflexivity).
  unfold derivable in Hd. unfold dict_get at 2.
  destruct (dict_lookup "data" entries) as [[]|]; try discriminate Hd;
    cbn [py_get mbind py_bind bind]; rewrite json_str_fallback; reflexivity.
Qed.

(** ... and on any other body it raises [AttributeError]. *)
Lemma derive_not_derivable body :
  derivable body = false -> exists v, derive body = Raise (AttributeError v "get").
Proof.
  intros Hd. unfold derive. destruct body; try discriminate Hd.
  unfold derivable in Hd. unfold dict_get at 2.
  destruct (dict_lookup "data" entries) as [v|]; [|discriminate Hd].
  exists v. destruct v; try discriminate Hd; reflexivity.
Qed.

Lemma extract_row_first_result results u :
  extract_row (build_out_map results) u =
  match spec_first_result u results with
  | None => Return all_empty
  | Some (status, body) => derive body
  end.
Proof.
  unfold extract_row. rewrite build_out_map_lookup.
  destruct (spec_first_result u results) as [[status body]|]; reflexivity.
Qed.

End ResultProjector.

Section Tables.
Import Py Projector Statements.

Lemma map_result_Return {A B} (f : A -> py_result B) l data :
  map_result f l = Return data ->
  length data = length l
  /\ forall i x, l !! i = Some x -> exists d, f x = Return d /\ data !! i = Some d.
Proof.
  revert data. induction l as [|a l IH]; intros data H.
  - injection H as <-. split; [reflexivity|]. intros i x Hi. destruct i; discriminate Hi.
  - cbn [map_result mbind py_bind bind] in H.
    destruct (f a) as [b|e] eqn:Ea; [|discriminate H].
    destruct (map_result f l) as [bs|e] eqn:El; [|discriminate H].
    injection H as <-. destruct (IH bs eq_refl) as [Hlen Hrows].
    split; [cbn; now rewrite Hlen|].
    intros [|i] x Hi; cbn in Hi.
    + injection Hi as <-. now exists b.
    + exact (Hrows i x Hi).
Qed.

Lemma map_result_total {A B} (f : A -> py_result B) (g : A -> B) l :
  (forall x, In x l -> f x = Return (g x)) ->
  map_result f l = Return (List.map g l).
Proof.
  induction l as [|a l IH]; intros H; [reflexivity|].
  cbn [map_result mbind py_bind bind List.map].
  rewrite (H a (or_introl eq_refl)), IH; [reflexivity|].
  intros x Hx. apply H. now right.
Qed.

Lemma map_result_ext {A B} (f g : A -> py_result B) l :
  (forall x, In x l -> f x = g x) -> map_result f l = map_result g l.
Proof.
  induction l as [|a l IH]; intros H; [reflexivity|].
  cbn [map_result]. rewrite (H a (or_introl eq_refl)), IH; [reflexivity|].
  intros x Hx. apply H. now right.
Qed.

Lemma select_set_same label cells df :
  select_column label (set_column label cells df) = Return cells.
Proof.
  induction df as [|[l old] df IH]; cbn [set_column select_column].
  - now rewrite String.eqb_refl.
  - destruct (String.eqb l label) eqn:E; cbn [select_column].
    + now rewrite String.eqb_refl.
    + now rewrite E.
Qed.

Lemma select_set_other label label' cells df :
  label <> label' ->
  select_column label (set_column label' cells df) = select_column label df.
Proof.
  intros Hne. induction df as [|[l old] df IH]; cbn [set_column select_column].
  - destruct (String.eqb_spec label' label) as [->|_]; [contradiction|reflexivity].
  - destruct (String.eqb_spec l label') as [->|Hl]; cbn [select_column].
    + destruct (String.eqb_spec label' label) as [->|_]; [contradiction|reflexivity].
    + now rewrite IH.
Qed.

Lemma set_column_same label cells df :
  select_column label df = Return cells -> set_column label cells df = df.
Proof.
  induction df as [|[l old] df IH]; cbn [set_column select_column]; [discriminate|].
  destruct (String.eqb_spec l label) as [->|Hl].
  - intros H. injection H as <-. reflexivity.
  - intros H. now rewrite IH.
Qed.

Lemma set_column_absent label cells df :
  ~ In label (labels df) -> set_column label cells df = df ++ [(label, cells)].
Proof.
  induction df as [|[l old] df IH]; intros Hnin; [reflexivity|].
  cbn [set_column app]. cbn in Hnin.
  destruct (String.eqb_spec l label) as [->|Hl]; [tauto|].
  rewrite IH; [reflexivity|tauto].
Qed.

(** A column with another label keeps its place and its cells. *)
Lemma set_column_frame label cells df i l old :
  df !! i = Some (l, old) -> l <> label ->
  set_column label cells df !! i = Some (l, old).
Proof.
  revert i. induction df as [|[l0 old0] df IH]; intros i Hi Hne; [destruct i; discriminate|].
  cbn [set_column]. destruct i as [|i]; cbn in Hi.
  - injection Hi as -> ->.
    destruct (String.eqb_spec l label) as [->|_]; [contradiction|reflexivity].
  - destruct (String.eqb_spec l0 label) as [->|_]; cbn; [exact Hi|now apply IH].
Qed.

Lemma labels_app df df' : labels (df ++ df') = labels df ++ labels df'.
Proof. unfold labels. apply List.map_app. Qed.

Lemma derived_labels_distinct :
  RESPONSE_STATUS <> RESPONSE_REGISTRATION_ID
  /\ RESPONSE_STATUS <> JSON_RESPONSE
  /\ RESPONSE_REGISTRATION_ID <> JSON_RESPONSE.
Proof. repeat split; discriminate. Qed.

(** The three assignments, read back. *)
Lemma assign_derived_columns rows df out :
  assign_derived rows df = Return out ->
  rows <> []
  /\ out = set_column JSON_RESPONSE (List.map snd rows)
             (set_column RESPONSE_REGISTRATION_ID (List.map (fun r => snd (fst r)) rows)
                (set_column RESPONSE_STATUS (List.map (fun r => fst (fst r)) rows) df))
  /\ select_column RESPONSE_STATUS out = Return (List.map (fun r => fst (fst r)) rows)
  /\ select_column RESPONSE_REGISTRATION_ID out =
       Return (List.map (fun r => snd (fst r)) rows)
  /\ select_column JSON_RESPONSE out = Return (List.map snd rows).
Proof.
  destruct derived_labels_distinct as (H12 & H13 & H23).
  intros H. destruct rows as [|r rows]; [discriminate H|].
  injection H as <-. split; [discriminate|]. split; [reflexivity|].
  repeat split.
  - rewrite !select_set_other by congruence. apply select_set_same.
  - rewrite select_set_other by congruence. apply select_set_same.
  - apply select_set_same.
Qed.

Lemma process_batch_results_Return df col results out :
  process_batch_results df col results = Return out ->
  exists series rows,
    select_column col df = Return series
    /\ map_result (fun cell => extract_row (build_out_map results) (row_key cell)) series
       = Return rows
    /\ assign_derived rows df = Return out.
Proof.
  unfold process_batch_results, mbind, py_bind.
  destruct (select_column col df) as [series|e]; cbn [bind]; [|discriminate].
  destruct (map_result (fun cell => extract_row (build_out_map results) (row_key cell))
              series) as [rows|e] eqn:E; cbn [bind]; [|discriminate].
  intros H. now exists series, rows.
Qed.

Lemma derived_at_assigned rows df out i :
  assign_derived rows df = Return out -> derived_at i out = rows !! i.
Proof.
  intros H. destruct (assign_derived_columns _ _ _ H) as (_ & _ & Ha & Hb & Hc).
  unfold derived_at, cell_at. rewrite Ha, Hb, Hc, !list_lookup_fmap.
  destruct (rows !! i) as [[[a b] c]|]; reflexivity.
Qed.

(** *** Well-formed tables stay well formed *)

Lemma labels_set_column_present label cells df :
  In label (labels df) -> labels (set_column label cells df) = labels df.
Proof.
  induction df as [|[l old] df IH]; intros Hin; [destruct Hin|].
  cbn [set_column]. destruct (String.eqb_spec l label) as [->|Hl]; [reflexivity|].
  cbn [labels List.map fst] in *. f_equal. apply IH.
  destruct Hin as [Hin|Hin]; [contradiction|exact Hin].
Qed.

Lemma labels_set_column_absent label cells df :
  ~ In label (labels df) -> labels (set_column label cells df) = labels df ++ [label].
Proof. intros H. rewrite set_column_absent by exact H. apply labels_app. Qed.

Lemma NoDup_labels_set_column label cells df :
  NoDup (labels df) -> NoDup (labels (set_column label cells df)).
Proof.
  intros Hnd. destruct (in_dec String.string_dec label (labels df)) as [Hin|Hnin].
  - now rewrite labels_set_column_present.
  - rewrite labels_set_column_absent by exact Hnin.
    apply NoDup_app. split; [exact Hnd|]. split.
    + intros x Hx Hx'. apply list_elem_of_In in Hx, Hx'.
      destruct Hx' as [<-|[]]. contradiction.
    + apply NoDup_singleton.
Qed.

Lemma well_formed_rows_set_column n label cells df :
  well_formed_rows n df = true -> length cells = n ->
  well_formed_rows n (set_column label cells df) = true.
Proof.
  intros Hwf Hlen. induction df as [|[l old] df IH]; cbn [set_column well_formed_rows].
  - now rewrite Hlen, Nat.eqb_refl.
  - cbn [well_formed_rows] in Hwf. apply andb_true_iff in Hwf. destruct Hwf as [Hold Hwf].
    destruct (String.eqb l label); cbn [well_formed_rows].
    + now rewrite Hlen, Nat.eqb_refl.
    + now rewrite Hold, IH.
Qed.

Lemma well_formed_rows_select n label df series :
  well_formed_rows n df = true -> select_column label df = Return series ->
  length series = n.
Proof.
  induction df as [|[l cells] df IH]; cbn [well_formed_rows select_column]; [discriminate|].
  intros Hwf. apply andb_true_iff in Hwf. destruct Hwf as [Hlen Hwf].
  destruct (String.eqb l label).
  - intros H. injection H as <-. now apply Nat.eqb_eq.
  - now apply IH.
Qed.

Lemma row_count_set_column label cells df :
  df <> [] -> length cells = row_count df ->
  row_count (set_column label cells df) = row_count df.
Proof.
  destruct df as [|[l old] df]; [contradiction|]. intros _ Hlen.
  cbn [set_column]. destruct (String.eqb l label); [exact Hlen|reflexivity].
Qed.

Lemma set_column_nonempty label cells df : set_column label cells df <> [].
Proof.
  destruct df as [|[l old] df]; cbn [set_column];
    [|destruct (String.eqb l label)]; discriminate.
Qed.

(** Assigning a column of the right length to a table gives a table with
    the same number of rows. *)
Lemma set_column_well_formed label cells df :
  df <> [] -> well_formed df = true -> length cells = row_count df ->
  well_formed (set_column label cells df) = true
  /\ row_count (set_column label cells df) = row_count df.
Proof.
  intros Hdf Hwf Hlen. unfold well_formed in *. apply andb_true_iff in Hwf.
  destruct Hwf as [Hnd Hrows]. apply bool_decide_eq_true in Hnd.
  pose proof (row_count_set_column label cells df Hdf Hlen) as Hrc.
  split; [|exact Hrc]. apply andb_true_iff. split.
  - apply bool_decide_eq_true. now apply NoDup_labels_set_column.
  - rewrite Hrc. now apply well_formed_rows_set_column.
Qed.

(** The output of the projection is a table with the rows of the input. *)
Lemma projection_well_formed df col results out :
  well_formed df = true ->
  process_batch_results df col results = Return out ->
  well_formed out = true /\ row_count out = row_count df.
Proof.
  intros Hwf Hout.
  destruct (process_batch_results_Return _ _ _ _ Hout)
    as (series & rows & Hsel & Hmap & Hassign).
  destruct (map_result_Return _ _ _ Hmap) as [Hlen _].
  assert (Hseries : length series = row_count df).
  { unfold well_formed in Hwf. apply andb_true_iff in Hwf.
    exact (well_formed_rows_select _ _ _ _ (proj2 Hwf) Hsel). }
  destruct (assign_derived_columns _ _ _ Hassign) as (_ & -> & _).
  assert (Hdf : df <> []) by (destruct df; [discriminate Hsel|discriminate]).
  assert (Hcount : forall A (f : value * value * value -> A),
            length (List.map f rows) = row_count df)
    by (intros A f; rewrite length_map; congruence).
  destruct (set_column_well_formed RESPONSE_STATUS
              (List.map (fun r => fst (fst r)) rows) df Hdf Hwf (Hcount _ _))
    as [Hwf1 Hrc1].
  destruct (set_column_well_formed RESPONSE_REGISTRATION_ID
              (List.map (fun r => snd (fst r)) rows) _
              (set_column_nonempty _ _ _) Hwf1)
    as [Hwf2 Hrc2]; [rewrite Hrc1; apply Hcount|].
  destruct (set_column_well_formed JSON_RESPONSE (List.map snd rows) _
              (set_column_nonempty _ _ _) Hwf2)
    as [Hwf3 Hrc3]; [rewrite Hrc2, Hrc1; apply Hcount|].
  split; [exact Hwf3|congruence].
Qed.

End Tables.

Section Projection.
Import Py Projector Statements.

Lemma is_derived_label_false label :
  is_derived_label label = false ->
  label <> RESPONSE_STATUS /\ label <> RESPONSE_REGISTRATION_ID /\ label <> JSON_RESPONSE.
Proof.
  unfold is_derived_label, derived_labels. cbn [existsb]. intros H.
  repeat (apply orb_false_iff in H; destruct H as [? H]).
  repeat split; intros ->; discriminate.
Qed.

Lemma not_derived_label label :
  ~ In label derived_labels ->
  label <> RESPONSE_STATUS /\ label <> RESPONSE_REGISTRATION_ID /\ label <> JSON_RESPONSE.
Proof. unfold derived_labels. cbn [In]. intros H. repeat split; intros ->; tauto. Qed.

Lemma collides_false df :
  collides df = false ->
  ~ In RESPONSE_STATUS (labels df)
  /\ ~ In RESPONSE_REGISTRATION_ID (labels df)
  /\ ~ In JSON_RESPONSE (labels df).
Proof.
  unfold collides, derived_labels. cbn [existsb]. intros H.
  repeat (apply orb_false_iff in H; destruct H as [? H]).
  assert (Hno : forall l, existsb (String.eqb l) (labels df) = false -> ~ In l (labels df)).
  { intros l Hl Hin. apply not_true_iff_false in Hl. apply Hl.
    apply existsb_exists. exists l. split; [exact Hin|apply String.eqb_refl]. }
  repeat split; now apply Hno.
Qed.

(** Each row of the output carries what [extract_row] returns for the key
    of the row. *)
Lemma projected_rows df col results out series :
  select_column col df = Return series ->
  process_batch_results df col results = Return out ->
  forall i cell, series !! i = Some cell ->
    exists d, derived_at i out = Some d
      /\ extract_row (build_out_map results) (row_key cell) = Return d.
Proof.
  intros Hsel Hout.
  destruct (process_batch_results_Return _ _ _ _ Hout)
    as (series' & rows & Hsel' & Hrows & Hassign).
  rewrite Hsel in Hsel'. injection Hsel' as <-.
  destruct (map_result_Return _ _ _ Hrows) as [_ Hrow].
  intros i cell Hi. destruct (Hrow i cell Hi) as (d & Hd & Hdi).
  exists d. split; [|exact Hd]. now rewrite (derived_at_assigned _ _ _ i Hassign).
Qed.

Lemma assign_derived_nonempty rows df :
  rows <> [] ->
  assign_derived rows df =
    Return (set_column JSON_RESPONSE (List.map snd rows)
             (set_column RESPONSE_REGISTRATION_ID (List.map (fun r => snd (fst r)) rows)
                (set_column RESPONSE_STATUS (List.map (fun r => fst (fst r)) rows) df))).
Proof. destruct rows; [contradiction|reflexivity]. Qed.

Lemma rows_of_derivable results series :
  forallb (fun r => derivable (snd r)) results = true ->
  map_result (fun cell => extract_row (build_out_map results) (row_key cell)) series
  = Return (List.map (spec_row results) series).
Proof.
  intros Hder. apply map_result_total. intros cell _. unfold spec_row.
  rewrite extract_row_first_result.
  destruct (spec_first_result (row_key cell) results) as [[status body]|] eqn:E;
    [|reflexivity].
  apply derive_derivable. rewrite forallb_forall in Hder.
  unfold spec_first_result in E.
  destruct (List.find _ results) as [[[u s'] b']|] eqn:Efind; [|discriminate E].
  injection E as -> ->. apply find_some in Efind. exact (Hder _ (proj1 Efind)).
Qed.

Lemma process_batch_results_derivable df col results series :
  select_column col df = Return series ->
  (0 < length series)%nat ->
  forallb (fun r => derivable (snd r)) results = true ->
  process_batch_results df col results =
    Return (set_column JSON_RESPONSE (List.map snd (List.map (spec_row results) series))
             (set_column RESPONSE_REGISTRATION_ID
                (List.map (fun r => snd (fst r)) (List.map (spec_row results) series))
                (set_column RESPONSE_STATUS
                   (List.map (fun r => fst (fst r)) (List.map (spec_row results) series))
                   df))).
Proof.
  intros Hsel Hrows Hder.
  unfold process_batch_results, mbind, py_bind. rewrite Hsel. cbn [bind].
  rewrite (rows_of_derivable _ _ Hder). cbn [bind].
  apply assign_derived_nonempty. destruct series; [cbn in Hrows; lia|discriminate].
Qed.

Lemma not_in_labels_snoc l l' (cells : list value) df :
  ~ In l (labels df) -> l' <> l -> ~ In l (labels (df ++ [(l', cells)])).
Proof.
  intros Hnin Hne Hin. rewrite labels_app in Hin. apply in_app_or in Hin.
  destruct Hin as [Hin|[Hin|[]]]; [exact (Hnin Hin)|exact (Hne Hin)].
Qed.

Lemma set_three_absent a b c df :
  collides df = false ->
  set_column JSON_RESPONSE c
    (set_column RESPONSE_REGISTRATION_ID b (set_column RESPONSE_STATUS a df))
  = df ++ [ (RESPONSE_STATUS, a); (RESPONSE_REGISTRATION_ID, b); (JSON_RESPONSE, c) ].
Proof.
  intros H. destruct (collides_false _ H) as (H1 & H2 & H3).
  destruct derived_labels_distinct as (H12 & H13 & H23).
  rewrite (set_column_absent RESPONSE_STATUS) by exact H1.
  rewrite (set_column_absent RESPONSE_REGISTRATION_ID)
    by (apply not_in_labels_snoc; assumption).
  rewrite (set_column_absent JSON_RESPONSE)
    by (repeat apply not_in_labels_snoc; assumption).
  now rewrite <- !app_assoc.
Qed.

(** C7 (as amended): on a table with at least one row and a result list
    whose bodies are derivable, the projection returns a table with the same
    number of rows; every column whose label is not one of the three derived
    labels keeps its place and its cells; and when no column of the input
    bears a derived label the output is the input followed by the three
    derived columns in the fixed order. *)
Theorem projection_frame df col results series :
  well_formed df = true ->
  select_column col df = Return series ->
  (0 < length series)%nat ->
  forallb (fun r => derivable (snd r)) results = true ->
  exists a b c out,
    process_batch_results df col results = Return out
    /\ length a = length series /\ length b = length series /\ length c = length series
    /\ out = set_column JSON_RESPONSE c
               (set_column RESPONSE_REGISTRATION_ID b (set_column RESPONSE_STATUS a df))
    /\ (forall i l cells,
          df !! i = Some (l, cells) -> is_derived_label l = false ->
          out !! i = Some (l, cells))
    /\ well_formed out = true
    /\ row_count out = row_count df
    /\ (collides df = false ->
          out = df ++ [ (RESPONSE_STATUS, a); (RESPONSE_REGISTRATION_ID, b);
                        (JSON_RESPONSE, c) ]
          /\ appends_three_columns df col results).
Proof.
  intros Hwf Hsel Hrows Hder.
  pose proof (process_batch_results_derivable _ _ _ _ Hsel Hrows Hder) as Hout.
  destruct (projection_well_formed _ _ _ _ Hwf Hout) as [Hwf' Hcount].
  exists (List.map (fun r => fst (fst r)) (List.map (spec_row results) series)),
         (List.map (fun r => snd (fst r)) (List.map (spec_row results) series)),
         (List.map snd (List.map (spec_row results) series)).
  eexists. split; [exact Hout|].
  rewrite !length_map.
  split; [reflexivity|]. split; [reflexivity|]. split; [reflexivity|].
  split; [reflexivity|]. split.
  - intros i l cells Hi Hl. destruct (is_derived_label_false _ Hl) as (H1 & H2 & H3).
    apply set_column_frame; [|exact H3].
    apply set_column_frame; [|exact H2].
    apply set_column_frame; [exact Hi|exact H1].
  - split; [exact Hwf'|]. split; [exact Hcount|].
    intros Hfree. split; [now apply set_three_absent|].
    unfold appends_three_columns. do 3 eexists. rewrite Hout.
    now rewrite set_three_absent.
Qed.

(** C8 (as amended): when the identifier column is not itself one of the
    three derived columns, the output of the projection is again a table,
    and projecting it again with the same column and the same results gives
    the same table. *)
Theorem projection_idempotent_off_derived df col results :
  well_formed df = true ->
  is_derived_label col = false ->
  projection_idempotent df col results
  /\ (forall out,
        process_batch_results df col results = Return out -> well_formed out = true).
Proof.
  intros Hwf Hcol. split;
    [|intros out Hout; exact (proj1 (projection_well_formed _ _ _ _ Hwf Hout))].
  intros out Hout.
  destruct (is_derived_label_false _ Hcol) as (Hc1 & Hc2 & Hc3).
  destruct (process_batch_results_Return _ _ _ _ Hout) as (series & rows & Hsel & Hrows & Hassign).
  destruct (assign_derived_columns _ _ _ Hassign) as (Hne & Hshape & Ha & Hb & Hc).
  assert (Hsel' : select_column col out = Return series).
  { rewrite Hshape, !select_set_other by assumption. exact Hsel. }
  unfold process_batch_results, mbind, py_bind. rewrite Hsel'. cbn [bind].
  rewrite Hrows. cbn [bind]. unfold assign_derived.
  destruct rows as [|r rows']; [contradiction|].
  rewrite (set_column_same RESPONSE_STATUS) by exact Ha.
  rewrite (set_column_same RESPONSE_REGISTRATION_ID) by exact Hb.
  rewrite (set_column_same JSON_RESPONSE) by exact Hc.
  reflexivity.
Qed.

End Projection.

(** ** Matching rows to identifiers *)

Section Matching.
Import Py Projector Statements.

Lemma lstrip_space_prefix lead s :
  all_space lead = true -> lstrip (lead +:+ s) = lstrip s.
Proof.
  induction lead as [|c lead IH]; intros H; [reflexivity|].
  cbn [all_space] in H. apply andb_true_iff in H. destruct H as [Hc H].
  rewrite append_cons. cbn [lstrip]. rewrite Hc. now apply IH.
Qed.

Lemma rstrip_all_space s : all_space s = true -> rstrip s = EmptyString.
Proof.
  induction s as [|c s IH]; intros H; [reflexivity|].
  cbn [all_space] in H. apply andb_true_iff in H. destruct H as [Hc H].
  cbn [rstrip]. now rewrite (IH H), Hc.
Qed.

Lemma rstrip_space_suffix s trail :
  all_space trail = true -> rstrip (s +:+ trail) = rstrip s.
Proof.
  intros H. induction s as [|c s IH].
  - rewrite append_nil_l. now apply rstrip_all_space.
  - rewrite append_cons. cbn [rstrip]. now rewrite IH.
Qed.

Lemma rstrip_prefix_kept lead s :
  rstrip s <> EmptyString -> rstrip (lead +:+ s) = lead +:+ rstrip s.
Proof.
  intros Hne. induction lead as [|c lead IH]; [reflexivity|].
  rewrite !append_cons. cbn [rstrip]. rewrite IH.
  destruct (lead +:+ rstrip s) eqn:E; [|reflexivity].
  destruct lead; [rewrite append_nil_l in E; contradiction|discriminate E].
Qed.

Lemma rstrip_space_prefix_empty lead s :
  all_space lead = true -> rstrip s = EmptyString -> rstrip (lead +:+ s) = EmptyString.
Proof.
  intros Hl Hs. induction lead as [|c lead IH]; [exact Hs|].
  cbn [all_space] in Hl. apply andb_true_iff in Hl. destruct Hl as [Hc Hl].
  rewrite append_cons. cbn [rstrip]. now rewrite (IH Hl), Hc.
Qed.

Lemma rstrip_idempotent s : rstrip (rstrip s) = rstrip s.
Proof.
  induction s as [|c s IH]; [reflexivity|].
  cbn [rstrip]. destruct (rstrip s) as [|c' r] eqn:E.
  - destruct (isspace c) eqn:Hc; [reflexivity|]. cbn [rstrip]. now rewrite Hc.
  - cbn [rstrip] in IH |- *. now rewrite IH.
Qed.

Lemma lstrip_idempotent s : lstrip (lstrip s) = lstrip s.
Proof.
  induction s as [|c s IH]; [reflexivity|].
  cbn [lstrip]. destruct (isspace c) eqn:Hc; [exact IH|].
  cbn [lstrip]. now rewrite Hc.
Qed.

Lemma lstrip_rstrip_commute s : rstrip (lstrip s) = lstrip (rstrip s).
Proof.
  induction s as [|c s IH]; [reflexivity|].
  cbn [lstrip rstrip]. destruct (isspace c) eqn:Hc.
  - rewrite IH. destruct (rstrip s) as [|c' r]; [reflexivity|].
    cbn [lstrip]. now rewrite Hc.
  - cbn [rstrip]. destruct (rstrip s) as [|c' r]; cbn [lstrip]; now rewrite Hc.
Qed.

Lemma strip_idempotent s : strip (strip s) = strip s.
Proof.
  unfold strip. rewrite (lstrip_rstrip_commute (rstrip s)).
  now rewrite rstrip_idempotent, lstrip_idempotent.
Qed.

(** White space around a stripped identifier does not change the key. *)
Lemma strip_padded lead u trail :
  all_space lead = true -> all_space trail = true -> strip u = u ->
  strip (lead +:+ u +:+ trail) = u.
Proof.
  intros Hl Ht Hu. unfold strip in *.
  destruct (rstrip u) as [|c r] eqn:Er.
  - cbn [lstrip] in Hu. subst u.
    rewrite rstrip_space_prefix_empty; [reflexivity|exact Hl|].
    rewrite append_nil_l. now apply rstrip_all_space.
  - rewrite rstrip_prefix_kept.
    + rewrite rstrip_space_suffix by exact Ht. rewrite Er.
      now rewrite lstrip_space_prefix.
    + rewrite rstrip_space_suffix by exact Ht. rewrite Er. discriminate.
Qed.

Lemma rstrip_ends s : ends_with_space (rstrip s) = false.
Proof.
  induction s as [|c s IH]; [reflexivity|]. cbn [rstrip].
  destruct (rstrip s) as [|c1 r].
  - destruct (isspace c) eqn:E; [reflexivity|]. cbn. exact E.
  - exact IH.
Qed.

Lemma rstrip_fixed s : ends_with_space s = false -> rstrip s = s.
Proof.
  induction s as [|c s IH]; [reflexivity|]. cbn [ends_with_space rstrip].
  destruct s as [|c1 s1].
  - intros ->. reflexivity.
  - intros H. now rewrite (IH H).
Qed.

Lemma lstrip_starts s : starts_with_space (lstrip s) = false.
Proof.
  induction s as [|c s IH]; [reflexivity|]. cbn [lstrip].
  destruct (isspace c) eqn:E; [exact IH|]. cbn. exact E.
Qed.

Lemma lstrip_fixed s : starts_with_space s = false -> lstrip s = s.
Proof. destruct s as [|c s]; [reflexivity|]. cbn. now intros ->. Qed.

Lemma lstrip_ends s : ends_with_space s = false -> ends_with_space (lstrip s) = false.
Proof.
  induction s as [|c s IH]; [reflexivity|]. cbn [lstrip ends_with_space].
  destruct (isspace c) eqn:E.
  - destruct s as [|c1 s1]; [discriminate|exact IH].
  - intros H. cbn [ends_with_space]. rewrite E. exact H.
Qed.

Lemma strip_trimmed s : trimmed (strip s) = true.
Proof.
  unfold trimmed, strip. rewrite lstrip_starts, lstrip_ends by apply rstrip_ends.
  reflexivity.
Qed.

Lemma trimmed_strip u : trimmed u = true -> strip u = u.
Proof.
  unfold trimmed, strip. intros H. apply andb_true_iff in H. destruct H as [Hs He].
  apply negb_true_iff in Hs, He. now rewrite (rstrip_fixed _ He), (lstrip_fixed _ Hs).
Qed.

Lemma append_assoc_str s t u : (s +:+ t) +:+ u = s +:+ (t +:+ u).
Proof. induction s as [|c s IH]; [reflexivity|]. rewrite !append_cons. now rewrite IH. Qed.

Lemma append_nil_r_str s : s +:+ EmptyString = s.
Proof. induction s as [|c s IH]; [reflexivity|]. rewrite append_cons. now rewrite IH. Qed.

Lemma lstrip_split s : exists lead, s = lead +:+ lstrip s /\ all_space lead = true.
Proof.
  induction s as [|c s (lead & Hs & Hl)]; [now exists EmptyString|]. cbn [lstrip].
  destruct (isspace c) eqn:E.
  - exists (String c lead). rewrite append_cons, <- Hs. split; [reflexivity|].
    cbn [all_space]. now rewrite E, Hl.
  - now exists EmptyString.
Qed.

Lemma rstrip_split s : exists trail, s = rstrip s +:+ trail /\ all_space trail = true.
Proof.
  induction s as [|c s (trail & Hs & Ht)]; [now exists EmptyString|]. cbn [rstrip].
  destruct (rstrip s) as [|c1 r] eqn:Er.
  - rewrite append_nil_l in Hs. subst s. destruct (isspace c) eqn:E.
    + exists (String c trail). rewrite append_nil_l. split; [reflexivity|].
      cbn [all_space]. now rewrite E, Ht.
    + exists trail. now rewrite append_cons, append_nil_l.
  - exists trail. rewrite append_cons, <- Hs. now split.
Qed.

(** A text is its stripped form between two runs of white space. *)
Lemma strip_split s :
  exists lead trail,
    s = lead +:+ strip s +:+ trail
    /\ all_space lead = true /\ all_space trail = true.
Proof.
  destruct (rstrip_split s) as (trail & Hs & Ht).
  destruct (lstrip_split (rstrip s)) as (lead & Hr & Hl).
  exists lead, trail. split; [|now split]. unfold strip.
  rewrite <- append_assoc_str, <- Hr. exact Hs.
Qed.

(** The key of a row, read off the text of its cell. *)
Lemma row_key_padded cell lead u trail :
  py_str cell = lead +:+ u +:+ trail ->
  all_space lead = true -> all_space trail = true -> trimmed u = true ->
  row_key cell = u.
Proof.
  intros Hc Hl Ht Hu. unfold row_key. rewrite Hc.
  apply strip_padded; [exact Hl|exact Ht|]. now apply trimmed_strip.
Qed.

Lemma identifiers_spec df u :
  In u (identifiers df) <->
  u <> EmptyString /\ exists cell, In cell (first_column df) /\ u = strip (py_str cell).
Proof.
  unfold identifiers. rewrite filter_In, in_map_iff. split.
  - intros [(cell & Hk & Hin) Hne]. split; [intros ->; discriminate Hne|].
    exists cell. now split.
  - intros [Hne (cell & Hin & ->)]. split; [now exists cell|].
    destruct (strip (py_str cell)); [contradiction|reflexivity].
Qed.

Lemma firstn_incl {A} n (l : list A) x : In x (firstn n l) -> In x l.
Proof.
  revert l. induction n as [|n IH]; intros [|a l] H; cbn in H; try contradiction.
  destruct H as [->|H]; [now left|right; now apply IH].
Qed.

Lemma dispatched_identifiers df can_call u :
  In u (dispatched df can_call) -> In u (identifiers df).
Proof.
  unfold dispatched. destruct (_ >? can_call); [|trivial].
  apply firstn_incl.
Qed.

Lemma select_col_a df :
  df <> [] -> select_column (col_a_name df) df = Return (first_column df).
Proof.
  destruct df as [|[l cells] df]; [contradiction|]. intros _.
  cbn [col_a_name select_column first_column]. now rewrite String.eqb_refl.
Qed.

Lemma spec_first_result_at rs : forall j u s b,
  rs !! j = Some (u, s, b) ->
  (forall k r, (k < j)%nat -> rs !! k = Some r -> Dispatcher.uen_of r <> u) ->
  spec_first_result u rs = Some (s, b).
Proof.
  induction rs as [|[[u0 s0] b0] rs IH]; intros j u s b Hj Hfirst; [destruct j; discriminate|].
  rewrite spec_first_result_cons. destruct j as [|j].
  - cbn in Hj. injection Hj as -> -> ->. now rewrite String.eqb_refl.
  - destruct (String.eqb u0 u) eqn:E.
    + apply String.eqb_eq in E. exfalso.
      apply (Hfirst 0%nat (u0, s0, b0)); [lia|reflexivity|exact E].
    + apply (IH j); [exact Hj|]. intros k r Hk Hr. apply (Hfirst (S k) r); [lia|exact Hr].
Qed.

(** The fields of a row whose key is [u], read off the result list. *)
Lemma keyed_row df col results out series i cell u :
  select_column col df = Return series ->
  process_batch_results df col results = Return out ->
  series !! i = Some cell -> row_key cell = u ->
  (~ In u (List.map Dispatcher.uen_of results) -> derived_at i out = Some all_empty)
  /\ (forall k status body,
        results !! k = Some (u, status, body) ->
        (forall k' r, (k' < k)%nat -> results !! k' = Some r -> Dispatcher.uen_of r <> u) ->
        derivable body = true /\ derived_at i out = Some (spec_derive body)).
Proof.
  intros Hsel Hout Hi Hkey.
  destruct (projected_rows _ _ _ _ _ Hsel Hout i cell Hi) as (d & Hat & Hd).
  rewrite extract_row_first_result, Hkey in Hd. split.
  - intros Hnin. rewrite (spec_first_result_None _ _ Hnin) in Hd. now injection Hd as <-.
  - intros k status body Hk Hfirst.
    rewrite (spec_first_result_at _ _ _ _ _ Hk Hfirst) in Hd.
    destruct (derivable body) eqn:Hder.
    + split; [reflexivity|]. rewrite (derive_derivable _ Hder) in Hd. now injection Hd as <-.
    + destruct (derive_not_derivable _ Hder) as [v Hv]. congruence.
Qed.

(** C6: every row receives the fields derived from the first result recorded
    for its identifier, rows with the same identifier receive the same
    fields, and a row whose identifier has no result receives three empty
    fields.  The identifier of a row is the text of its cell without the
    white space around it: a row whose cell reads [lead ++ u ++ trail], with
    [u] free of boundary white space, receives the fields derived from the
    body of the first result in the list that bears [u] (whatever results
    for [u] follow), three empty fields when no result bears [u], and two
    such rows for the same [u] receive the same fields. *)
Theorem first_result_wins df col results out series :
  select_column col df = Return series ->
  process_batch_results df col results = Return out ->
  (forall i cell, series !! i = Some cell ->
     exists d, derived_at i out = Some d
       /\ match spec_first_result (row_key cell) results with
          | None => d = all_empty
          | Some (_, body) => derivable body = true /\ d = spec_derive body
          end)
  /\ (forall i j ci cj,
        series !! i = Some ci -> series !! j = Some cj ->
        row_key ci = row_key cj -> derived_at i out = derived_at j out)
  /\ (forall i cell lead u trail,
        series !! i = Some cell ->
        py_str cell = lead +:+ u +:+ trail ->
        all_space lead = true -> all_space trail = true -> trimmed u = true ->
        (~ In u (List.map Dispatcher.uen_of results) ->
         derived_at i out = Some all_empty)
        /\ (forall k status body,
              results !! k = Some (u, status, body) ->
              (forall k' r, (k' < k)%nat -> results !! k' = Some r ->
                 Dispatcher.uen_of r <> u) ->
              derivable body = true /\ derived_at i out = Some (spec_derive body)))
  /\ (forall i j ci cj u lead_i trail_i lead_j trail_j,
        series !! i = Some ci -> series !! j = Some cj ->
        py_str ci = lead_i +:+ u +:+ trail_i ->
        py_str cj = lead_j +:+ u +:+ trail_j ->
        all_space lead_i = true -> all_space trail_i = true ->
        all_space lead_j = true -> all_space trail_j = true ->
        trimmed u = true ->
        exists d, derived_at i out = Some d /\ derived_at j out = Some d).
Proof.
  intros Hsel Hout.
  pose proof (projected_rows _ _ _ _ _ Hsel Hout) as Hfirst.
  split; [|split; [|split]].
  - intros i cell Hi. destruct (Hfirst i cell Hi) as (d & Hat & Hd).
    exists d. split; [exact Hat|]. rewrite extract_row_first_result in Hd.
    destruct (spec_first_result (row_key cell) results) as [[status body]|].
    + destruct (derivable body) eqn:Hder.
      * split; [reflexivity|]. rewrite (derive_derivable _ Hder) in Hd. now injection Hd.
      * destruct (derive_not_derivable _ Hder) as [v Hv]. congruence.
    + now injection Hd.
  - intros i j ci cj Hi Hj Hkey.
    destruct (Hfirst i ci Hi) as (d & Hat & Hd).
    destruct (Hfirst j cj Hj) as (d' & Hat' & Hd').
    rewrite Hkey in Hd. congruence.
  - intros i cell lead u trail Hi Hcell Hl Ht Hu.
    exact (keyed_row _ _ _ _ _ _ _ _ Hsel Hout Hi (row_key_padded _ _ _ _ Hcell Hl Ht Hu)).
  - intros i j ci cj u li ti lj tj Hi Hj Hci Hcj Hli Hti Hlj Htj Hu.
    pose proof (row_key_padded _ _ _ _ Hci Hli Hti Hu) as Hki.
    pose proof (row_key_padded _ _ _ _ Hcj Hlj Htj Hu) as Hkj.
    destruct (Hfirst i ci Hi) as (d & Hat & Hd).
    destruct (Hfirst j cj Hj) as (d' & Hat' & Hd').
    rewrite Hki in Hd. rewrite Hkj in Hd'. exists d. split; [exact Hat|]. congruence.
Qed.

(** The identifiers of a table, read off the texts of its first column. *)
Lemma identifiers_padded df u :
  In u (identifiers df) <->
  u <> EmptyString /\ trimmed u = true
  /\ exists cell lead trail,
       In cell (first_column df) /\ py_str cell = lead +:+ u +:+ trail
       /\ all_space lead = true /\ all_space trail = true.
Proof.
  rewrite identifiers_spec. split.
  - intros (Hne & cell & Hin & ->). split; [exact Hne|]. split; [apply strip_trimmed|].
    destruct (strip_split (py_str cell)) as (lead & trail & Hs & Hl & Ht).
    now exists cell, lead, trail.
  - intros (Hne & Hu & cell & lead & trail & Hin & Hcell & Hl & Ht).
    split; [exact Hne|]. exists cell. split; [exact Hin|].
    symmetry. exact (row_key_padded _ _ _ _ Hcell Hl Ht Hu).
Qed.

(** C10: a dispatched identifier is the stripped text of a first-column
    cell; a row whose first-column cell is that identifier with white space
    around it has the identifier as its key and receives the fields derived
    for it; a row whose key is the identifier of no result receives three
    empty fields (the comparison is equality of strings).  In terms of the
    texts alone: a dispatched identifier is not empty, has no white space at
    its boundaries and is the text of a first-column cell less the white
    space around it, and every such text is dispatched while the calls that
    remain suffice; the row receives the fields derived from the body of the
    first result that bears the identifier; and a row whose text, less the
    white space around it, is borne by no result receives three empty
    fields. *)
Theorem boundary_whitespace_matching df can_call results i cell u lead trail :
  In u (dispatched df can_call) ->
  first_column df !! i = Some cell ->
  all_space lead = true -> all_space trail = true ->
  py_str cell = lead +:+ u +:+ trail ->
  (exists c0, In c0 (first_column df) /\ u = strip (py_str c0))
  /\ row_key cell = u
  /\ (forall out,
        process_batch_results df (col_a_name df) results = Return out ->
        exists d, derived_at i out = Some d
          /\ extract_row (build_out_map results) u = Return d)
  /\ (forall out j cell',
        process_batch_results df (col_a_name df) results = Return out ->
        first_column df !! j = Some cell' ->
        ~ In (row_key cell') (List.map Dispatcher.uen_of results) ->
        derived_at j out = Some all_empty)
  /\ u <> EmptyString
  /\ trimmed u = true
  /\ (exists c0 lead0 trail0,
        In c0 (first_column df) /\ py_str c0 = lead0 +:+ u +:+ trail0
        /\ all_space lead0 = true /\ all_space trail0 = true)
  /\ (Z.of_nat (length (identifiers df)) <= can_call ->
      forall c v lead' trail',
        In c (first_column df) -> py_str c = lead' +:+ v +:+ trail' ->
        all_space lead' = true -> all_space trail' = true ->
        trimmed v = true -> v <> EmptyString ->
        In v (dispatched df can_call))
  /\ (forall out,
        process_batch_results df (col_a_name df) results = Return out ->
        (~ In u (List.map Dispatcher.uen_of results) ->
         derived_at i out = Some all_empty)
        /\ (forall k status body,
              results !! k = Some (u, status, body) ->
              (forall k' r, (k' < k)%nat -> results !! k' = Some r ->
                 Dispatcher.uen_of r <> u) ->
              derivable body = true /\ derived_at i out = Some (spec_derive body)))
  /\ (forall out j cell' v lead' trail',
        process_batch_results df (col_a_name df) results = Return out ->
        first_column df !! j = Some cell' ->
        py_str cell' = lead' +:+ v +:+ trail' ->
        all_space lead' = true -> all_space trail' = true -> trimmed v = true ->
        ~ In v (List.map Dispatcher.uen_of results) ->
        derived_at j out = Some all_empty).
Proof.
  intros Hu Hi Hl Ht Hcell.
  assert (Hsel : select_column (col_a_name df) df = Return (first_column df)).
  { apply select_col_a. intros ->. destruct i; discriminate Hi. }
  apply dispatched_identifiers in Hu. pose proof Hu as Hpad.
  apply identifiers_padded in Hpad. destruct Hpad as (Hne' & Htrim & Hfrom).
  apply identifiers_spec in Hu.
  destruct Hu as [Hne (c0 & Hc0 & Hu)].
  assert (Hstripped : strip u = u) by (rewrite Hu; apply strip_idempotent).
  assert (Hkey : row_key cell = u).
  { unfold row_key. rewrite Hcell. now apply strip_padded. }
  split; [now exists c0|]. split; [exact Hkey|]. split; [|split].
  - intros out Hout.
    destruct (projected_rows _ _ _ _ _ Hsel Hout i cell Hi) as (d & Hat & Hd).
    exists d. now rewrite <- Hkey.
  - intros out j cell' Hout Hj Hnin.
    destruct (projected_rows _ _ _ _ _ Hsel Hout j cell' Hj) as (d & Hat & Hd).
    rewrite extract_row_first_result, (spec_first_result_None _ _ Hnin) in Hd.
    injection Hd as <-. exact Hat.
  - split; [exact Hne|]. split; [exact Htrim|]. split; [exact Hfrom|].
    split; [|split].
    + intros Hfit c v lead' trail' Hc Hcv Hl' Ht' Hv Hvne.
      unfold dispatched. destruct (Z.of_nat (length (identifiers df)) >? can_call) eqn:E.
      * rewrite Z.gtb_ltb in E. apply Z.ltb_lt in E. lia.
      * apply identifiers_padded. split; [exact Hvne|]. split; [exact Hv|].
        now exists c, lead', trail'.
    + intros out Hout. exact (keyed_row _ _ _ _ _ _ _ _ Hsel Hout Hi Hkey).
    + intros out j cell' v lead' trail' Hout Hj Hcv Hl' Ht' Hv Hnin.
      exact (proj1 (keyed_row _ _ _ _ _ _ _ _ Hsel Hout Hj
                      (row_key_padded _ _ _ _ Hcv Hl' Ht' Hv)) Hnin).
Qed.

End Matching.

(** ** The batch dispatcher *)

Section BatchDispatcher.
Import Py Client Projector Dispatcher.

Variable prog : program.
Variable self : IRASClient.

(** The two shapes of a step. *)
Lemma step_Enter i clock clock' st st' :
  step prog self (Enter i clock clock') st = Some st' ->
  exists uen,
    tasks st !! i = Some (uen, Waiting)
    /\ 0 < sem st
    /\ sem st' = sem st - 1
    /\ tasks st' = <[i := (uen, InFlight)]> (tasks st)
    /\ rate_ts st' = record prog clock clock' (rate_ts st)
    /\ sent st' = sent st ++ [post_request self uen]
    /\ results st' = results st
    /\ raised st' = raised st.
Proof.
  cbn [step]. destruct (tasks st !! i) as [[uen []]|] eqn:Hi; try discriminate.
  destruct (0 <? sem st) eqn:Hsem; [|discriminate].
  intros H. injection H as <-. exists uen. apply Z.ltb_lt in Hsem. cbn. tauto.
Qed.

Lemma step_Reply i x st st' :
  step prog self (Reply i x) st = Some st' ->
  exists uen t,
    tasks st !! i = Some (uen, InFlight)
    /\ sem st' = sem st + 1
    /\ tasks st' = <[i := (uen, t)]> (tasks st)
    /\ rate_ts st' = rate_ts st
    /\ sent st' = sent st
    /\ ((exists status body,
           complete_lookup x = Return (status, body)
           /\ t = Finished (status, body)
           /\ raised st' = raised st
           /\ results st' = match prog with
                            | MainStreamlit => results st ++ [(uen, status, body)]
                            | BatchScriptAsync _ => results st
                            end)
        \/ (exists e,
              complete_lookup x = Raise e
              /\ t = Crashed e
              /\ raised st' <> None
              /\ results st' = results st)).
Proof.
  cbn [step]. destruct (tasks st !! i) as [[uen []]|] eqn:Hi; try discriminate.
  destruct (complete_lookup x) as [[status body]|e] eqn:Hx; intros H; injection H as <-.
  - exists uen, (Finished (status, body)). cbn. repeat split. left.
    exists status, body. tauto.
  - exists uen, (Crashed e). cbn. repeat split. right. exists e.
    repeat split. now destruct (raised st).
Qed.

(** Replacing the coroutine at a position. *)
Lemma update_at {A} (l : list A) i x y :
  l !! i = Some x ->
  exists l1 l2, l = l1 ++ x :: l2 /\ <[i := y]> l = l1 ++ y :: l2.
Proof.
  intros Hi. exists (take i l), (drop (S i) l). split.
  - symmetry. now apply take_drop_middle.
  - apply insert_take_drop. exact (lookup_lt_Some _ _ _ Hi).
Qed.

Lemma in_flight_count l1 (t : string * coroutine) l2 :
  length (List.filter is_in_flight (l1 ++ t :: l2)) =
  (length (List.filter is_in_flight l1) + (if is_in_flight t then 1 else 0)
   + length (List.filter is_in_flight l2))%nat.
Proof.
  rewrite List.filter_app, length_app. cbn [List.filter].
  destruct (is_in_flight t); cbn [length]; lia.
Qed.

Lemma entered_count l1 (t : string * coroutine) l2 :
  length (List.filter (fun t => negb (is_waiting t)) (l1 ++ t :: l2)) =
  (length (List.filter (fun t => negb (is_waiting t)) l1)
   + (if is_waiting t then 0 else 1)
   + length (List.filter (fun t => negb (is_waiting t)) l2))%nat.
Proof.
  rewrite List.filter_app, length_app. cbn [List.filter].
  destruct (is_waiting t); cbn [negb length]; lia.
Qed.

Lemma remaining_steps_count l1 (t : string * coroutine) l2 :
  remaining_steps (l1 ++ t :: l2) =
  (remaining_steps l1 + steps_left t + remaining_steps l2)%nat.
Proof.
  unfold remaining_steps. rewrite List.map_app, list_sum_app.
  unfold list_sum. cbn [List.map fold_right]. lia.
Qed.

Lemma gathered_app l1 l2 : gathered (l1 ++ l2) = gathered l1 ++ gathered l2.
Proof. unfold gathered. apply flat_map_app. Qed.

(** *** What every step preserves *)

Lemma invariant_start uens concurrency rate0 st0 :
  batch_lookup_start uens concurrency rate0 = Return st0 ->
  invariant prog uens concurrency st0 /\ 0 <= concurrency
  /\ remaining_steps (tasks st0) = (2 * length uens)%nat.
Proof.
  unfold batch_lookup_start. destruct (concurrency <? 0) eqn:Hc; [discriminate|].
  intros H. injection H as <-. apply Z.ltb_ge in Hc.
  assert (Hnone : forall l : list string,
            List.filter is_in_flight (List.map (fun uen => (uen, Waiting)) l) = []
            /\ List.filter (fun t => negb (is_waiting t))
                 (List.map (fun uen => (uen, Waiting)) l) = []
            /\ gathered (List.map (fun uen => (uen, Waiting)) l) = []
            /\ remaining_steps (List.map (fun uen => (uen, Waiting)) l) = (2 * length l)%nat).
  { induction l as [|u l (H1 & H2 & H3 & H4)]; [now repeat split|].
    cbn [List.map List.filter is_in_flight is_waiting snd negb length].
    repeat split; try assumption.
    unfold remaining_steps, list_sum in *. cbn [List.map fold_right steps_left snd] in *. lia. }
  destruct (Hnone uens) as (H1 & H2 & H3 & H4).
  split; [|split; [exact Hc|exact H4]].
  constructor; cbn [tasks sem sent results raised].
  - rewrite List.map_map. cbn [fst]. apply List.map_id.
  - unfold in_flight. cbn [tasks]. rewrite H1. cbn. lia.
  - exact Hc.
  - unfold entered. cbn [tasks]. now rewrite H2.
  - destruct prog; [reflexivity|]. rewrite H3. constructor.
  - intros _ i uen e Hi. rewrite list_lookup_fmap in Hi.
    destruct (uens !! i); discriminate Hi.
Qed.

Lemma lookup_middle_ne {A} (l1 l2 : list A) x y j z :
  (l1 ++ y :: l2) !! j = Some z -> z <> y -> (l1 ++ x :: l2) !! j = Some z.
Proof.
  intros Hj Hne.
  destruct (Nat.lt_trichotomy j (length l1)) as [Hlt|[->|Hgt]].
  - rewrite lookup_app_l in Hj |- * by exact Hlt. exact Hj.
  - rewrite list_lookup_middle in Hj by reflexivity. congruence.
  - rewrite lookup_app_r in Hj |- * by lia.
    destruct (j - length l1)%nat as [|k] eqn:E; [lia|exact Hj].
Qed.

Lemma invariant_step uens concurrency ev st st' :
  invariant prog uens concurrency st ->
  step prog self ev st = Some st' ->
  invariant prog uens concurrency st'
  /\ S (remaining_steps (tasks st')) = remaining_steps (tasks st).
Proof.
  intros [Htags Hsem Hnn Hsent Hres Hraised] Hstep. destruct ev as [i clock clock'|i x].
  - destruct (step_Enter _ _ _ _ _ Hstep)
      as (uen & Hi & Hpos & Hsem' & Htasks & _ & Hsent' & Hres' & Hraised').
    destruct (update_at _ _ _ (uen, InFlight) Hi) as (l1 & l2 & Hl & Hl').
    rewrite <- Htasks in Hl'. split; [constructor|].
    + rewrite Hl', <- Htags, Hl, !List.map_app. reflexivity.
    + unfold in_flight in *. rewrite Hl', in_flight_count.
      rewrite Hl, in_flight_count in Hsem. cbn [is_in_flight snd] in *. lia.
    + lia.
    + unfold entered in *. rewrite Hsent', length_app, Hsent, Hl', entered_count.
      rewrite Hl, entered_count. cbn [is_waiting snd length]. lia.
    + rewrite Hres', Hl'. rewrite Hl in Hres.
      rewrite gathered_app in Hres |- *. exact Hres.
    + rewrite Hraised'. intros Hnone j u e Hj. rewrite Hl' in Hj.
      apply (Hraised Hnone j u e). rewrite Hl.
      apply (lookup_middle_ne _ _ _ _ _ _ Hj). discriminate.
    + rewrite Hl', Hl, !remaining_steps_count. cbn [steps_left snd]. lia.
  - destruct (step_Reply _ _ _ _ Hstep)
      as (uen & t & Hi & Hsem' & Htasks & _ & Hsent' & Hcases).
    destruct (update_at _ _ _ (uen, t) Hi) as (l1 & l2 & Hl & Hl').
    rewrite <- Htasks in Hl'.
    assert (Ht : t <> Waiting /\ t <> InFlight).
    { destruct Hcases as [(s & b & _ & -> & _)|(e & _ & -> & _)]; split; discriminate. }
    destruct Ht as [Ht1 Ht2]. split; [constructor|].
    + rewrite Hl', <- Htags, Hl, !List.map_app. reflexivity.
    + unfold in_flight in *. rewrite Hl', in_flight_count.
      rewrite Hl, in_flight_count in Hsem.
      destruct t; try congruence; cbn [is_in_flight snd] in *; lia.
    + lia.
    + unfold entered in *. rewrite Hsent', Hsent, Hl', entered_count.
      rewrite Hl, entered_count.
      destruct t; try congruence; cbn [is_waiting snd]; lia.
    + rewrite Hl in Hres. rewrite gathered_app in Hres. cbn [gathered flat_map app] in Hres.
      destruct Hcases as [(s & b & _ & -> & _ & Hres')|(e & _ & -> & _ & Hres')];
        rewrite Hres', Hl', gathered_app; cbn [gathered flat_map app];
        destruct prog; try exact Hres.
      eapply Permutation_trans;
        [symmetry; apply Permutation_cons_append|].
      eapply Permutation_trans; [|apply Permutation_middle].
      now constructor.
    + destruct Hcases as [(s & b & _ & -> & Hr & _)|(e & _ & _ & Hr & _)];
        [|intros Hnone; contradiction].
      rewrite Hr. intros Hnone j u e Hj. rewrite Hl' in Hj.
      apply (Hraised Hnone j u e). rewrite Hl.
      apply (lookup_middle_ne _ _ _ _ _ _ Hj). discriminate.
    + rewrite Hl', Hl, !remaining_steps_count.
      destruct t; try congruence; cbn [steps_left snd]; lia.
Qed.

Lemma invariant_run uens concurrency evs : forall st st',
  invariant prog uens concurrency st ->
  run prog self evs st = Some st' ->
  invariant prog uens concurrency st'
  /\ (length evs + remaining_steps (tasks st'))%nat = remaining_steps (tasks st).
Proof.
  induction evs as [|ev evs IH]; intros st st' Hinv Hrun.
  - injection Hrun as <-. now split.
  - cbn [run] in Hrun. destruct (step prog self ev st) as [st1|] eqn:Hstep; [|discriminate].
    destruct (invariant_step _ _ _ _ _ Hinv Hstep) as [Hinv1 Hm].
    destruct (IH _ _ Hinv1 Hrun) as [Hinv' Hm']. split; [exact Hinv'|].
    cbn [length]. lia.
Qed.






Lemma raised_stays_None evs : forall st st',
  run prog self evs st = Some st' ->
  raised st = None -> no_interrupt evs = true -> raised st' = None.
Proof.
  induction evs as [|ev evs IH]; intros st st' Hrun Hnone Hni.
  - now injection Hrun as <-.
  - cbn [run] in Hrun. destruct (step prog self ev st) as [st1|] eqn:Hstep; [|discriminate].
    cbn [no_interrupt forallb] in Hni. apply andb_true_iff in Hni. destruct Hni as [Hev Hni].
    apply (IH _ _ Hrun); [|exact Hni].
    destruct ev as [i clock clock'|i x].
    + destruct (step_Enter _ _ _ _ _ Hstep) as (uen & _ & _ & _ & _ & _ & _ & _ & Hr).
      now rewrite Hr.
    + destruct (step_Reply _ _ _ _ Hstep) as (uen & t & _ & _ & _ & _ & _ & Hcases).
      destruct Hcases as [(s & b & _ & _ & Hr & _)|(e & Hx & _)]; [now rewrite Hr|].
      cbn [interrupts] in Hev. rewrite Hx in Hev. discriminate Hev.
Qed.

Lemma gathered_tags ts :
  forallb is_done ts = true ->
  (forall i uen e, ts !! i <> Some (uen, Crashed e)) ->
  List.map uen_of (gathered ts) = List.map fst ts.
Proof.
  induction ts as [|[u t] ts IH]; intros Hd Hc; [reflexivity|].
  cbn [forallb is_done snd] in Hd. apply andb_true_iff in Hd. destruct Hd as [Ht Hd].
  assert (IH' : List.map uen_of (gathered ts) = List.map fst ts).
  { apply IH; [exact Hd|]. intros i uen e Hi. exact (Hc (S i) uen e Hi). }
  destruct t as [| |[status body]|e]; try discriminate Ht.
  - unfold gathered in *. cbn [flat_map app List.map uen_of fst]. now rewrite IH'.
  - exfalso. exact (Hc 0%nat u e eq_refl).
Qed.

End BatchDispatcher.

(** ** The sequential dispatcher *)

Section SequentialBatch.
Import Py Client Projector Dispatcher Sequential.

Variable self : IRASClient.
Variable env : nat -> turn.

(** When no lookup lets an exception through, the loop returns one result
    per identifier, in order, each being what the lookup of that identifier
    returned. *)
Lemma batch_lookup_from_returns uens : forall idx rate_ts results,
  (forall k u, uens !! k = Some u ->
     exists r, search_gst_registered (post (env (idx + k))) self u = Return r) ->
  exists rs rate_ts',
    batch_lookup_from self env idx uens rate_ts results = Return (results ++ rs, rate_ts')
    /\ List.map uen_of rs = uens
    /\ forall k u, uens !! k = Some u ->
         exists r, search_gst_registered (post (env (idx + k))) self u = Return r
           /\ rs !! k = Some (u, fst r, snd r).
Proof.
  induction uens as [|uen rest IH]; intros idx rate_ts results Hall.
  - exists [], rate_ts. cbn [batch_lookup_from]. rewrite app_nil_r.
    split; [reflexivity|]. split; [reflexivity|]. intros k u Hk. destruct k; discriminate Hk.
  - destruct (Hall 0%nat uen eq_refl) as [r Hr]. rewrite Nat.add_0_r in Hr.
    cbn [batch_lookup_from]. unfold mbind, py_bind. rewrite Hr. cbn [bind].
    destruct (IH (S idx)
                (SessionLimiter.record_call None (clock (env idx)) (clock' (env idx)) rate_ts)
                (results ++ [(uen, fst r, snd r)]))
      as (rs & rate_ts' & Hrun & Htags & Hrs).
    { intros k u Hk. rewrite Nat.add_succ_comm. exact (Hall (S k) u Hk). }
    exists ((uen, fst r, snd r) :: rs), rate_ts'. split.
    { rewrite Hrun, <- app_assoc. reflexivity. }
    split; [cbn [List.map uen_of fst]; now rewrite Htags|].
    intros [|k] u Hk; cbn in Hk.
    + injection Hk as <-. exists r. rewrite Nat.add_0_r. now split.
    + destruct (Hrs k u Hk) as (r' & Hr' & Hk'). exists r'.
      rewrite <- Nat.add_succ_comm. now split.
Qed.

End SequentialBatch.

Section BatchRuns.
Import Py Client Projector Dispatcher.

Variable prog : program.
Variable self : IRASClient.

(** C9: in every state of every run the number of lookups in flight is at
    most the bound, and the value of the semaphore is the bound minus that
    number.  A coroutine records its call and sends its request in the step
    in which it passes the semaphore, which needs a free place; the step that
    ends its lookup frees the place. *)
Theorem in_flight_never_exceeds_concurrency uens concurrency rate0 st0 evs st :
  batch_lookup_start uens concurrency rate0 = Return st0 ->
  run prog self evs st0 = Some st ->
  0 <= in_flight st <= concurrency
  /\ sem st = concurrency - in_flight st
  /\ length (sent st) = entered st
  /\ (forall ev st', step prog self ev st = Some st' ->
        match ev with
        | Enter i clock clock' =>
            in_flight st < concurrency
            /\ in_flight st' = in_flight st + 1
            /\ rate_ts st' = record prog clock clock' (rate_ts st)
            /\ exists uen,
                 tasks st !! i = Some (uen, Waiting)
                 /\ tasks st' !! i = Some (uen, InFlight)
                 /\ sent st' = sent st ++ [post_request self uen]
        | Reply i x =>
            in_flight st' = in_flight st - 1
            /\ rate_ts st' = rate_ts st
            /\ sent st' = sent st
        end).
Proof.
  intros Hstart Hrun.
  destruct (invariant_start prog _ _ _ _ Hstart) as (Hinv0 & _ & _).
  destruct (invariant_run prog self _ _ _ _ _ Hinv0 Hrun) as [Hinv _].
  pose proof Hinv as [_ Hsem Hnn Hsent _ _].
  assert (Hfl : forall s, 0 <= in_flight s) by (intros s; unfold in_flight; lia).
  pose proof (Hfl st).
  split; [lia|]. split; [lia|]. split; [exact Hsent|].
  intros ev st' Hstep.
  destruct (invariant_step prog self _ _ _ _ _ Hinv Hstep) as [[_ Hsem' _ _ _ _] _].
  destruct ev as [i clock clock'|i x].
  - destruct (step_Enter _ _ _ _ _ _ _ Hstep)
      as (uen & Hi & Hpos & Hs & Htasks & Hrate & Hsent' & _).
    split; [lia|]. split; [lia|]. split; [exact Hrate|].
    exists uen. split; [exact Hi|]. split; [|exact Hsent'].
    rewrite Htasks. apply list_lookup_insert_eq. exact (lookup_lt_Some _ _ _ Hi).
  - destruct (step_Reply _ _ _ _ _ _ Hstep)
      as (uen & t & _ & Hs & _ & Hrate & Hsent' & _).
    split; [lia|]. split; [exact Hrate|exact Hsent'].
Qed.

(** C4: when the exchange of a lookup ends with a transport failure (before
    a response or while the body is read), [search_gst_registered] returns
    status 0 and a body with a non-empty description under ["error"]; in a
    batch, concurrent or sequential, the failure becomes the result of that
    identifier and of no other, and the batch goes on.  More generally the
    client returns whenever the exception is an [Exception]. *)
Theorem transport_failure_is_captured post reg_id lib f cls msg :
  read_response (post (post_request self reg_id)) = Raise (transport_exn lib f cls msg) ->
  search_gst_registered post self reg_id
    = Return (0, VDict [("error", VStr (cls +:+ ": " +:+ msg))])
  /\ cls +:+ ": " +:+ msg <> EmptyString
  /\ (forall st i uen,
        tasks st !! i = Some (uen, InFlight) ->
        exists st',
          step prog self (Reply i (post (post_request self reg_id))) st = Some st'
          /\ tasks st' !! i
             = Some (uen, Finished (0, VDict [("error", VStr (cls +:+ ": " +:+ msg))]))
          /\ (forall j, j <> i -> tasks st' !! j = tasks st !! j)
          /\ raised st' = raised st)
  /\ (forall env uens rate_ts k,
        uens !! k = Some reg_id ->
        Sequential.post (env k) = post ->
        (forall j u e,
           uens !! j = Some u ->
           read_response (Sequential.post (env j) (post_request self u)) = Raise e ->
           is_Exception e = true) ->
        exists rs rate_ts',
          Sequential.batch_lookup self env uens rate_ts = Return (rs, rate_ts')
          /\ List.map uen_of rs = uens
          /\ rs !! k
             = Some (reg_id, 0, VDict [("error", VStr (cls +:+ ": " +:+ msg))]))
  /\ (forall x,
        (forall e, read_response x = Raise e -> is_Exception e = true) ->
        exists r, complete_lookup x = Return r).
Proof.
  intros Hx.
  pose proof (complete_lookup_handled _ _ Hx (transport_exn_is_Exception lib f cls msg)) as Hc.
  change (error_body (transport_exn lib f cls msg))
    with (VDict [("error", VStr (cls +:+ ": " +:+ msg))]) in Hc.
  split; [exact Hc|]. split.
  { exact (error_description_nonempty (transport_exn lib f cls msg)). }
  split; [|split; [|exact complete_lookup_total]].
  - intros st i uen Hi. cbn [step]. rewrite Hi, Hc. eexists. split; [reflexivity|].
    cbn [tasks raised]. split; [|split; [|reflexivity]].
    + apply list_lookup_insert_eq. exact (lookup_lt_Some _ _ _ Hi).
    + intros j Hj. apply list_lookup_insert_ne. congruence.
  - intros env uens rate_ts k Hk Hpost Hall.
    destruct (batch_lookup_from_returns self env uens 0 rate_ts [])
      as (rs & rate_ts' & Hrun & Htags & Hrs).
    { intros j u Hj. apply complete_lookup_total. intros e. exact (Hall j u e Hj). }
    exists rs, rate_ts'. split; [exact Hrun|]. split; [exact Htags|].
    destruct (Hrs k reg_id Hk) as (r & Hr & Hrk). cbn [Nat.add] in Hr.
    rewrite Hpost in Hr. unfold search_gst_registered in Hr. rewrite Hc in Hr.
    injection Hr as <-. exact Hrk.
Qed.

End BatchRuns.

(** ** More on the rate window *)

Section RateWindowMore.
Import Py RateLimiter Observations.

Lemma keep_last_short {A} n (l : list A) : (length l <= n)%nat -> keep_last n l = l.
Proof. intros H. unfold keep_last. replace (length l - n)%nat with 0%nat by lia. reflexivity. Qed.

Lemma keep_last_length {A} n (l : list A) : length (keep_last n l) = Nat.min n (length l).
Proof. unfold keep_last. rewrite length_drop. lia. Qed.

Lemma keep_last_app {A} n (l l' : list A) :
  keep_last n (keep_last n l ++ l') = keep_last n (l ++ l').
Proof.
  unfold keep_last. rewrite !length_app, length_drop.
  destruct (Nat.le_gt_cases (length l) n) as [Hle|Hgt].
  - replace (length l - n)%nat with 0%nat by lia. cbn [drop]. f_equal. lia.
  - replace (length l + length l' - n)%nat
      with ((length l - n) + length l')%nat by lia.
    rewrite <- drop_drop, (drop_app_le l l' (length l - n)) by lia. f_equal. lia.
Qed.

Lemma deque_append_keep_last {A} (x : A) dq :
  deque_append RATE_LIMIT_MAX x (keep_last 100 dq) = keep_last 100 (dq ++ [x]).
Proof.
  rewrite <- keep_last_app. generalize (keep_last_length 100 dq).
  generalize (keep_last 100 dq). intros l Hl.
  unfold deque_append, RATE_LIMIT_MAX, keep_last. rewrite length_app. cbn [length].
  destruct (100 <? Z.of_nat (length l + 1)) eqn:E.
  - apply Z.ltb_lt in E. replace (length l + 1 - 100)%nat with 1%nat by lia.
    destruct (l ++ [x]); reflexivity.
  - apply Z.ltb_ge in E. replace (length l + 1 - 100)%nat with 0%nat by lia. reflexivity.
Qed.

Lemma run_records_keep_last calls : forall dq,
  run_calls (records calls) (keep_last 100 dq)
  = keep_last 100 (dq ++ recorded (records calls)).
Proof.
  induction calls as [|[now clock] calls IH]; intros dq.
  - cbn. now rewrite app_nil_r.
  - cbn [records List.map run_calls fold_left recorded flat_map fst snd].
    fold (records calls). fold (recorded (records calls)).
    fold (run_calls (records calls)
            (exec_call (RecordCall now, clock) (keep_last 100 dq))).
    cbn [exec_call]. unfold record_call. rewrite deque_append_keep_last, IH.
    now rewrite <- app_assoc.
Qed.

Lemma evict_keeps_unexpired q l :
  forallb (fun t => negb (expired q t)) l = true -> evict q l = l.
Proof.
  destruct l as [|t0 rest]; [reflexivity|]. cbn [forallb evict]. intros H.
  apply andb_true_iff in H. destruct H as [H _]. unfold expired in H.
  apply negb_true_iff in H. now rewrite H.
Qed.

Lemma forallb_drop {A} (f : A -> bool) n l :
  forallb f l = true -> forallb f (drop n l) = true.
Proof.
  revert n. induction l as [|a l IH]; intros [|n] H; trivial.
  cbn [drop]. cbn [forallb] in H. apply andb_true_iff in H. now apply IH.
Qed.

(** X2: after calls of [record_call] alone the window holds the last 100
    recorded time stamps in the order of the calls (all of them while there
    are at most 100).  When none of the recorded time stamps is older than
    the window, a query returns 100 minus their number (0 from the hundredth
    call on) and leaves the window as it is. *)
Theorem window_is_last_hundred calls now clock :
  run_calls (records calls) rate_ts_init
  = keep_last 100 (recorded (records calls))
  /\ length (run_calls (records calls) rate_ts_init) = Nat.min 100 (length calls)
  /\ (forallb (fun t => negb (expired (query_time now clock) t))
        (recorded (records calls)) = true ->
      allowed_calls_remaining now clock (run_calls (records calls) rate_ts_init)
      = (RATE_LIMIT_MAX - Z.of_nat (Nat.min 100 (length calls)),
         keep_last 100 (recorded (records calls)))).
Proof.
  pose proof (run_records_keep_last calls []) as H. cbn [app] in H.
  change (keep_last 100 []) with rate_ts_init in H.
  assert (Hlen : length (recorded (records calls)) = length calls).
  { clear. induction calls as [|[now clock] calls IH]; [reflexivity|].
    cbn [records List.map recorded flat_map fst snd app length].
    fold (records calls). fold (recorded (records calls)). now rewrite IH. }
  split; [exact H|]. split.
  - rewrite H, keep_last_length, Hlen. reflexivity.
  - intros Hfresh. unfold allowed_calls_remaining. rewrite H.
    rewrite evict_keeps_unexpired by (apply forallb_drop; exact Hfresh).
    now rewrite keep_last_length, Hlen.
Qed.

(** X1: whatever calls were made before, [allowed_calls_remaining] returns
    a count between 0 and [RATE_LIMIT_MAX]; what it removes from the window
    is a prefix all of whose time stamps are older than the window, and the
    oldest time stamp that it keeps is not. *)
Theorem remaining_within_bounds tr now clock :
  0 <= fst (allowed_calls_remaining now clock (run_calls tr rate_ts_init))
    <= RATE_LIMIT_MAX
  /\ (exists evicted,
        run_calls tr rate_ts_init
        = evicted ++ snd (allowed_calls_remaining now clock (run_calls tr rate_ts_init))
        /\ forallb (expired (query_time now clock)) evicted = true)
  /\ match snd (allowed_calls_remaining now clock (run_calls tr rate_ts_init)) with
     | [] => True
     | oldest :: _ => expired (query_time now clock) oldest = false
     end.
Proof.
  cbn [allowed_calls_remaining fst snd].
  set (dq := run_calls tr rate_ts_init). set (q := query_time now clock).
  pose proof (run_calls_length tr rate_ts_init) as Hlen. fold dq in Hlen.
  pose proof (evict_length q dq) as Hev.
  split; [unfold RATE_LIMIT_MAX in *; cbn in Hlen; lia|].
  clearbody dq. clear Hlen Hev. induction dq as [|t0 rest [[ev [Hev Hexp]] Hhead]].
  - split; [now exists []|exact I].
  - cbn [evict]. fold (expired q t0). destruct (expired q t0) eqn:Ht.
    + split; [|exact Hhead]. exists (t0 :: ev). cbn [app forallb].
      rewrite Ht, Hexp. split; [now f_equal|reflexivity].
    + split; [now exists []|exact Ht].
Qed.

Lemma evict_later q1 q2 l : q1 <= q2 -> evict q2 (evict q1 l) = evict q2 l.
Proof.
  intros Hq. induction l as [|t0 rest IH]; [reflexivity|].
  cbn [evict]. destruct (q1 - t0 >? RATE_LIMIT_WINDOW_SEC) eqn:E1; [|reflexivity].
  rewrite IH. destruct (q2 - t0 >? RATE_LIMIT_WINDOW_SEC) eqn:E2; [reflexivity|].
  rewrite Z.gtb_ltb in E1, E2. apply Z.ltb_lt in E1. apply Z.ltb_ge in E2. lia.
Qed.

(** X3: queries only move the window forward: a query at [now1] followed
    by a query at a later [now2] leaves the window of the query at [now2]
    alone, the count of the later query is not smaller, and a repeated query
    changes nothing. *)
Theorem queries_compose now1 now2 clock rate_ts :
  now1 <= now2 ->
  snd (allowed_calls_remaining (Some now2) clock
         (snd (allowed_calls_remaining (Some now1) clock rate_ts)))
  = snd (allowed_calls_remaining (Some now2) clock rate_ts)
  /\ fst (allowed_calls_remaining (Some now1) clock rate_ts)
     <= fst (allowed_calls_remaining (Some now2) clock rate_ts)
  /\ allowed_calls_remaining (Some now1) clock
       (snd (allowed_calls_remaining (Some now1) clock rate_ts))
     = allowed_calls_remaining (Some now1) clock rate_ts.
Proof.
  intros Hq. cbn [allowed_calls_remaining fst snd query_time].
  split; [now apply evict_later|]. split.
  - rewrite <- (evict_later now1 now2 rate_ts Hq).
    pose proof (evict_length now2 (evict now1 rate_ts)). lia.
  - unfold allowed_calls_remaining. cbn [query_time].
    now rewrite (evict_later now1 now1 rate_ts) by lia.
Qed.

(** X4: the quick check of [main.py] and [main_requests.py] records its
    call after it has found a positive count.  When the clock has not gone
    back since that query, [record_call] (of the session limiter) keeps every
    time stamp that is not older than the window and appends the new one:
    the capacity of the deque drops nothing. *)
Theorem session_record_after_budget_check clock0 clock clock' rate_ts :
  0 < fst (allowed_calls_remaining None clock0 rate_ts) ->
  clock0 <= clock ->
  SessionLimiter.record_call None clock clock'
    (snd (allowed_calls_remaining None clock0 rate_ts))
  = evict clock rate_ts ++ [clock'].
Proof.
  intros Hbudget Hclock. cbn [allowed_calls_remaining fst snd query_time] in *.
  unfold SessionLimiter.record_call. cbn [allowed_calls_remaining snd query_time now_or_clock].
  rewrite (evict_later clock0 clock rate_ts Hclock).
  assert (Hlen : (length (evict clock rate_ts) < 100)%nat).
  { rewrite <- (evict_later clock0 clock rate_ts Hclock).
    pose proof (evict_length clock (evict clock0 rate_ts)).
    unfold RATE_LIMIT_MAX in Hbudget. lia. }
  unfold deque_append, RATE_LIMIT_MAX. rewrite length_app. cbn [length].
  destruct (100 <? _) eqn:E; [apply Z.ltb_lt in E; lia|reflexivity].
Qed.

End RateWindowMore.

(** ** The history of a run *)

Section RunHistory.
Import Py Client Projector Dispatcher Observations History.

Variable prog : program.
Variable self : IRASClient.

(** A property of the events so far and the state reached that every step
    keeps holds along every run. *)
Lemma run_history (I : list event -> state -> Prop) :
  (forall h ev st st', I h st -> step prog self ev st = Some st' -> I (h ++ [ev]) st') ->
  forall evs h st st',
    I h st -> run prog self evs st = Some st' -> I (h ++ evs) st'.
Proof.
  intros Hstep. induction evs as [|ev evs IH]; intros h st st' Hh Hrun.
  - injection Hrun as <-. now rewrite app_nil_r.
  - cbn [run] in Hrun. destruct (step prog self ev st) as [st1|] eqn:E; [|discriminate].
    replace (h ++ ev :: evs) with ((h ++ [ev]) ++ evs) by now rewrite <- app_assoc.
    apply (IH _ st1); [|exact Hrun]. exact (Hstep _ _ _ _ Hh E).
Qed.

Lemma entry_clocks_app h h' : entry_clocks (h ++ h') = entry_clocks h ++ entry_clocks h'.
Proof. apply flat_map_app. Qed.

Lemma entered_positions_app h h' :
  entered_positions (h ++ h') = entered_positions h ++ entered_positions h'.
Proof. apply flat_map_app. Qed.

Lemma replied_positions_app h h' :
  replied_positions (h ++ h') = replied_positions h ++ replied_positions h'.
Proof. apply flat_map_app. Qed.

Lemma completions_app uens h h' :
  completions uens (h ++ h') = completions uens h ++ completions uens h'.
Proof. apply flat_map_app. Qed.

End RunHistory.

Section Histories.
Import Py Client Projector Dispatcher Observations History.

Variable self : IRASClient.

Lemma tags_lookup (ts : list (string * coroutine)) uens i uen t :
  List.map fst ts = uens -> ts !! i = Some (uen, t) -> uens !! i = Some uen.
Proof.
  intros <- Hi. change (List.map fst ts) with (fst <$> ts).
  now rewrite list_lookup_fmap, Hi.
Qed.

(** *** The window of the script *)

Lemma script_window_history cb rate0 evs st0 st :
  rate_ts st0 = keep_last 100 rate0 ->
  run (BatchScriptAsync cb) self evs st0 = Some st ->
  rate_ts st = keep_last 100 (rate0 ++ entry_clocks evs).
Proof.
  intros H0 Hrun.
  refine (run_history (BatchScriptAsync cb) self
            (fun h s => rate_ts s = keep_last 100 (rate0 ++ entry_clocks h))
            _ evs [] st0 st _ Hrun); [|cbn; now rewrite app_nil_r].
  intros h ev s s' Hh Hstep. rewrite entry_clocks_app, app_assoc.
  destruct ev as [i clock clock'|i x].
  - destruct (step_Enter _ _ _ _ _ _ _ Hstep) as (uen & _ & _ & _ & _ & Hrate & _).
    rewrite Hrate. cbn [record entry_clocks flat_map app].
    unfold RateLimiter.record_call. cbn [RateLimiter.now_or_clock].
    now rewrite Hh, deque_append_keep_last.
  - destruct (step_Reply _ _ _ _ _ _ Hstep) as (uen & t & _ & _ & _ & Hrate & _).
    rewrite Hrate, Hh. cbn [entry_clocks flat_map app]. now rewrite app_nil_r.
Qed.

(** *** Who entered and who was answered *)


Lemma positions_start uens concurrency rate0 st0 :
  batch_lookup_start uens concurrency rate0 = Return st0 -> positions [] st0.
Proof.
  unfold batch_lookup_start. destruct (concurrency <? 0); [discriminate|].
  intros H. injection H as <-.
  assert (Hw : forall i uen t,
            List.map (fun uen => (uen, Waiting)) uens !! i = Some (uen, t) -> t = Waiting).
  { intros i uen t Hi. change (List.map ?f uens) with (f <$> uens) in Hi.
    rewrite list_lookup_fmap in Hi. destruct (uens !! i); [|discriminate].
    now injection Hi as _ <-. }
  constructor; cbn [entered_positions replied_positions flat_map tasks].
  - intros i. split; [intros []|]. intros (uen & t & Hi & Ht). now apply Hw in Hi.
  - constructor.
  - intros i. split; [intros []|]. intros (uen & t & Hi & Ht).
    apply Hw in Hi. subst t. discriminate Ht.
  - constructor.
  - intros i x [].
Qed.

Lemma positions_step prog h ev st st' :
  positions h st -> step prog self ev st = Some st' -> positions (h ++ [ev]) st'.
Proof.
  intros [Hent Hent1 Hrep Hrep1 Hend] Hstep.
  assert (Hother : forall (i j : nat) (c : string * coroutine),
            i <> j -> <[i := c]> (tasks st) !! j = tasks st !! j)
    by (intros i j c Hij; now apply list_lookup_insert_ne).
  destruct ev as [i clock clock'|i x].
  - destruct (step_Enter _ _ _ _ _ _ _ Hstep) as (uen & Hi & _ & _ & Htasks & _).
    assert (Hnew : tasks st' !! i = Some (uen, InFlight)).
    { rewrite Htasks. apply list_lookup_insert_eq. exact (lookup_lt_Some _ _ _ Hi). }
    assert (Hfresh : ~ In i (entered_positions h)).
    { intros Hin. apply Hent in Hin. destruct Hin as (u & t & Hi' & Ht). congruence. }
    constructor; rewrite ?entered_positions_app, ?replied_positions_app;
      cbn [entered_positions replied_positions flat_map app]; rewrite ?app_nil_r.
    + intros j. rewrite in_app_iff, Hent. cbn [In].
      destruct (Nat.eq_dec i j) as [<-|Hij].
      * split; [intros _|intros _; right; now left].
        exists uen, InFlight. split; [exact Hnew|discriminate].
      * rewrite Htasks, Hother by exact Hij. split; [intros [H|[H|[]]]|intros H].
        -- exact H.
        -- contradiction.
        -- now left.
    + apply NoDup_app. split; [exact Hent1|]. split; [|apply NoDup_singleton].
      intros j Hj Hj'. apply list_elem_of_In in Hj.
      apply list_elem_of_In in Hj'. destruct Hj' as [<-|[]]. contradiction.
    + intros j. rewrite Hrep. destruct (Nat.eq_dec i j) as [<-|Hij].
      * rewrite Hi, Hnew. split; intros (u & t & Ht & Hd); injection Ht as <- <-;
          discriminate Hd.
      * now rewrite Htasks, Hother.
    + exact Hrep1.
    + intros j x Hin. apply in_app_or in Hin. destruct Hin as [Hin|[Hin|[]]]; [|discriminate].
      destruct (Hend j x Hin) as [u Hu]. exists u.
      destruct (Nat.eq_dec i j) as [<-|Hij]; [|now rewrite Htasks, Hother].
      rewrite Hi in Hu. injection Hu as _ Hu. unfold ending in Hu.
      destruct (complete_lookup x); discriminate Hu.
  - destruct (step_Reply _ _ _ _ _ _ Hstep) as (uen & t & Hi & _ & Htasks & _ & _ & Hcases).
    assert (Ht : t = ending x).
    { unfold ending. destruct Hcases as [(s & b & -> & -> & _)|(e & -> & -> & _)]; reflexivity. }
    assert (Hdone : is_done (uen, t) = true /\ t <> Waiting).
    { destruct Hcases as [(s & b & _ & -> & _)|(e & _ & -> & _)]; split;
        reflexivity || discriminate. }
    destruct Hdone as [Hdone Hnw].
    assert (Hnew : tasks st' !! i = Some (uen, t)).
    { rewrite Htasks. apply list_lookup_insert_eq. exact (lookup_lt_Some _ _ _ Hi). }
    assert (Hfresh : ~ In i (replied_positions h)).
    { intros Hin. apply Hrep in Hin. destruct Hin as (u & t' & Hi' & Ht').
      rewrite Hi in Hi'. injection Hi' as <- <-. discriminate Ht'. }
    constructor; rewrite ?entered_positions_app, ?replied_positions_app;
      cbn [entered_positions replied_positions flat_map app]; rewrite ?app_nil_r.
    + intros j. rewrite Hent. destruct (Nat.eq_dec i j) as [<-|Hij].
      * rewrite Hi, Hnew. split; intros _; eexists _, _; (split; [reflexivity|]);
          [exact Hnw|discriminate].
      * now rewrite Htasks, Hother.
    + exact Hent1.
    + intros j. rewrite in_app_iff, Hrep. cbn [In].
      destruct (Nat.eq_dec i j) as [<-|Hij].
      * split; [intros _|intros _; right; now left]. now exists uen, t.
      * rewrite Htasks, Hother by exact Hij. split; [intros [H|[H|[]]]|intros H].
        -- exact H.
        -- contradiction.
        -- now left.
    + apply NoDup_app. split; [exact Hrep1|]. split; [|apply NoDup_singleton].
      intros j Hj Hj'. apply list_elem_of_In in Hj.
      apply list_elem_of_In in Hj'. destruct Hj' as [<-|[]]. contradiction.
    + intros j y Hin. apply in_app_or in Hin. destruct Hin as [Hin|[Hin|[]]].
      * destruct (Hend j y Hin) as [u Hu]. exists u.
        destruct (Nat.eq_dec i j) as [<-|Hij]; [|now rewrite Htasks, Hother].
        rewrite Hi in Hu. injection Hu as _ Hu. unfold ending in Hu.
        destruct (complete_lookup y); discriminate Hu.
      * injection Hin as <- <-. exists uen. now rewrite Hnew, Ht.
Qed.

Lemma positions_run prog uens concurrency rate0 st0 evs st :
  batch_lookup_start uens concurrency rate0 = Return st0 ->
  run prog self evs st0 = Some st ->
  positions evs st.
Proof.
  intros Hstart Hrun.
  apply (run_history prog self positions (fun h ev s s' => positions_step prog h ev s s')
           evs [] st0 st); [|exact Hrun].
  exact (positions_start _ _ _ _ Hstart).
Qed.

Lemma request_at_lookup uens i uen :
  uens !! i = Some uen -> request_at self uens i = [post_request self uen].
Proof. intros H. unfold request_at. now rewrite H. Qed.

(** *** The bookkeeping of a run *)


Lemma step_counters prog ev st st' :
  step prog self ev st = Some st' ->
  match ev with
  | Enter _ _ _ => processed st' = processed st /\ progress st' = progress st
  | Reply i x =>
      match complete_lookup x with
      | Return _ =>
          processed st' = match prog with
                          | BatchScriptAsync _ => processed st + 1
                          | MainStreamlit => processed st
                          end
          /\ progress st' = match prog with
                            | BatchScriptAsync true =>
                                progress st ++ [(processed st + 1, total st)]
                            | _ => progress st
                            end
      | Raise _ => processed st' = processed st /\ progress st' = progress st
      end
  end.
Proof.
  destruct ev as [i clock clock'|i x]; cbn [step].
  - destruct (tasks st !! i) as [[uen []]|]; try discriminate.
    destruct (0 <? sem st); [|discriminate]. intros H. injection H as <-. now split.
  - destruct (tasks st !! i) as [[uen []]|]; try discriminate.
    destruct (complete_lookup x) as [[status body]|e]; intros H; injection H as <-;
      now split.
Qed.

Lemma bookkeeping_step prog uens concurrency h ev st st' :
  invariant prog uens concurrency st ->
  bookkeeping self prog uens h st ->
  step prog self ev st = Some st' ->
  bookkeeping self prog uens (h ++ [ev]) st'.
Proof.
  intros Hinv [Hsent Hres Hproc Hprog Hgath] Hstep.
  pose proof (step_counters _ _ _ _ Hstep) as Hcount.
  pose proof (inv_tags _ _ _ _ Hinv) as Htags.
  assert (Htotal : total st = Z.of_nat (length uens)).
  { unfold total. now rewrite <- Htags, length_map. }
  destruct ev as [i clock clock'|i x].
  - destruct (step_Enter _ _ _ _ _ _ _ Hstep)
      as (uen & Hi & _ & _ & Htasks & _ & Hsent' & Hres' & _).
    destruct Hcount as [Hp Hq].
    destruct (update_at _ _ _ (uen, InFlight) Hi) as (l1 & l2 & Hl & Hl').
    rewrite <- Htasks in Hl'.
    constructor; rewrite ?entered_positions_app, ?completions_app, ?flat_map_app;
      cbn [entered_positions completions flat_map app]; rewrite ?app_nil_r.
    + rewrite Hsent', Hsent.
      now rewrite (request_at_lookup _ _ _ (tags_lookup _ _ _ _ _ Htags Hi)).
    + now rewrite Hres'.
    + now rewrite Hp.
    + now rewrite Hq.
    + rewrite Hl'. rewrite Hl in Hgath. rewrite gathered_app in Hgath |- *. exact Hgath.
  - destruct (step_Reply _ _ _ _ _ _ Hstep)
      as (uen & t & Hi & _ & Htasks & _ & Hsent' & Hcases).
    pose proof (tags_lookup _ _ _ _ _ Htags Hi) as Hu.
    destruct (update_at _ _ _ (uen, t) Hi) as (l1 & l2 & Hl & Hl').
    rewrite <- Htasks in Hl'.
    constructor; rewrite ?entered_positions_app, ?completions_app, ?flat_map_app;
      cbn [entered_positions completions flat_map app]; rewrite ?app_nil_r, ?Hu.
    + now rewrite Hsent'.
    + destruct Hcases as [(s & b & Hx & _ & _ & Hres')|(e & Hx & _ & _ & Hres')];
        rewrite Hx, Hres', Hres; destruct prog; cbn [fst snd app];
        now rewrite ?app_nil_r.
    + destruct (complete_lookup x) as [r|e]; destruct Hcount as [Hp _];
        rewrite Hp, Hproc; destruct prog; rewrite ?length_app; cbn [length app];
        rewrite ?app_nil_r; try reflexivity; lia.
    + destruct (complete_lookup x) as [r|e]; destruct Hcount as [_ Hq];
        rewrite Hq, Hprog; destruct prog as [[|]|]; rewrite ?app_nil_r; try reflexivity.
      rewrite length_app. cbn [length]. rewrite Nat.add_1_r, seq_S, List.map_app.
      cbn [List.map Nat.add]. rewrite Hproc, Htotal. do 3 f_equal. lia.
    + rewrite Hl in Hgath. rewrite gathered_app in Hgath. cbn [gathered flat_map app] in Hgath.
      rewrite Hl', gathered_app.
      destruct Hcases as [(s & b & Hx & -> & _)|(e & Hx & -> & _)];
        rewrite Hx; cbn [gathered flat_map app fst snd]; rewrite ?app_nil_r;
        [|exact Hgath].
      eapply Permutation_trans; [symmetry; apply Permutation_cons_append|].
      eapply Permutation_trans; [|apply Permutation_middle].
      now constructor.
Qed.

Lemma bookkeeping_run prog uens concurrency rate0 st0 evs st :
  batch_lookup_start uens concurrency rate0 = Return st0 ->
  run prog self evs st0 = Some st ->
  invariant prog uens concurrency st /\ bookkeeping self prog uens evs st.
Proof.
  intros Hstart Hrun.
  destruct (invariant_start prog _ _ _ _ Hstart) as (Hinv0 & _ & _).
  refine (run_history prog self
            (fun h s => invariant prog uens concurrency s /\ bookkeeping self prog uens h s)
            _ evs [] st0 st _ Hrun).
  - intros h ev s s' [Hinv Hbk] Hstep. split.
    + exact (proj1 (invariant_step prog self _ _ _ _ _ Hinv Hstep)).
    + exact (bookkeeping_step _ _ _ _ _ _ _ Hinv Hbk Hstep).
  - split; [exact Hinv0|]. unfold batch_lookup_start in Hstart.
    destruct (concurrency <? 0); [discriminate|]. injection Hstart as <-.
    constructor; cbn [sent results processed progress tasks entered_positions
                      completions flat_map length seq List.map];
      try (destruct prog as [[|]|]; reflexivity).
    clear. induction uens as [|u l IH]; [constructor|exact IH].
Qed.

End Histories.

(** ** What a batch sends, records and returns *)

Section DispatcherRuns.
Import Py RateLimiter Client Projector Dispatcher Observations History.

Variable self : IRASClient.

Lemma request_at_seq pre uens :
  flat_map (request_at self (pre ++ uens)) (seq (length pre) (length uens))
  = List.map (post_request self) uens.
Proof.
  revert pre. induction uens as [|u uens IH]; intros pre; [reflexivity|].
  cbn [length seq flat_map List.map].
  rewrite (request_at_lookup self (pre ++ u :: uens) (length pre) u)
    by (now apply list_lookup_middle).
  cbn [app]. f_equal.
  specialize (IH (pre ++ [u])). rewrite <- app_assoc in IH. cbn [app] in IH.
  rewrite length_app in IH. cbn [length] in IH. now rewrite Nat.add_1_r in IH.
Qed.

Lemma tasks_length uens prog concurrency st :
  invariant prog uens concurrency st -> length (tasks st) = length uens.
Proof. intros [Htags _ _ _ _ _]. now rewrite <- Htags, length_map. Qed.

Lemma entered_in_range prog uens concurrency evs st i :
  invariant prog uens concurrency st -> positions evs st ->
  In i (entered_positions evs) -> (i < length uens)%nat.
Proof.
  intros Hinv Hpos Hin. apply (pos_entered _ _ Hpos) in Hin.
  destruct Hin as (u & t & Hi & _). rewrite <- (tasks_length _ _ _ _ Hinv).
  exact (lookup_lt_Some _ _ _ Hi).
Qed.

Lemma done_lookup ts i : forallb is_done ts = true -> (i < length ts)%nat ->
  exists uen t, ts !! i = Some (uen, t) /\ is_done (uen, t) = true.
Proof.
  intros Hall Hi. destruct (lookup_lt_is_Some_2 ts i Hi) as [[uen t] Hl].
  exists uen, t. split; [exact Hl|].
  rewrite forallb_forall in Hall. apply Hall.
  apply list_elem_of_In. exact (list_elem_of_lookup_2 _ _ _ Hl).
Qed.

Lemma all_entered prog uens concurrency evs st :
  invariant prog uens concurrency st -> positions evs st -> all_done st = true ->
  Permutation (entered_positions evs) (seq 0 (length uens))
  /\ Permutation (replied_positions evs) (seq 0 (length uens)).
Proof.
  intros Hinv Hpos Hall. pose proof (tasks_length _ _ _ _ Hinv) as Hlen.
  assert (Hdone : forall i, (i < length uens)%nat ->
            exists uen t, tasks st !! i = Some (uen, t) /\ is_done (uen, t) = true).
  { intros i Hi. apply done_lookup; [exact Hall|lia]. }
  split; apply NoDup_Permutation.
  - exact (pos_entered_once _ _ Hpos).
  - apply NoDup_seq.
  - intros i. rewrite !list_elem_of_In, in_seq. split.
    + intros Hin. pose proof (entered_in_range _ _ _ _ _ _ Hinv Hpos Hin). lia.
    + intros [_ Hi]. apply (pos_entered _ _ Hpos).
      destruct (Hdone i Hi) as (u & t & Hl & Hd). exists u, t. split; [exact Hl|].
      intros ->. discriminate Hd.
  - exact (pos_replied_once _ _ Hpos).
  - apply NoDup_seq.
  - intros i. rewrite !list_elem_of_In, in_seq. split.
    + intros Hin. apply (pos_replied _ _ Hpos) in Hin. destruct Hin as (u & t & Hl & _).
      pose proof (lookup_lt_Some _ _ _ Hl). lia.
    + intros [_ Hi]. apply (pos_replied _ _ Hpos). exact (Hdone i Hi).
Qed.

(** X5: the requests posted in a run are those of the coroutines that
    passed the semaphore, in the order in which they passed it; no coroutine
    passes it twice.  When the run is done, the requests posted are the
    requests of the identifiers, each once: no lookup is repeated and none is
    left out. *)
Theorem requests_one_per_identifier prog uens concurrency rate0 st0 evs st :
  batch_lookup_start uens concurrency rate0 = Return st0 ->
  run prog self evs st0 = Some st ->
  sent st = flat_map (request_at self uens) (entered_positions evs)
  /\ NoDup (entered_positions evs)
  /\ (forall i, In i (entered_positions evs) -> (i < length uens)%nat)
  /\ (all_done st = true ->
      Permutation (sent st) (List.map (post_request self) uens)).
Proof.
  intros Hstart Hrun.
  destruct (bookkeeping_run self prog _ _ _ _ _ _ Hstart Hrun) as [Hinv Hbk].
  pose proof (positions_run self prog _ _ _ _ _ _ Hstart Hrun) as Hpos.
  split; [exact (bk_sent _ _ _ _ _ Hbk)|]. split; [exact (pos_entered_once _ _ Hpos)|].
  split; [intros i; exact (entered_in_range _ _ _ _ _ _ Hinv Hpos)|].
  intros Hall. rewrite (bk_sent _ _ _ _ _ Hbk).
  rewrite <- (request_at_seq [] uens). cbn [app length].
  apply Permutation_flat_map. exact (proj1 (all_entered _ _ _ _ _ Hinv Hpos Hall)).
Qed.

Lemma gathered_lookup ts : forall i uen s b,
  forallb is_done ts = true ->
  (forall j u e, ts !! j <> Some (u, Crashed e)) ->
  ts !! i = Some (uen, Finished (s, b)) ->
  gathered ts !! i = Some (uen, s, b).
Proof.
  induction ts as [|[u t] ts IH]; intros i uen s b Hd Hc Hi; [destruct i; discriminate|].
  cbn [forallb is_done snd] in Hd. apply andb_true_iff in Hd. destruct Hd as [Ht Hd].
  destruct t as [| |[s0 b0]|e]; try discriminate Ht.
  - unfold gathered. cbn [flat_map app]. destruct i as [|i].
    + cbn in Hi |- *. now injection Hi as -> -> ->.
    + cbn [lookup list_lookup] in Hi |- *. apply IH; [exact Hd| |exact Hi].
      intros j u' e Hj. exact (Hc (S j) u' e Hj).
  - exfalso. exact (Hc 0%nat u e eq_refl).
Qed.

Lemma gathered_length ts : (length (gathered ts) <= length ts)%nat.
Proof.
  induction ts as [|[u t] ts IH]; [reflexivity|].
  unfold gathered in *. cbn [flat_map length]. rewrite length_app.
  destruct t as [| |[s b]|e]; cbn [length]; lia.
Qed.

Lemma replied_positions_In evs i :
  In i (replied_positions evs) <-> exists x, In (Reply i x) evs.
Proof.
  unfold replied_positions. rewrite in_flat_map. split.
  - intros ([j c c'|j x] & Hin & Hi); [destruct Hi|]. destruct Hi as [->|[]]. now exists x.
  - intros [x Hin]. exists (Reply i x). split; [exact Hin|now left].
Qed.

Lemma no_interrupt_Reply evs i x :
  no_interrupt evs = true -> In (Reply i x) evs -> exists r, complete_lookup x = Return r.
Proof.
  intros Hni Hin. unfold no_interrupt in Hni. rewrite forallb_forall in Hni.
  specialize (Hni _ Hin). cbn [interrupts] in Hni.
  destruct (complete_lookup x) as [r|e]; [now exists r|discriminate Hni].
Qed.

(** What a run that is done without interrupt has reached. *)
Lemma done_run prog uens concurrency rate0 st0 evs st :
  batch_lookup_start uens concurrency rate0 = Return st0 ->
  run prog self evs st0 = Some st ->
  all_done st = true -> no_interrupt evs = true ->
  raised st = None
  /\ (forall j u e, tasks st !! j <> Some (u, Crashed e))
  /\ List.map uen_of (gathered (tasks st)) = uens
  /\ length (gathered (tasks st)) = length uens.
Proof.
  intros Hstart Hrun Hall Hni.
  destruct (bookkeeping_run self prog _ _ _ _ _ _ Hstart Hrun) as [Hinv _].
  assert (Hnone : raised st = None).
  { apply (raised_stays_None prog self _ _ _ Hrun); [|exact Hni].
    unfold batch_lookup_start in Hstart. destruct (concurrency <? 0); [discriminate|].
    now injection Hstart as <-. }
  pose proof (inv_raised _ _ _ _ Hinv Hnone) as Hc.
  pose proof (gathered_tags _ Hall Hc) as Hg. rewrite (inv_tags _ _ _ _ Hinv) in Hg.
  split; [exact Hnone|]. split; [exact Hc|]. split; [exact Hg|].
  rewrite <- (length_map uen_of). now rewrite Hg.
Qed.

(** X6: in the script, when the run is done without interrupt, every
    identifier had its exchange, and the result at a position of the returned
    list is made of the identifier at that position and of what the client
    returned for the exchange of that very coroutine: results of concurrent
    lookups are never mixed up. *)
Theorem script_result_is_own_exchange cb uens concurrency rate0 st0 evs st :
  batch_lookup_start uens concurrency rate0 = Return st0 ->
  run (BatchScriptAsync cb) self evs st0 = Some st ->
  all_done st = true -> no_interrupt evs = true ->
  exists rs,
    batch_lookup_outcome (BatchScriptAsync cb) st = Some (Return rs)
    /\ length rs = length uens
    /\ (forall i uen, uens !! i = Some uen -> exists x, In (Reply i x) evs)
    /\ (forall i x, In (Reply i x) evs ->
          exists uen r,
            uens !! i = Some uen /\ complete_lookup x = Return r
            /\ rs !! i = Some (uen, fst r, snd r)).
Proof.
  intros Hstart Hrun Hall Hni.
  destruct (done_run _ _ _ _ _ _ _ Hstart Hrun Hall Hni) as (Hnone & Hc & Hg & Hlen).
  destruct (bookkeeping_run self _ _ _ _ _ _ _ Hstart Hrun) as [Hinv _].
  pose proof (positions_run self _ _ _ _ _ _ _ Hstart Hrun) as Hpos.
  exists (gathered (tasks st)). unfold batch_lookup_outcome. rewrite Hnone, Hall.
  split; [reflexivity|]. split; [exact Hlen|]. split.
  - intros i uen Hi. apply replied_positions_In. apply (pos_replied _ _ Hpos).
    apply done_lookup; [exact Hall|]. rewrite (tasks_length _ _ _ _ Hinv).
    exact (lookup_lt_Some _ _ _ Hi).
  - intros i x Hin. destruct (pos_ending _ _ Hpos i x Hin) as [uen Hi].
    destruct (no_interrupt_Reply _ _ _ Hni Hin) as [[s b] Hr].
    unfold ending in Hi. rewrite Hr in Hi. exists uen, (s, b).
    split; [exact (tags_lookup _ _ _ _ _ (inv_tags _ _ _ _ Hinv) Hi)|].
    split; [exact Hr|]. cbn [fst snd]. now apply gathered_lookup.
Qed.

(** A step of one program is a step of the other: they differ in their
    bookkeeping only. *)
Lemma step_either prog prog' ev st st1 st' :
  step prog self ev st = Some st1 ->
  sem st' = sem st -> tasks st' = tasks st -> sent st' = sent st -> raised st' = raised st ->
  exists st1',
    step prog' self ev st' = Some st1'
    /\ sem st1' = sem st1 /\ tasks st1' = tasks st1 /\ sent st1' = sent st1
    /\ raised st1' = raised st1.
Proof.
  intros Hstep Hsem Htasks Hsent Hraised. destruct ev as [i clock clock'|i x]; cbn [step] in *.
  - rewrite Htasks, Hsem. destruct (tasks st !! i) as [[uen []]|]; try discriminate.
    destruct (0 <? sem st); [|discriminate]. injection Hstep as <-.
    eexists. split; [reflexivity|]. cbn [sem tasks sent raised]. now rewrite Hsent, Hraised.
  - rewrite Htasks. destruct (tasks st !! i) as [[uen []]|]; try discriminate.
    destruct (complete_lookup x) as [[s b]|e]; injection Hstep as <-;
      (eexists; split; [reflexivity|]); cbn [sem tasks sent raised];
      now rewrite Hsem, Hsent, Hraised.
Qed.

Lemma run_either prog prog' evs : forall st st1 st',
  run prog self evs st = Some st1 ->
  sem st' = sem st -> tasks st' = tasks st -> sent st' = sent st -> raised st' = raised st ->
  exists st1',
    run prog' self evs st' = Some st1'
    /\ sem st1' = sem st1 /\ tasks st1' = tasks st1 /\ sent st1' = sent st1
    /\ raised st1' = raised st1.
Proof.
  induction evs as [|ev evs IH]; intros st st1 st' Hrun H1 H2 H3 H4.
  - injection Hrun as <-. now exists st'.
  - cbn [run] in *. destruct (step prog self ev st) as [s|] eqn:Hstep; [|discriminate].
    destruct (step_either prog prog' _ _ _ _ Hstep H1 H2 H3 H4) as (s' & -> & E1 & E2 & E3 & E4).
    exact (IH _ _ _ Hrun E1 E2 E3 E4).
Qed.

(** X7: [main.py] returns the results in the order in which the lookups
    ended (its [results] list is, at every moment, the list of the
    completions so far).  The script goes through the same states on the same
    events and gathers the same results in the order of the identifiers; when
    the run is done the two returned lists are permutations of each other,
    with one result per identifier. *)
Theorem streamlit_results_in_completion_order cb uens concurrency rate0 st0 evs st :
  batch_lookup_start uens concurrency rate0 = Return st0 ->
  run MainStreamlit self evs st0 = Some st ->
  results st = completions uens evs
  /\ exists st',
       run (BatchScriptAsync cb) self evs st0 = Some st'
       /\ tasks st' = tasks st /\ sent st' = sent st
       /\ Permutation (results st) (gathered (tasks st'))
       /\ (all_done st = true -> no_interrupt evs = true ->
           batch_lookup_outcome MainStreamlit st = Some (Return (completions uens evs))
           /\ batch_lookup_outcome (BatchScriptAsync cb) st'
              = Some (Return (gathered (tasks st')))
           /\ length (completions uens evs) = length uens).
Proof.
  intros Hstart Hrun.
  destruct (bookkeeping_run self _ _ _ _ _ _ _ Hstart Hrun) as [Hinv Hbk].
  pose proof (bk_results _ _ _ _ _ Hbk) as Hres. cbn in Hres.
  split; [exact Hres|].
  destruct (run_either MainStreamlit (BatchScriptAsync cb) _ _ _ st0 Hrun
              eq_refl eq_refl eq_refl eq_refl) as (st' & Hrun' & Hsem & Htasks & Hsent & Hraised).
  exists st'. split; [exact Hrun'|]. split; [exact Htasks|]. split; [exact Hsent|].
  split; [rewrite Htasks, Hres; exact (bk_gathered _ _ _ _ _ Hbk)|].
  intros Hall Hni.
  destruct (done_run _ _ _ _ _ _ _ Hstart Hrun Hall Hni) as (Hnone & _ & _ & Hlen).
  unfold batch_lookup_outcome, all_done. rewrite Hraised, Htasks, Hnone.
  fold (all_done st). rewrite Hall, Hres. split; [reflexivity|]. split; [reflexivity|].
  rewrite <- Hlen. exact (Permutation_length (bk_gathered _ _ _ _ _ Hbk)).
Qed.

(** X8: in the script [processed] counts the lookups that ended with a
    result, and the progress callback, when there is one, is called once per
    such lookup with the counts 1, 2, ... and the number of identifiers as
    total; the count never exceeds the total, the total is never 0 in a call,
    and the count is the number of identifiers when the run is done. *)
Theorem progress_counts_completions cb uens concurrency rate0 st0 evs st :
  batch_lookup_start uens concurrency rate0 = Return st0 ->
  run (BatchScriptAsync cb) self evs st0 = Some st ->
  processed st = Z.of_nat (length (completions uens evs))
  /\ progress st
     = (if cb
        then List.map (fun k => (Z.of_nat k, Z.of_nat (length uens)))
               (seq 1 (length (completions uens evs)))
        else [])
  /\ (length (completions uens evs) <= length uens)%nat
  /\ (forall current total, In (current, total) (progress st) -> 1 <= current <= total)
  /\ (all_done st = true -> no_interrupt evs = true ->
      processed st = Z.of_nat (length uens)).
Proof.
  intros Hstart Hrun.
  destruct (bookkeeping_run self _ _ _ _ _ _ _ Hstart Hrun) as [Hinv Hbk].
  pose proof (bk_processed _ _ _ _ _ Hbk) as Hproc. cbn in Hproc.
  pose proof (bk_progress _ _ _ _ _ Hbk) as Hprog. cbn in Hprog.
  assert (Hle : (length (completions uens evs) <= length uens)%nat).
  { rewrite (Permutation_length (bk_gathered _ _ _ _ _ Hbk)).
    rewrite <- (tasks_length _ _ _ _ Hinv). apply gathered_length. }
  split; [exact Hproc|]. split; [destruct cb; exact Hprog|]. split; [exact Hle|]. split.
  - intros current total Hin. rewrite Hprog in Hin. destruct cb; [|destruct Hin].
    apply in_map_iff in Hin. destruct Hin as (k & Hk & Hin). apply in_seq in Hin.
    injection Hk as <- <-. lia.
  - intros Hall Hni.
    destruct (done_run _ _ _ _ _ _ _ Hstart Hrun Hall Hni) as (_ & _ & _ & Hlen).
    rewrite Hproc, (Permutation_length (bk_gathered _ _ _ _ _ Hbk)), Hlen. reflexivity.
Qed.

Lemma entry_clocks_length evs : length (entry_clocks evs) = length (entered_positions evs).
Proof.
  induction evs as [|[i c c'|i x] evs IH]; [reflexivity| |exact IH].
  unfold entry_clocks, entered_positions in *. cbn [flat_map app length]. now rewrite IH.
Qed.

Lemma request_at_length uens l :
  (forall i, In i l -> (i < length uens)%nat) ->
  length (flat_map (request_at self uens) l) = length l.
Proof.
  induction l as [|i l IH]; intros Hl; [reflexivity|].
  cbn [flat_map]. rewrite length_app, IH by (intros j Hj; apply Hl; now right).
  destruct (lookup_lt_is_Some_2 uens i (Hl i (or_introl eq_refl))) as [u Hu].
  now rewrite (request_at_lookup self _ _ _ Hu).
Qed.

Lemma entered_at_most prog uens concurrency evs st :
  invariant prog uens concurrency st -> positions evs st ->
  (length (entered_positions evs) <= length uens)%nat.
Proof.
  intros Hinv Hpos. rewrite <- (length_seq (length uens) 0).
  apply NoDup_incl_length.
  - apply NoDup_ListNoDup. exact (pos_entered_once _ _ Hpos).
  - intros i Hin. apply in_seq.
    pose proof (entered_in_range _ _ _ _ _ _ Hinv Hpos Hin). lia.
Qed.

(** X9: in the script every coroutine appends the reading of the clock to
    the window when it passes the semaphore: the window is the last 100 of
    the initial window followed by these readings, one per request posted.
    When the initial window and the identifiers fit into the capacity (as
    they do after the cut of the driver), nothing is pushed out and, once the
    run is done, the window has grown by the number of identifiers. *)
Theorem script_window_keeps_batch cb uens concurrency rate0 st0 evs st :
  (length rate0 <= 100)%nat ->
  batch_lookup_start uens concurrency rate0 = Return st0 ->
  run (BatchScriptAsync cb) self evs st0 = Some st ->
  rate_ts st = keep_last 100 (rate0 ++ entry_clocks evs)
  /\ length (entry_clocks evs) = length (sent st)
  /\ (length (sent st) <= length uens)%nat
  /\ ((length rate0 + length uens <= 100)%nat ->
      rate_ts st = rate0 ++ entry_clocks evs
      /\ (all_done st = true -> length (rate_ts st) = (length rate0 + length uens)%nat)).
Proof.
  intros Hcap Hstart Hrun.
  destruct (bookkeeping_run self _ _ _ _ _ _ _ Hstart Hrun) as [Hinv Hbk].
  pose proof (positions_run self _ _ _ _ _ _ _ Hstart Hrun) as Hpos.
  assert (Hwin : rate_ts st = keep_last 100 (rate0 ++ entry_clocks evs)).
  { apply (script_window_history self cb rate0 evs st0); [|exact Hrun].
    rewrite keep_last_short by exact Hcap.
    unfold batch_lookup_start in Hstart. destruct (concurrency <? 0); [discriminate|].
    now injection Hstart as <-. }
  assert (Hsent : length (sent st) = length (entered_positions evs)).
  { rewrite (bk_sent _ _ _ _ _ Hbk). apply request_at_length.
    intros i. exact (entered_in_range _ _ _ _ _ _ Hinv Hpos). }
  pose proof (entered_at_most _ _ _ _ _ Hinv Hpos) as Hmost.
  split; [exact Hwin|]. split; [now rewrite entry_clocks_length|]. split; [lia|].
  intros Hfit.
  assert (Hall : rate_ts st = rate0 ++ entry_clocks evs).
  { rewrite Hwin. apply keep_last_short. rewrite length_app, entry_clocks_length. lia. }
  split; [exact Hall|]. intros Hdone.
  rewrite Hall, length_app, entry_clocks_length.
  rewrite (Permutation_length (proj1 (all_entered _ _ _ _ _ Hinv Hpos Hdone))).
  now rewrite length_seq.
Qed.

(** X10: with identifiers to look up and a bound that is not positive,
    nothing is sent.  A negative bound is refused by [asyncio.Semaphore]
    with a [ValueError] before any coroutine is created.  The bound 0 is
    accepted, and then no coroutine can ever pass the semaphore: no step is
    possible, the only run is the empty one and [batch_lookup] never
    returns. *)
Theorem nonpositive_concurrency_sends_nothing prog uens concurrency rate0 :
  concurrency <= 0 -> uens <> [] ->
  match batch_lookup_start uens concurrency rate0 with
  | Raise e =>
      concurrency < 0 /\ exn_class e = "ValueError" /\ is_Exception e = true
  | Return st0 =>
      concurrency = 0
      /\ sent st0 = [] /\ rate_ts st0 = rate0
      /\ (forall ev, step prog self ev st0 = None)
      /\ (forall evs st, run prog self evs st0 = Some st -> evs = [] /\ st = st0)
      /\ batch_lookup_outcome prog st0 = None
  end.
Proof.
  intros Hc Hne. unfold batch_lookup_start.
  destruct (concurrency <? 0) eqn:E.
  - apply Z.ltb_lt in E. now repeat split.
  - apply Z.ltb_ge in E. assert (concurrency = 0) as -> by lia.
    assert (Hstep : forall ev,
              step prog self ev
                {| sem := 0; tasks := List.map (fun uen => (uen, Waiting)) uens;
                   rate_ts := rate0; sent := []; processed := 0; progress := [];
                   results := []; raised := None |} = None).
    { intros [i clock clock'|i x]; cbn [step tasks sem];
        change (List.map ?f uens) with (f <$> uens); rewrite list_lookup_fmap;
        destruct (uens !! i); reflexivity. }
    split; [reflexivity|]. split; [reflexivity|]. split; [reflexivity|].
    split; [exact Hstep|]. split.
    + intros [|ev evs] st Hrun; [injection Hrun as <-; now split|].
      cbn [run] in Hrun. rewrite Hstep in Hrun. discriminate Hrun.
    + destruct uens as [|u rest]; [contradiction|]. reflexivity.
Qed.

Lemma complete_lookup_Raise x e :
  complete_lookup x = Raise e -> read_response x = Raise e /\ is_Exception e = false.
Proof.
  unfold complete_lookup, is_Exception. destruct (read_response x) as [r|e0]; [discriminate|].
  destruct (exn_layer e0) eqn:E; try discriminate. intros H. injection H as <-.
  now rewrite E.
Qed.

Lemma no_interrupt_app h h' : no_interrupt (h ++ h') = no_interrupt h && no_interrupt h'.
Proof. apply forallb_app. Qed.

(** X12: a batch is all or nothing.  When an exchange of the run ended
    with an exception that the client does not handle (an interrupt, a
    cancellation), [batch_lookup] does not return a list: it raises the
    exception of such an exchange, whatever the other lookups returned. *)
Theorem interrupt_discards_results prog uens concurrency rate0 st0 evs st :
  batch_lookup_start uens concurrency rate0 = Return st0 ->
  run prog self evs st0 = Some st ->
  no_interrupt evs = false ->
  exists e i x,
    batch_lookup_outcome prog st = Some (Raise e)
    /\ In (Reply i x) evs
    /\ read_response x = Raise e
    /\ is_Exception e = false.
Proof.
  intros Hstart Hrun Hni.
  assert (H0 : raised st0 = None).
  { unfold batch_lookup_start in Hstart. destruct (concurrency <? 0); [discriminate|].
    now injection Hstart as <-. }
  enough (Hraised : exists e i x,
            raised st = Some e /\ In (Reply i x) evs /\ read_response x = Raise e
            /\ is_Exception e = false).
  { destruct Hraised as (e & i & x & Hr & Hin & Hx & He). exists e, i, x.
    unfold batch_lookup_outcome. rewrite Hr. now repeat split. }
  enough (Hboth : (no_interrupt evs = true -> raised st = None)
                  /\ (no_interrupt evs = false ->
                      exists e i x, raised st = Some e /\ In (Reply i x) evs
                                    /\ read_response x = Raise e /\ is_Exception e = false))
    by exact (proj2 Hboth Hni).
  refine (run_history prog self
            (fun h s =>
               (no_interrupt h = true -> raised s = None)
               /\ (no_interrupt h = false ->
                   exists e i x, raised s = Some e /\ In (Reply i x) h
                                 /\ read_response x = Raise e /\ is_Exception e = false))
            _ evs [] st0 st _ Hrun); [|split; [intros _; exact H0|discriminate]].
  clear. intros h ev s s' [IHt IHf] Hstep. rewrite no_interrupt_app.
  assert (Hkeep : forall e, raised s = Some e -> raised s' = Some e).
  { intros e Hr. destruct ev as [j clock clock'|j y].
    - destruct (step_Enter _ _ _ _ _ _ _ Hstep) as (uen & _ & _ & _ & _ & _ & _ & _ & Hr').
      now rewrite Hr'.
    - cbn [step] in Hstep. destruct (tasks s !! j) as [[uen []]|]; try discriminate.
      destruct (complete_lookup y) as [[s1 b1]|e1]; injection Hstep as <-; cbn [raised];
        now rewrite Hr. }
  destruct (no_interrupt h) eqn:Hh; cbn [andb].
  - specialize (IHt eq_refl). cbn [no_interrupt forallb]. rewrite andb_true_r.
    destruct ev as [i clock clock'|i x].
    + split; [intros _|discriminate].
      destruct (step_Enter _ _ _ _ _ _ _ Hstep) as (uen & _ & _ & _ & _ & _ & _ & _ & Hr').
      now rewrite Hr'.
    + cbn [interrupts step] in *. destruct (tasks s !! i) as [[uen []]|]; try discriminate.
      destruct (complete_lookup x) as [[s1 b1]|e] eqn:Hx; injection Hstep as <-; cbn [raised negb].
      * split; [intros _; exact IHt|discriminate].
      * split; [discriminate|intros _]. rewrite IHt.
        destruct (complete_lookup_Raise _ _ Hx) as [Hread He].
        exists e, i, x. split; [reflexivity|]. split; [apply in_or_app; right; now left|].
        now split.
  - split; [discriminate|intros _].
    destruct (IHf eq_refl) as (e & i & x & Hr & Hin & Hx & He). exists e, i, x.
    split; [exact (Hkeep _ Hr)|]. split; [apply in_or_app; now left|now split].
Qed.

(** *** The sequential program as a schedule *)

Lemma sequential_run env : forall uens pre st rs w,
  tasks st = pre ++ List.map (fun u => (u, Waiting)) uens ->
  0 < sem st ->
  Sequential.batch_lookup_from self env (length pre) uens (rate_ts st) (results st)
  = Return (rs, w) ->
  exists st',
    run MainStreamlit self (sequential_schedule self env (length pre) uens) st = Some st'
    /\ results st' = rs /\ rate_ts st' = w /\ sem st' = sem st /\ raised st' = raised st
    /\ sent st' = sent st ++ List.map (post_request self) uens
    /\ exists fin, tasks st' = pre ++ fin /\ forallb is_done fin = true.
Proof.
  induction uens as [|u uens IH]; intros pre st rs w Htasks Hsem Hseq.
  - cbn in Hseq. injection Hseq as <- <-. exists st. cbn [run sequential_schedule List.map].
    rewrite app_nil_r. repeat (split; [reflexivity|]). exists []. split; [|reflexivity].
    cbn in Htasks. exact Htasks.
  - cbn [Sequential.batch_lookup_from] in Hseq. unfold mbind, py_bind in Hseq.
    unfold search_gst_registered in Hseq.
    set (x := Sequential.post (env (length pre)) (post_request self u)) in *.
    destruct (complete_lookup x) as [[s b]|e] eqn:Hx; cbn [bind fst snd] in Hseq;
      [|discriminate Hseq].
    assert (Hi : tasks st !! length pre = Some (u, Waiting)).
    { rewrite Htasks. now apply list_lookup_middle. }
    cbn [sequential_schedule run]. fold x. cbn [step]. rewrite Hi.
    destruct (0 <? sem st) eqn:E; [|apply Z.ltb_ge in E; lia].
    cbn [step tasks].
    assert (Hi' : <[length pre := (u, InFlight)]> (tasks st) !! length pre
                  = Some (u, InFlight)).
    { apply list_lookup_insert_eq. exact (lookup_lt_Some _ _ _ Hi). }
    rewrite Hi', Hx. cbn [sem tasks rate_ts sent processed progress results raised record].
    match goal with |- context [run _ _ _ ?s] => set (st2 := s) end.
    destruct (IH (pre ++ [(u, Finished (s, b))]) st2 rs w) as (st' & Hrun & H1 & H2 & H3 & H4 & H5 & fin & H6 & H7).
    + subst st2. cbn [tasks]. rewrite list_insert_insert_eq, Htasks.
      rewrite insert_app_r_alt by lia. rewrite Nat.sub_diag. cbn [List.map].
      now rewrite <- app_assoc.
    + subst st2. cbn [sem]. lia.
    + subst st2. cbn [rate_ts results]. rewrite length_app. cbn [length].
      rewrite Nat.add_1_r. exact Hseq.
    + rewrite length_app in Hrun. cbn [length] in Hrun. rewrite Nat.add_1_r in Hrun.
      exists st'. split; [exact Hrun|]. split; [exact H1|]. split; [exact H2|].
      subst st2. cbn [sem raised sent] in *. split; [lia|]. split; [exact H4|].
      split; [rewrite H5, <- app_assoc; reflexivity|].
      exists ((u, Finished (s, b)) :: fin). split; [now rewrite H6, <- app_assoc|].
      cbn [forallb is_done snd]. exact H7.
Qed.

Lemma sequential_schedule_length env uens : forall idx,
  length (sequential_schedule self env idx uens) = (2 * length uens)%nat.
Proof.
  induction uens as [|u l IH]; intros idx; [reflexivity|].
  cbn [sequential_schedule length]. rewrite IH. lia.
Qed.

(** X11: the sequential [batch_lookup] of [main_requests.py] is one
    schedule of the concurrent [batch_lookup] of [main.py]: when it returns,
    the run in which every coroutine enters and is answered before the next
    one enters is a run of the dispatcher (for any bound of at least 1) that
    returns the same list, leaves the same window and posts the requests of
    the identifiers in their order. *)
Theorem sequential_is_a_schedule env uens concurrency rate0 rs w :
  1 <= concurrency ->
  Sequential.batch_lookup self env uens rate0 = Return (rs, w) ->
  exists st0 st,
    batch_lookup_start uens concurrency rate0 = Return st0
    /\ run MainStreamlit self (sequential_schedule self env 0 uens) st0 = Some st
    /\ batch_lookup_outcome MainStreamlit st = Some (Return rs)
    /\ rate_ts st = w
    /\ sent st = List.map (post_request self) uens
    /\ length (sequential_schedule self env 0 uens) = (2 * length uens)%nat.
Proof.
  intros Hc Hseq. unfold batch_lookup_start.
  destruct (concurrency <? 0) eqn:E; [apply Z.ltb_lt in E; lia|].
  eexists. match goal with |- context [Return ?s = Return _] => set (st0 := s) end.
  destruct (sequential_run env uens [] st0 rs w) as (st & Hrun & H1 & H2 & H3 & H4 & H5 & fin & H6 & H7).
  - reflexivity.
  - cbn. lia.
  - exact Hseq.
  - exists st. split; [reflexivity|]. split; [exact Hrun|]. split; [|split; [exact H2|split; [exact H5|]]].
    + unfold batch_lookup_outcome, all_done. rewrite H4, H6. cbn [raised app].
      now rewrite H7, H1.
    + apply sequential_schedule_length.
Qed.

(** *** The window of [main.py] *)

Lemma evict_split q l :
  exists dropped, l = dropped ++ evict q l /\ forallb (expired q) dropped = true.
Proof.
  induction l as [|t0 rest (dropped & Hl & Hexp)]; [now exists []|].
  cbn [evict]. fold (expired q t0). destruct (expired q t0) eqn:Ht.
  - exists (t0 :: dropped). cbn [app forallb]. rewrite Ht, Hexp. split; [now f_equal|reflexivity].
  - now exists [].
Qed.

Lemma entry_stamps_length evs : length (entry_stamps evs) = length (entered_positions evs).
Proof.
  induction evs as [|[i c c'|i x] evs IH]; [reflexivity| |exact IH].
  unfold entry_stamps, entered_positions in *. cbn [flat_map app length]. now rewrite IH.
Qed.

(** X20: in [main.py] every coroutine that passes the semaphore first
    evicts against the clock and then appends a second reading of it.  When
    the initial window and the identifiers fit into the capacity (as they do
    after the cut of the batch), the window is the initial window followed by
    these readings, less a prefix of time stamps each of which was older
    than the window at some entry: the capacity of the deque drops
    nothing. *)
Theorem streamlit_window_drops_only_expired uens concurrency rate0 st0 evs st :
  (length rate0 + length uens <= 100)%nat ->
  batch_lookup_start uens concurrency rate0 = Return st0 ->
  run MainStreamlit self evs st0 = Some st ->
  exists dropped,
    rate0 ++ entry_stamps evs = dropped ++ rate_ts st
    /\ (forall t, In t dropped ->
          exists i clock clock', In (Enter i clock clock') evs /\ expired clock t = true)
    /\ length (entry_stamps evs) = length (sent st)
    /\ (length (rate_ts st) <= length rate0 + length (sent st))%nat
    /\ (length (rate_ts st) <= 100)%nat.
Proof.
  intros Hfit Hstart Hrun.
  destruct (bookkeeping_run self _ _ _ _ _ _ _ Hstart Hrun) as [Hinv Hbk].
  pose proof (positions_run self _ _ _ _ _ _ _ Hstart Hrun) as Hpos.
  assert (Hsent : length (sent st) = length (entered_positions evs)).
  { rewrite (bk_sent _ _ _ _ _ Hbk). apply request_at_length.
    intros i. exact (entered_in_range _ _ _ _ _ _ Hinv Hpos). }
  pose proof (entered_at_most _ _ _ _ _ Hinv Hpos) as Hmost.
  enough (Hwin : exists dropped,
            rate0 ++ entry_stamps evs = dropped ++ rate_ts st
            /\ (forall t, In t dropped ->
                  exists i clock clock', In (Enter i clock clock') evs /\ expired clock t = true)
            /\ (length (rate_ts st) <= length rate0 + length (entered_positions evs))%nat).
  { destruct Hwin as (dropped & H1 & H2 & H3). exists dropped.
    split; [exact H1|]. split; [exact H2|]. split; [now rewrite entry_stamps_length|].
    split; lia. }
  assert (Hstart' : invariant MainStreamlit uens concurrency st0 /\ positions [] st0
                    /\ rate_ts st0 = rate0).
  { split; [exact (proj1 (invariant_start MainStreamlit _ _ _ _ Hstart))|].
    split; [exact (positions_start _ _ _ _ Hstart)|].
    unfold batch_lookup_start in Hstart. destruct (concurrency <? 0); [discriminate|].
    now injection Hstart as <-. }
  destruct Hstart' as (Hinv0 & Hpos0 & Hrate0).
  refine (proj2 (proj2
    (run_history MainStreamlit self
       (fun h s =>
          invariant MainStreamlit uens concurrency s /\ positions h s
          /\ exists dropped,
               rate0 ++ entry_stamps h = dropped ++ rate_ts s
               /\ (forall t, In t dropped ->
                     exists i clock clock',
                       In (Enter i clock clock') h /\ expired clock t = true)
               /\ (length (rate_ts s) <= length rate0 + length (entered_positions h))%nat)
       _ evs [] st0 st _ Hrun))).
  - clear - Hfit. intros h ev s s' (Hinv & Hpos & dropped & Hwin & Hexp & Hlen) Hstep.
    pose proof (proj1 (invariant_step MainStreamlit self _ _ _ _ _ Hinv Hstep)) as Hinv'.
    pose proof (positions_step self MainStreamlit _ _ _ _ Hpos Hstep) as Hpos'.
    split; [exact Hinv'|]. split; [exact Hpos'|].
    pose proof (entered_at_most _ _ _ _ _ Hinv' Hpos') as Hmost.
    unfold entry_stamps in *. rewrite flat_map_app. fold (entry_stamps h) in *.
    rewrite entered_positions_app, length_app in *.
    destruct ev as [i clock clock'|i x].
    + destruct (step_Enter _ _ _ _ _ _ _ Hstep) as (uen & _ & _ & _ & _ & Hrate & _).
      cbn [flat_map app length entered_positions] in *.
      destruct (evict_split clock (rate_ts s)) as (old & Hold & Hold').
      pose proof (evict_length clock (rate_ts s)) as Hev.
      assert (Hrate' : rate_ts s' = evict clock (rate_ts s) ++ [clock']).
      { rewrite Hrate. cbn [record]. unfold SessionLimiter.record_call.
        cbn [allowed_calls_remaining snd query_time now_or_clock].
        unfold deque_append, RATE_LIMIT_MAX. rewrite length_app. cbn [length].
        destruct (100 <? _) eqn:E; [apply Z.ltb_lt in E; lia|reflexivity]. }
      exists (dropped ++ old). split; [|split].
      * rewrite Hrate', app_assoc, Hwin, <- !app_assoc. f_equal.
        rewrite app_assoc, <- Hold. reflexivity.
      * intros t Ht. apply in_app_or in Ht. destruct Ht as [Ht|Ht].
        -- destruct (Hexp t Ht) as (j & c & c' & Hin & He). exists j, c, c'.
           split; [apply in_or_app; now left|exact He].
        -- exists i, clock, clock'. split; [apply in_or_app; right; now left|].
           rewrite forallb_forall in Hold'. exact (Hold' t Ht).
      * rewrite Hrate', length_app. cbn [length]. lia.
    + destruct (step_Reply _ _ _ _ _ _ Hstep) as (uen & t & _ & _ & _ & Hrate & _).
      cbn [flat_map app length entered_positions]. rewrite app_nil_r, Hrate.
      exists dropped. split; [exact Hwin|]. split; [|lia].
      intros t0 Ht. destruct (Hexp t0 Ht) as (j & c & c' & Hin & He). exists j, c, c'.
      split; [apply in_or_app; now left|exact He].
  - split; [exact Hinv0|]. split; [exact Hpos0|]. exists [].
    cbn [entry_stamps flat_map app entered_positions length]. rewrite app_nil_r, Hrate0.
    split; [reflexivity|]. split; [intros t []|lia].
Qed.

End DispatcherRuns.

(** ** The results of a batch *)

Section BatchResults.
Import Py RateLimiter Client Projector Dispatcher Observations History.

Variable self : IRASClient.




End BatchResults.

(** ** How the projection ends *)

Section ProjectorOutcomes.
Import Py Client Projector Statements Outcomes.

Lemma projection_ext df col rs1 rs2 :
  (forall series cell,
     select_column col df = Return series -> In cell series ->
     option_map snd (spec_first_result (row_key cell) rs1)
     = option_map snd (spec_first_result (row_key cell) rs2)) ->
  process_batch_results df col rs1 = process_batch_results df col rs2.
Proof.
  intros Hagree. unfold process_batch_results, mbind, py_bind.
  destruct (select_column col df) as [series|e]; [|reflexivity]. cbn [bind].
  rewrite (map_result_ext
             (fun cell => extract_row (build_out_map rs1) (row_key cell))
             (fun cell => extract_row (build_out_map rs2) (row_key cell))); [reflexivity|].
  intros cell Hin. rewrite !extract_row_first_result.
  specialize (Hagree series cell eq_refl Hin).
  destruct (spec_first_result (row_key cell) rs1) as [[s1 b1]|],
           (spec_first_result (row_key cell) rs2) as [[s2 b2]|];
    cbn [option_map snd] in Hagree; congruence.
Qed.

Lemma spec_first_result_with_status f results u :
  option_map snd (spec_first_result u (with_status f results))
  = option_map snd (spec_first_result u results).
Proof.
  induction results as [|[[uen s] b] results IH]; [reflexivity|].
  cbn [with_status List.map fst snd]. fold (with_status f results).
  rewrite !spec_first_result_cons. destruct (String.eqb uen u); [reflexivity|exact IH].
Qed.

(** X13: the HTTP status of a result plays no part in the projection:
    replacing the statuses by anything gives the same table (the column
    [response-status] is the [returnCode] of the body). *)
Theorem projection_ignores_http_status f df col results :
  process_batch_results df col (with_status f results)
  = process_batch_results df col results.
Proof.
  apply projection_ext. intros series cell _ _. apply spec_first_result_with_status.
Qed.

Lemma spec_first_result_In results : forall u s b,
  NoDup (List.map Dispatcher.uen_of results) ->
  spec_first_result u results = Some (s, b) <-> In (u, s, b) results.
Proof.
  induction results as [|[[uen s0] b0] results IH]; intros u s b Hnd.
  - split; [discriminate|intros []].
  - cbn [List.map Dispatcher.uen_of fst] in Hnd. apply NoDup_cons in Hnd.
    destruct Hnd as [Hnotin Hnd]. rewrite spec_first_result_cons. cbn [In].
    destruct (String.eqb uen u) eqn:E.
    + apply String.eqb_eq in E. subst uen. split.
      * intros H. injection H as <- <-. now left.
      * intros [H|H]; [now injection H as <- <-|]. exfalso. apply Hnotin.
        apply list_elem_of_In. apply in_map_iff. now exists (u, s, b).
    + apply String.eqb_neq in E. rewrite IH by exact Hnd. split; [now right|].
      intros [H|H]; [|exact H]. injection H as -> _ _. contradiction.
Qed.

(** X14: when the results bear distinct identifiers their order is
    immaterial: two result lists that are permutations of each other give the
    same table.  So the list of [main.py] (order of completion) and the list
    of the script (order of the identifiers) project alike for distinct
    identifiers. *)
Theorem projection_ignores_result_order df col rs1 rs2 :
  Permutation rs1 rs2 ->
  NoDup (List.map Dispatcher.uen_of rs1) ->
  process_batch_results df col rs1 = process_batch_results df col rs2.
Proof.
  intros Hperm Hnd1.
  assert (Hnd2 : NoDup (List.map Dispatcher.uen_of rs2)).
  { rewrite <- (Permutation_map Dispatcher.uen_of Hperm). exact Hnd1. }
  apply projection_ext. intros series cell _ _. f_equal.
  destruct (spec_first_result (row_key cell) rs1) as [[s1 b1]|] eqn:E1.
  - symmetry. apply (spec_first_result_In _ _ _ _ Hnd2).
    apply (Permutation_in _ Hperm). now apply (spec_first_result_In _ _ _ _ Hnd1).
  - destruct (spec_first_result (row_key cell) rs2) as [[s2 b2]|] eqn:E2; [|reflexivity].
    apply (spec_first_result_In _ _ _ _ Hnd2) in E2.
    apply (Permutation_in _ (Permutation_sym Hperm)) in E2.
    apply (spec_first_result_In _ _ _ _ Hnd1) in E2. congruence.
Qed.

Lemma select_column_labels col df :
  In col (labels df) <-> exists series, select_column col df = Return series.
Proof.
  induction df as [|[l cells] df IH].
  - split; [intros []|intros [series H]; discriminate H].
  - cbn [labels List.map fst In select_column]. fold (labels df).
    destruct (String.eqb l col) eqn:E.
    + apply String.eqb_eq in E. split; [intros _; now exists cells|intros _; now left].
    + apply String.eqb_neq in E. rewrite <- IH. split; [intros [H|H]; [contradiction|exact H]|now right].
Qed.

Lemma select_column_absent col df :
  ~ In col (labels df) -> select_column col df = Raise (KeyError col).
Proof.
  induction df as [|[l cells] df IH]; intros Hnotin; [reflexivity|].
  cbn [labels List.map fst In select_column] in *. fold (labels df) in Hnotin.
  destruct (String.eqb l col) eqn:E.
  - apply String.eqb_eq in E. exfalso. apply Hnotin. now left.
  - apply IH. intros H. apply Hnotin. now right.
Qed.

Lemma rows_of_row_derivable results series :
  forallb (row_derivable results) series = true ->
  map_result (fun cell => extract_row (build_out_map results) (row_key cell)) series
  = Return (List.map (spec_row results) series).
Proof.
  intros Hall. apply map_result_total. intros cell Hin.
  rewrite forallb_forall in Hall. specialize (Hall cell Hin).
  rewrite extract_row_first_result. unfold row_derivable in Hall. unfold spec_row.
  destruct (spec_first_result (row_key cell) results) as [[s b]|]; [|reflexivity].
  now apply derive_derivable.
Qed.

Lemma rows_of_not_row_derivable results series :
  forallb (row_derivable results) series = false ->
  exists v,
    map_result (fun cell => extract_row (build_out_map results) (row_key cell)) series
    = Raise (AttributeError v "get").
Proof.
  induction series as [|cell series IH]; [discriminate|].
  cbn [forallb map_result]. unfold mbind, py_bind.
  rewrite extract_row_first_result. unfold row_derivable at 1.
  destruct (spec_first_result (row_key cell) results) as [[s b]|].
  - destruct (derivable b) eqn:Hb.
    + rewrite (derive_derivable _ Hb). cbn [andb bind]. intros H.
      destruct (IH H) as [v ->]. now exists v.
    + intros _. destruct (derive_not_derivable _ Hb) as [v ->]. now exists v.
  - cbn [andb bind]. intros H. destruct (IH H) as [v ->]. now exists v.
Qed.

(** X15: how the projection ends.  It raises [KeyError] exactly when the
    table has no column with the given name.  Otherwise, on a table with at
    least one row, it returns (the table with the three columns assigned
    from the first results of the row keys) exactly when, for every row, the
    first result of the row's key can be derived; if not it raises an
    [AttributeError].  A body that cannot be derived does no harm when it
    belongs to no row or is not the first result of its identifier. *)
Theorem projection_outcomes df col results :
  (In col (labels df) <-> exists series, select_column col df = Return series)
  /\ (~ In col (labels df) ->
      process_batch_results df col results = Raise (KeyError col))
  /\ (forall series,
        select_column col df = Return series -> series <> [] ->
        if forallb (row_derivable results) series
        then process_batch_results df col results
             = assign_derived (List.map (spec_row results) series) df
             /\ exists out, process_batch_results df col results = Return out
        else exists v,
               process_batch_results df col results = Raise (AttributeError v "get")).
Proof.
  split; [apply select_column_labels|]. split.
  - intros Hnotin. unfold process_batch_results, mbind, py_bind.
    now rewrite (select_column_absent _ _ Hnotin).
  - intros series Hsel Hne. unfold process_batch_results, mbind, py_bind.
    rewrite Hsel. cbn [bind].
    destruct (forallb (row_derivable results) series) eqn:Hall.
    + rewrite (rows_of_row_derivable _ _ Hall). cbn [bind]. split; [reflexivity|].
      destruct series as [|cell series]; [contradiction|]. cbn [List.map assign_derived].
      eexists. reflexivity.
    + destruct (rows_of_not_row_derivable _ _ Hall) as [v ->]. now exists v.
Qed.

(** X16: a body that the client returns was either parsed from a response
    that announced JSON, or was made by the client itself (the text of
    another response under ["raw"], the description of a failure under
    ["error"]).  A body of the second kind never makes the projection fail:
    it can be derived and serialised, its row gets an empty
    [response-status] and an empty [response-registrationId], and the summary
    never counts it as a success. *)
Theorem client_made_bodies_project x r :
  complete_lookup x = Return r ->
  parsed_from_json x r
  \/ (derivable (snd r) = true
      /\ exists json_str,
           json_dumps (snd r) = Return json_str
           /\ derive (snd r) = Return (empty_str, empty_str, VStr json_str)
           /\ forall uen, Driver.is_success (uen, fst r, snd r) = false).
Proof.
  unfold complete_lookup. destruct x as [resp|e]; cbn [read_response].
  - unfold mbind, py_bind, mret, py_ret.
    destruct (String.prefix "application/json" (default EmptyString (content_type resp))) eqn:Hct.
    + destruct (json resp) as [body|e] eqn:Hjson; cbn [bind].
      * intros H. injection H as <-. left. exists resp. now repeat split.
      * destruct (exn_layer e); intros H; try discriminate H; injection H as <-;
          right; (split; [reflexivity|]); eexists; (split; [reflexivity|]); now split.
    + destruct (text resp) as [raw|e]; cbn [bind].
      * intros H. injection H as <-. right. split; [reflexivity|]. eexists.
        split; [reflexivity|]. now split.
      * destruct (exn_layer e); intros H; try discriminate H; injection H as <-;
          right; (split; [reflexivity|]); eexists; (split; [reflexivity|]); now split.
  - destruct (exn_layer e); intros H; try discriminate H; injection H as <-;
      right; (split; [reflexivity|]); eexists; (split; [reflexivity|]); now split.
Qed.

End ProjectorOutcomes.

(** ** The command-line driver *)

Section CommandLine.
Import Py Client Projector RateLimiter Statements Driver.

Lemma is_set_default v : is_set v = true -> default EmptyString v <> EmptyString.
Proof. destruct v as [[|c s]|]; cbn; congruence. Qed.

Lemma urls_get_In key urls url : urls_get key urls = Some url -> In (key, url) urls.
Proof.
  induction urls as [|[k u] urls IH]; [discriminate|]. cbn [urls_get].
  destruct (String.eqb k key) eqn:E.
  - apply String.eqb_eq in E. intros H. injection H as <-. subst k. now left.
  - intros H. right. now apply IH.
Qed.

Lemma dispatched_firstn df can_call :
  dispatched df can_call = firstn (Z.to_nat can_call) (identifiers df).
Proof.
  unfold dispatched. destruct (Z.of_nat (length (identifiers df)) >? can_call) eqn:E.
  - reflexivity.
  - rewrite Z.gtb_ltb in E. apply Z.ltb_ge in E. symmetry. apply firstn_all2. lia.
Qed.

Lemma identifiers_stripped df u :
  In u (identifiers df) -> u <> EmptyString /\ strip u = u.
Proof.
  intros Hin. apply identifiers_spec in Hin. destruct Hin as (Hne & cell & _ & ->).
  split; [exact Hne|apply strip_idempotent].
Qed.

Lemma plan_inversion getenv args input_exists read_excel clock rate_ts p :
  main_async_plan getenv args input_exists read_excel clock rate_ts = inr p ->
  exists id secret url column rest,
    getenv ENV_VAR_CLIENT_ID = Some id /\ id <> EmptyString
    /\ getenv ENV_VAR_CLIENT_SECRET = Some secret /\ secret <> EmptyString
    /\ input_exists = true
    /\ read_excel = Return (column :: rest)
    /\ 0 < RATE_LIMIT_MAX - Z.of_nat (length (evict clock rate_ts))
    /\ urls_get (lower (env args)) URLS = Some url
    /\ p = {| plan_client := {| base_url := url; client_id := id; client_secret := secret |};
              plan_df_in := column :: rest;
              plan_col_a_name := col_a_name (column :: rest);
              plan_uens :=
                firstn (Z.to_nat (RATE_LIMIT_MAX - Z.of_nat (length (evict clock rate_ts))))
                  (identifiers (column :: rest));
              plan_concurrency := concurrency args;
              plan_rate_ts := evict clock rate_ts |}.
Proof.
  unfold main_async_plan.
  destruct (getenv ENV_VAR_CLIENT_ID) as [id|]; [|discriminate].
  destruct (getenv ENV_VAR_CLIENT_SECRET) as [secret|];
    [|cbn [is_set negb]; rewrite orb_true_r; discriminate].
  cbn [is_set default].
  destruct (nonempty id) eqn:Hid; [|discriminate].
  destruct (nonempty secret) eqn:Hsecret; [|discriminate].
  cbn [negb orb]. destruct input_exists; [|discriminate]. cbn [negb].
  destruct read_excel as [df_in|e]; [|destruct (is_Exception e); discriminate].
  destruct df_in as [|column rest]; [discriminate|].
  cbn [allowed_calls_remaining fst snd query_time].
  destruct (RATE_LIMIT_MAX - Z.of_nat (length (evict clock rate_ts)) <=? 0) eqn:Hbudget;
    [discriminate|].
  apply Z.leb_gt in Hbudget.
  destruct (urls_get (lower (env args)) URLS) as [url|] eqn:Hurl; [|discriminate].
  intros H. injection H as <-. rewrite dispatched_firstn.
  exists id, secret, url, column, rest.
  split; [reflexivity|]. split; [now destruct id|]. split; [reflexivity|].
  split; [now destruct secret|]. now repeat split.
Qed.

(** X17: when [main_async] reaches the dispatch, both credentials are set
    and not empty and are those of the client, the environment (in any
    letter case) names one of the two URLs, which is the URL of the client,
    the table was read and has a column, the identifiers are the first ones
    of the first column, as many as calls remain, each non-empty and free of
    boundary white space, and the window together with the identifiers fits
    into the limit of 100. *)
Theorem plan_respects_budget getenv args input_exists read_excel clock rate_ts p :
  main_async_plan getenv args input_exists read_excel clock rate_ts = inr p ->
  client_id (plan_client p) <> EmptyString
  /\ getenv ENV_VAR_CLIENT_ID = Some (client_id (plan_client p))
  /\ client_secret (plan_client p) <> EmptyString
  /\ getenv ENV_VAR_CLIENT_SECRET = Some (client_secret (plan_client p))
  /\ In (lower (env args), base_url (plan_client p)) URLS
  /\ input_exists = true
  /\ read_excel = Return (plan_df_in p)
  /\ plan_df_in p <> []
  /\ plan_col_a_name p = col_a_name (plan_df_in p)
  /\ plan_concurrency p = concurrency args
  /\ plan_rate_ts p = evict clock rate_ts
  /\ plan_uens p
     = firstn (Z.to_nat (RATE_LIMIT_MAX - Z.of_nat (length (plan_rate_ts p))))
         (identifiers (plan_df_in p))
  /\ (length (plan_rate_ts p) + length (plan_uens p) <= 100)%nat
  /\ (forall u, In u (plan_uens p) -> u <> EmptyString /\ strip u = u).
Proof.
  intros Hplan.
  destruct (plan_inversion _ _ _ _ _ _ _ Hplan)
    as (id & secret & url & column & rest & Hid & Hid' & Hsecret & Hsecret' & Hin & Hread
        & Hbudget & Hurl & ->).
  cbn [plan_client plan_df_in plan_col_a_name plan_uens plan_concurrency plan_rate_ts
       client_id client_secret base_url].
  assert (Hlen : (length (evict clock rate_ts)
                  + length (firstn (Z.to_nat (RATE_LIMIT_MAX
                                               - Z.of_nat (length (evict clock rate_ts))))
                              (identifiers (column :: rest))) <= 100)%nat).
  { rewrite length_firstn. unfold RATE_LIMIT_MAX in *. lia. }
  split; [exact Hid'|]. split; [exact Hid|]. split; [exact Hsecret'|].
  split; [exact Hsecret|]. split; [exact (urls_get_In _ _ _ Hurl)|].
  split; [exact Hin|]. split; [exact Hread|]. split; [discriminate|].
  split; [reflexivity|]. split; [reflexivity|]. split; [reflexivity|].
  split; [reflexivity|]. split; [exact Hlen|].
  intros u Hu. apply firstn_incl in Hu. exact (identifiers_stripped _ _ Hu).
Qed.

Lemma filter_partition {A} (f g : A -> bool) (l : list A) :
  (length (List.filter f l) + length (List.filter g l)
   = length (List.filter (fun a => f a || g a) l)
     + length (List.filter (fun a => f a && g a) l))%nat.
Proof.
  induction l as [|a l IH]; [reflexivity|]. cbn [List.filter].
  destruct (f a), (g a); cbn [orb andb length]; lia.
Qed.

Lemma filter_complement {A} (f : A -> bool) (l : list A) :
  (length (List.filter f l) + length (List.filter (fun a => negb (f a)) l)
   = length l)%nat.
Proof.
  induction l as [|a l IH]; [reflexivity|]. cbn [List.filter].
  destruct (f a); cbn [negb length]; lia.
Qed.

(** X19: the summary of [main_async].  Both counts lie between 0 and the
    number of results; [Others] is the number of results that are neither a
    success nor an error minus the number of results that are both, so it is
    not negative when no result is both; a result that the client made for a
    failed exchange counts as an error and not as a success. *)
Theorem summary_counts results :
  0 <= success_count results <= Z.of_nat (length results)
  /\ 0 <= error_count results <= Z.of_nat (length results)
  /\ others_count results
     = Z.of_nat (length (List.filter (fun r => negb (is_success r || is_error r)) results))
       - Z.of_nat (length (List.filter (fun r => is_success r && is_error r) results))
  /\ (forallb (fun r => negb (is_success r && is_error r)) results = true ->
      0 <= others_count results)
  /\ (forall uen e,
        is_error (uen, 0, error_body e) = true
        /\ is_success (uen, 0, error_body e) = false).
Proof.
  unfold others_count, success_count, error_count.
  pose proof (filter_partition is_success is_error results) as Hpart.
  pose proof (filter_complement (fun r => is_success r || is_error r) results) as Hcomp.
  pose proof (filter_complement is_success results) as Hs.
  pose proof (filter_complement is_error results) as He.
  cbv beta in *.
  split; [lia|]. split; [lia|]. split; [lia|]. split; [|now split].
  intros Hnone.
  assert (Hboth : List.filter (fun r => is_success r && is_error r) results = []).
  { clear -Hnone. induction results as [|r l IH]; [reflexivity|].
    cbn [forallb List.filter] in *. apply andb_true_iff in Hnone.
    destruct Hnone as [Hr Hl]. apply negb_true_iff in Hr. rewrite Hr. now apply IH. }
  rewrite Hboth in Hpart. cbn [length] in Hpart. lia.
Qed.

End CommandLine.

Section EndToEnd.
Import Py Client Projector RateLimiter Dispatcher Statements Observations History Driver.

(** X18: the driver, the dispatcher and the projector together.  When
    [main_async] dispatches and the batch is done without interrupt, the
    results are those of the planned identifiers in their order, the window
    holds the unexpired time stamps followed by one per lookup and stays
    within the limit, and the first column is found by its name.  When the
    projection returns, a row whose key is blank or was cut by the limit gets
    three empty fields, and a row whose key was dispatched gets the fields
    derived from the body that the client returned for the first coroutine of
    that key. *)
Theorem planned_batch_end_to_end getenv args input_exists read_excel clock rate_ts0 p
    st0 evs st :
  main_async_plan getenv args input_exists read_excel clock rate_ts0 = inr p ->
  batch_lookup_start (plan_uens p) (plan_concurrency p) (plan_rate_ts p) = Return st0 ->
  run (BatchScriptAsync true) (plan_client p) evs st0 = Some st ->
  all_done st = true -> no_interrupt evs = true ->
  exists rs,
    batch_lookup_outcome (BatchScriptAsync true) st = Some (Return rs)
    /\ List.map uen_of rs = plan_uens p
    /\ rate_ts st = evict clock rate_ts0 ++ entry_clocks evs
    /\ (length (rate_ts st) = length (evict clock rate_ts0) + length (plan_uens p))%nat
    /\ (length (rate_ts st) <= 100)%nat
    /\ select_column (plan_col_a_name p) (plan_df_in p)
       = Return (first_column (plan_df_in p))
    /\ forall out i cell,
         process_batch_results (plan_df_in p) (plan_col_a_name p) rs = Return out ->
         first_column (plan_df_in p) !! i = Some cell ->
         (~ In (row_key cell) (plan_uens p) -> derived_at i out = Some all_empty)
         /\ (row_key cell = EmptyString -> derived_at i out = Some all_empty)
         /\ (forall j,
               plan_uens p !! j = Some (row_key cell) ->
               (forall k, (k < j)%nat -> plan_uens p !! k <> Some (row_key cell)) ->
               exists x r,
                 In (Reply j x) evs
                 /\ complete_lookup x = Return r
                 /\ derivable (snd r) = true
                 /\ derived_at i out = Some (spec_derive (snd r))).
Proof.
  intros Hplan Hstart Hrun Hall Hni.
  destruct (plan_inversion _ _ _ _ _ _ _ Hplan)
    as (id & secret & url & column & rest & _ & _ & _ & _ & _ & _ & Hbudget & _ & Hp).
  set (self := plan_client p) in *.
  destruct (done_run self _ _ _ _ _ _ _ Hstart Hrun Hall Hni) as (Hnone & Hc & Hg & Hlen).
  destruct (bookkeeping_run self _ _ _ _ _ _ _ Hstart Hrun) as [Hinv _].
  pose proof (positions_run self _ _ _ _ _ _ _ Hstart Hrun) as Hpos.
  assert (Hfit : (length (plan_rate_ts p) + length (plan_uens p) <= 100)%nat).
  { rewrite Hp. cbn [plan_rate_ts plan_uens]. rewrite length_firstn.
    unfold RATE_LIMIT_MAX in *. lia. }
  assert (Hrate : plan_rate_ts p = evict clock rate_ts0) by now rewrite Hp.
  assert (Hentries : length (entry_clocks evs) = length (plan_uens p)).
  { rewrite entry_clocks_length.
    rewrite (Permutation_length (proj1 (all_entered _ _ _ _ _ Hinv Hpos Hall))).
    apply length_seq. }
  assert (Hwin : rate_ts st = plan_rate_ts p ++ entry_clocks evs).
  { rewrite (script_window_history self true (plan_rate_ts p) evs st0 st); [| |exact Hrun].
    - apply keep_last_short. rewrite length_app. lia.
    - rewrite keep_last_short by lia.
      unfold batch_lookup_start in Hstart.
      destruct (plan_concurrency p <? 0); [discriminate|]. now injection Hstart as <-. }
  assert (Hsel : select_column (plan_col_a_name p) (plan_df_in p)
                 = Return (first_column (plan_df_in p))).
  { rewrite Hp. cbn [plan_col_a_name plan_df_in]. now apply select_col_a. }
  exists (gathered (tasks st)). unfold batch_lookup_outcome. rewrite Hnone, Hall.
  split; [reflexivity|]. split; [exact Hg|]. split; [now rewrite Hwin, Hrate|].
  split; [rewrite Hwin, length_app, Hentries, Hrate; reflexivity|].
  split; [rewrite Hwin, length_app, Hentries; exact Hfit|].
  split; [exact Hsel|].
  intros out i cell Hout Hcell.
  destruct (projected_rows _ _ _ _ _ Hsel Hout i cell Hcell) as (d & Hd & Hrow).
  rewrite extract_row_first_result in Hrow.
  assert (Habsent : ~ In (row_key cell) (plan_uens p) -> derived_at i out = Some all_empty).
  { intros Hnotin. rewrite <- Hg in Hnotin.
    rewrite (spec_first_result_None _ _ Hnotin) in Hrow. now injection Hrow as <-. }
  split; [exact Habsent|]. split.
  - intros Hblank. apply Habsent. intros Hin. rewrite Hp in Hin. cbn [plan_uens] in Hin.
    apply firstn_incl in Hin. apply identifiers_stripped in Hin. now destruct Hin.
  - intros j Hj Hfirst.
    assert (Hdone : exists x, In (Reply j x) evs).
    { apply replied_positions_In. apply (pos_replied _ _ Hpos).
      apply done_lookup; [exact Hall|]. rewrite (tasks_length _ _ _ _ Hinv).
      exact (lookup_lt_Some _ _ _ Hj). }
    destruct Hdone as [x Hin]. destruct (pos_ending _ _ Hpos j x Hin) as [uen Hu].
    destruct (no_interrupt_Reply _ _ _ Hni Hin) as [[s b] Hr].
    unfold ending in Hu. rewrite Hr in Hu.
    pose proof (tags_lookup _ _ _ _ _ (inv_tags _ _ _ _ Hinv) Hu) as Huen.
    rewrite Hj in Huen. injection Huen as <-.
    pose proof (gathered_lookup _ _ _ _ _ Hall Hc Hu) as Hrs.
    rewrite (spec_first_result_at _ j _ s b Hrs) in Hrow.
    + exists x, (s, b). split; [exact Hin|]. split; [exact Hr|]. cbn [snd].
      destruct (derivable b) eqn:Hb.
      * split; [reflexivity|]. rewrite (derive_derivable _ Hb) in Hrow.
        now injection Hrow as <-.
      * destruct (derive_not_derivable _ Hb) as [v Hv]. rewrite Hv in Hrow.
        discriminate Hrow.
    + intros k r Hk Hrk Heq. apply (Hfirst k Hk). rewrite <- Hg.
      change (List.map uen_of ?l) with (uen_of <$> l). rewrite list_lookup_fmap, Hrk.
      cbn. now rewrite Heq.
Qed.

End EndToEnd.

(** ** The statements on the sample data *)

Section Samples.
Import Py Client Projector Dispatcher Statements Samples.

(** C5: a body whose [data] entry is present and is not a dict makes the
    derivation of the row, and with it the whole projection, end with
    [AttributeError] instead of returning empty fields. *)
Theorem derive_raises_on_null_data :
  derive null_data_body = Raise (AttributeError VNone "get")
  /\ process_batch_results table "UEN" [("200312345A", 200, null_data_body)]
     = Raise (AttributeError VNone "get").
Proof. split; vm_compute; reflexivity. Qed.

Lemma first_result_wins_witness :
  derived_at 0 projected = Some (spec_derive found_body)
  /\ derived_at 1 projected = Some (spec_derive found_body)
  /\ fst (fst (spec_derive found_body)) = VInt 10
  /\ snd (fst (spec_derive found_body)) = VStr "X1"
  /\ derived_at 3 projected = Some all_empty.
Proof.
  destruct (first_result_wins table "UEN" lookups projected (first_column table))
    as (_ & _ & Hkeyed & _); [vm_compute; reflexivity|vm_compute; reflexivity|].
  assert (Hfirst : forall k' (r : LookupResult),
            (k' < 0)%nat -> lookups !! k' = Some r -> uen_of r <> "200312345A")
    by (intros k' r Hk; lia).
  split; [|split; [|split; [|split]]].
  - refine (proj2 (proj2 (Hkeyed 0%nat (VStr "200312345A") EmptyString "200312345A"
                            EmptyString _ _ _ _ _) 0%nat 200 found_body _ Hfirst));
      reflexivity.
  - refine (proj2 (proj2 (Hkeyed 1%nat (VStr "  200312345A ") "  " "200312345A" " "
                            _ _ _ _ _) 0%nat 200 found_body _ Hfirst));
      reflexivity.
  - vm_compute. reflexivity.
  - vm_compute. reflexivity.
  - refine (proj1 (Hkeyed 3%nat (VStr "t08gb0001a") EmptyString "t08gb0001a" EmptyString
                     _ _ _ _ _) _); try reflexivity.
    cbn. intros H. repeat (destruct H as [H|H]; [discriminate H|]). exact H.
Defined.

Lemma projection_frame_witness :
  exists a b c out,
    process_batch_results table "UEN" lookups = Return out
    /\ out = table ++ [ (RESPONSE_STATUS, a); (RESPONSE_REGISTRATION_ID, b);
                        (JSON_RESPONSE, c) ].
Proof.
  destruct (projection_frame table "UEN" lookups (first_column table))
    as (a & b & c & out & Hout & _ & _ & _ & _ & _ & _ & _ & Happend).
  - vm_compute. reflexivity.
  - vm_compute. reflexivity.
  - cbn. lia.
  - vm_compute. reflexivity.
  - exists a, b, c, out. split; [exact Hout|]. apply Happend. vm_compute. reflexivity.
Defined.

(** C7 (as stated) fails on a table that already has a column with a derived
    label: the column is overwritten where it stands and only two columns
    are added. *)
Lemma projection_overwrites_column :
  (exists out,
     process_batch_results table_with_json_column "UEN" one_lookup = Return out
     /\ labels out = ["UEN"; "json-response"; "response-status"; "response-registrationId"]
     /\ cell_at "json-response" 0 out <> cell_at "json-response" 0 table_with_json_column)
  /\ ~ appends_three_columns table_with_json_column "UEN" one_lookup.
Proof.
  split.
  - eexists. split; [vm_compute; reflexivity|]. split; [reflexivity|].
    vm_compute. discriminate.
  - intros (a & b & c & H). vm_compute in H. discriminate H.
Qed.

Lemma projection_idempotent_off_derived_witness :
  process_batch_results projected "UEN" lookups = Return projected.
Proof.
  apply (proj1 (projection_idempotent_off_derived table "UEN" lookups eq_refl eq_refl)).
  vm_compute. reflexivity.
Defined.

(** C8 (as stated) fails when the identifier column bears a derived label:
    the first projection overwrites the identifiers, and the second finds
    none of them among the results. *)
Lemma projection_not_idempotent :
  ~ projection_idempotent table_keyed_by_json_column "json-response" one_lookup.
Proof.
  intros H.
  assert (H1 : exists out,
             process_batch_results table_keyed_by_json_column "json-response" one_lookup
             = Return out) by (eexists; vm_compute; reflexivity).
  destruct H1 as [out Hout]. specialize (H out Hout).
  vm_compute in Hout. injection Hout as <-. vm_compute in H. discriminate H.
Qed.

Lemma boundary_whitespace_matching_witness :
  row_key (VStr "  200312345A ") = "200312345A"
  /\ derived_at 1 projected = Some (spec_derive found_body)
  /\ fst (fst (spec_derive found_body)) = VInt 10
  /\ snd (fst (spec_derive found_body)) = VStr "X1"
  /\ derived_at 3 projected = Some all_empty.
Proof.
  destruct (boundary_whitespace_matching table 100 lookups
              1%nat (VStr "  200312345A ") "200312345A" "  " " ")
    as (_ & Hkey & _ & _ & _ & _ & _ & _ & Hrow & Hexact).
  - vm_compute. tauto.
  - vm_compute. reflexivity.
  - vm_compute. reflexivity.
  - vm_compute. reflexivity.
  - vm_compute. reflexivity.
  - split; [exact Hkey|]. split; [|split; [|split]].
    + refine (proj2 (proj2 (Hrow projected _) 0%nat 200 found_body _ _)).
      * vm_compute. reflexivity.
      * reflexivity.
      * intros k' r Hk. lia.
    + vm_compute. reflexivity.
    + vm_compute. reflexivity.
    + apply (Hexact projected 3%nat (VStr "t08gb0001a") "t08gb0001a" EmptyString EmptyString).
      * vm_compute. reflexivity.
      * vm_compute. reflexivity.
      * reflexivity.
      * reflexivity.
      * reflexivity.
      * reflexivity.
      * cbn. intros H. repeat (destruct H as [H|H]; [discriminate H|]). exact H.
Defined.


Lemma in_flight_never_exceeds_concurrency_witness :
  0 <= in_flight streamlit_mid_state <= 2.
Proof.
  refine (proj1 (in_flight_never_exceeds_concurrency MainStreamlit client uens 2 []
                   start_state (firstn 4 schedule) streamlit_mid_state _ _)).
  - vm_compute. reflexivity.
  - vm_compute. reflexivity.
Defined.

Lemma transport_failure_is_captured_witness :
  search_gst_registered (fun _ => Fails refused) client "201912345B"
  = Return (0, VDict [("error", VStr "ClientConnectorError: Cannot connect to host")]).
Proof.
  refine (proj1 (transport_failure_is_captured MainStreamlit client (fun _ => Fails refused)
                   "201912345B" Aiohttp ConnectionFailure
                   "ClientConnectorError" "Cannot connect to host" _)).
  reflexivity.
Defined.

End Samples.

(** ** Further statements on the sample data *)

Section Scenarios.
Import Py RateLimiter Client Projector Dispatcher Statements Observations History
  Outcomes Driver Samples Scenarios.

Lemma window_is_last_hundred_witness :
  allowed_calls_remaining (Some 2000) 0
    (run_calls (records [(None, 1000); (Some 1500, 1501)]) rate_ts_init)
  = (98, [1000; 1500]).
Proof.
  apply (proj2 (proj2 (window_is_last_hundred [(None, 1000); (Some 1500, 1501)]
                         (Some 2000) 0))).
  vm_compute. reflexivity.
Defined.

Lemma queries_compose_witness :
  snd (allowed_calls_remaining (Some 5000) 0
         (snd (allowed_calls_remaining (Some 4000) 0 [100; 1000; 4000])))
  = snd (allowed_calls_remaining (Some 5000) 0 [100; 1000; 4000]).
Proof.
  refine (proj1 (queries_compose 4000 5000 0 [100; 1000; 4000] _)). lia.
Defined.

Lemma session_record_after_budget_check_witness :
  SessionLimiter.record_call None 5001 5002
    (snd (allowed_calls_remaining None 5000 [100; 4000]))
  = [4000; 5002].
Proof.
  refine (session_record_after_budget_check 5000 5001 5002 [100; 4000] _ _).
  - vm_compute. reflexivity.
  - lia.
Defined.

Lemma requests_one_per_identifier_witness :
  Permutation (sent script_final_state) (List.map (post_request client) uens).
Proof.
  destruct (requests_one_per_identifier client (BatchScriptAsync true) uens 2 []
              start_state schedule script_final_state) as (_ & _ & _ & Hdone).
  - vm_compute. reflexivity.
  - vm_compute. reflexivity.
  - apply Hdone. vm_compute. reflexivity.
Defined.

Lemma script_result_is_own_exchange_witness :
  exists rs uen r,
    batch_lookup_outcome (BatchScriptAsync true) script_final_state = Some (Return rs)
    /\ complete_lookup (Fails refused) = Return r
    /\ rs !! 1%nat = Some (uen, fst r, snd r).
Proof.
  destruct (script_result_is_own_exchange client true uens 2 [] start_state schedule
              script_final_state) as (rs & Hout & _ & _ & Hown).
  - vm_compute. reflexivity.
  - vm_compute. reflexivity.
  - vm_compute. reflexivity.
  - vm_compute. reflexivity.
  - destruct (Hown 1%nat (Fails refused)) as (uen & r & _ & Hr & Hrs).
    + cbn. tauto.
    + exists rs, uen, r. split; [exact Hout|]. split; [exact Hr|exact Hrs].
Defined.

Lemma streamlit_results_in_completion_order_witness :
  results streamlit_final_state = completions uens schedule.
Proof.
  refine (proj1 (streamlit_results_in_completion_order client true uens 2 []
                   start_state schedule streamlit_final_state _ _)).
  - vm_compute. reflexivity.
  - vm_compute. reflexivity.
Defined.

Lemma progress_counts_completions_witness :
  processed script_final_state = Z.of_nat (length (completions uens schedule)).
Proof.
  refine (proj1 (progress_counts_completions client true uens 2 []
                   start_state schedule script_final_state _ _)).
  - vm_compute. reflexivity.
  - vm_compute. reflexivity.
Defined.

Lemma script_window_keeps_batch_witness :
  rate_ts script_final_state = keep_last 100 ([] ++ entry_clocks schedule).
Proof.
  refine (proj1 (script_window_keeps_batch client true uens 2 []
                   start_state schedule script_final_state _ _ _)).
  - cbn. lia.
  - vm_compute. reflexivity.
  - vm_compute. reflexivity.
Defined.

Lemma nonpositive_concurrency_sends_nothing_witness :
  match batch_lookup_start uens 0 [] with
  | Raise _ => False
  | Return st0 => batch_lookup_outcome MainStreamlit st0 = None
  end.
Proof.
  generalize (nonpositive_concurrency_sends_nothing client MainStreamlit uens 0 []).
  cbn. intros H. apply H; [lia|discriminate].
Defined.

Lemma sequential_is_a_schedule_witness :
  exists st0 st,
    batch_lookup_start uens 2 [] = Return st0
    /\ run MainStreamlit client (sequential_schedule client steady 0 uens) st0 = Some st
    /\ batch_lookup_outcome MainStreamlit st = Some (Return (fst sequential_outcome))
    /\ rate_ts st = snd sequential_outcome.
Proof.
  destruct (sequential_is_a_schedule client steady uens 2 []
              (fst sequential_outcome) (snd sequential_outcome))
    as (st0 & st & Hstart & Hrun & Hout & Hwin & _).
  - lia.
  - vm_compute. reflexivity.
  - exists st0, st. split; [exact Hstart|]. split; [exact Hrun|]. split; [exact Hout|exact Hwin].
Defined.

Lemma interrupt_discards_results_witness :
  exists e i x,
    batch_lookup_outcome (BatchScriptAsync true) interrupted_state = Some (Raise e)
    /\ In (Reply i x) interrupted_schedule
    /\ read_response x = Raise e
    /\ is_Exception e = false.
Proof.
  apply (interrupt_discards_results client (BatchScriptAsync true) uens 2 [] start_state).
  - vm_compute. reflexivity.
  - vm_compute. reflexivity.
  - vm_compute. reflexivity.
Defined.

Lemma projection_ignores_result_order_witness :
  process_batch_results table "UEN" two_lookups
  = process_batch_results table "UEN" (rev two_lookups).
Proof.
  apply projection_ignores_result_order.
  - apply perm_swap.
  - apply (bool_decide_unpack _). vm_compute. exact I.
Defined.

Lemma projection_outcomes_witness :
  process_batch_results table "Address" lookups = Raise (KeyError "Address").
Proof.
  apply (proj1 (proj2 (projection_outcomes table "Address" lookups))).
  cbn. intros [H|[H|[]]]; discriminate H.
Defined.

Lemma client_made_bodies_project_witness :
  derivable (error_body refused) = true.
Proof.
  destruct (client_made_bodies_project (Fails refused) (0, error_body refused) eq_refl)
    as [(resp & Hresp & _)|[Hmade _]].
  - discriminate Hresp.
  - exact Hmade.
Defined.

Lemma plan_respects_budget_witness :
  In (lower "Production", base_url (plan_client sample_plan)) URLS
  /\ (length (plan_rate_ts sample_plan) + length (plan_uens sample_plan) <= 100)%nat.
Proof.
  destruct (plan_respects_budget getenv command_line true (Return table) 5000 [100; 4000]
              sample_plan)
    as (_ & _ & _ & _ & Hurl & _ & _ & _ & _ & _ & _ & _ & Hfit & _).
  - vm_compute. reflexivity.
  - split; [exact Hurl|exact Hfit].
Defined.

Lemma planned_batch_end_to_end_witness :
  exists rs,
    batch_lookup_outcome (BatchScriptAsync true) plan_final_state = Some (Return rs)
    /\ List.map uen_of rs = plan_uens sample_plan
    /\ (length (rate_ts plan_final_state) <= 100)%nat.
Proof.
  destruct (planned_batch_end_to_end getenv command_line true (Return table) 5000
              [100; 4000] sample_plan plan_start_state plan_schedule plan_final_state)
    as (rs & Hout & Htags & _ & _ & Hfit & _).
  - vm_compute. reflexivity.
  - vm_compute. reflexivity.
  - vm_compute. reflexivity.
  - vm_compute. reflexivity.
  - vm_compute. reflexivity.
  - exists rs. split; [exact Hout|]. split; [exact Htags|exact Hfit].
Defined.

Lemma summary_counts_witness : 0 <= others_count lookups.
Proof.
  apply (proj1 (proj2 (proj2 (proj2 (summary_counts lookups))))).
  vm_compute. reflexivity.
Defined.

Lemma streamlit_window_drops_only_expired_witness :
  exists dropped, [] ++ entry_stamps schedule = dropped ++ rate_ts streamlit_final_state.
Proof.
  destruct (streamlit_window_drops_only_expired client uens 2 [] start_state schedule
              streamlit_final_state) as (dropped & Hwin & _).
  - cbn. lia.
  - vm_compute. reflexivity.
  - vm_compute. reflexivity.
  - exists dropped. exact Hwin.
Defined.

End Scenarios.

(** ** The model at work *)

Section Examples.
Import Py RateLimiter Client Projector Dispatcher Statements Samples.

Example evict_stops_at_fresh_head : evict 5000 [1; 2; 1400; 1; 5000] = [1400; 1; 5000].
Proof. reflexivity. Qed.

Example remaining_after_one_hour :
  allowed_calls_remaining (Some 3601) 0 (record_call (Some 1) 0 rate_ts_init) = (99, [1])
  /\ allowed_calls_remaining (Some 3602) 0 (record_call (Some 1) 0 rate_ts_init) = (100, []).
Proof. split; reflexivity. Qed.

Example window_clamps_at_capacity :
  fst (allowed_calls_remaining (Some 150) 0
         (run_calls (List.map (fun t => (RecordCall (Some t), 0)) (List.map Z.of_nat (seq 1 150)))
            rate_ts_init)) = 0.
Proof. vm_compute. reflexivity. Qed.

Example strip_keeps_inner_space : strip "  ab c  " = "ab c".
Proof. reflexivity. Qed.

Example int_cell_key : row_key (VInt 200312345) = "200312345".
Proof. vm_compute. reflexivity. Qed.

Example derive_found :
  derive found_body = Return (spec_derive found_body)
  /\ fst (fst (spec_derive found_body)) = VInt 10
  /\ snd (fst (spec_derive found_body)) = VStr "X1".
Proof. repeat split; vm_compute; reflexivity. Qed.

Example derive_falls_back_to_str :
  derive (VList [VObj "{1, 2}"]) = Return (empty_str, empty_str, VStr "[{1, 2}]").
Proof. vm_compute. reflexivity. Qed.

Example non_json_response :
  complete_lookup
    (Responds {| status := 502; content_type := Some "text/html";
                 json := Raise (Exn "ContentTypeError" "unexpected mimetype" TransportError);
                 text := Return "Bad Gateway" |})
  = Return (502, VDict [("raw", VStr "Bad Gateway")]).
Proof. reflexivity. Qed.

Example dispatched_sample : dispatched table 100 = ["200312345A"; "200312345A"; "201912345B"; "t08gb0001a"].
Proof. vm_compute. reflexivity. Qed.

Example script_returns_in_input_order :
  batch_lookup_outcome (BatchScriptAsync true) script_final_state
  = Some (Return [ ("200312345A", 200, found_body);
                   ("201912345B", 0, error_body refused);
                   ("200312345A", 200, found_body) ])
  /\ progress script_final_state = [(1, 3); (2, 3); (3, 3)]
  /\ rate_ts script_final_state = [1000; 1000; 1002].
Proof. repeat split; vm_compute; reflexivity. Qed.

End Examples.
